(** * Relationship payload cache of ember-data: a shallow embedding

    The repository holds two variants of the cache:

    - [src/addon/-private/system/relationships/relationships-payloads.js],
      embedded in [Module Payloads]: a stored entry is the bare payload
      [{ data }];
    - [src/unnamed/part_000], embedded in [Module Part000]: a stored entry is
      [{ payload: { data }, inverse }].

    and one consumer, [src/addon/-private/system/relationships/state/create.js],
    embedded in [Module Create].

    Modelling conventions.

    - Names of models and relationships, and ids, are strings: an id is used
      as a property key of a plain JS object, and compared with [!==]; both
      agree on strings.  A table holds the own properties of its object;
      where a statement is true of the code only for ids that name no member
      of [Object.prototype], it assumes [plainId], [plainFragment] or
      [plainLedger].  The [<] of part_000 on two keys is the lexicographic
      order on character codes ([String.ltb]).
    - [store._modelFor] and [relationshipsByName] are total: a model name
      the schema does not know declares no relationship.
    - A reference is a well-formed [{ id, type }] pair, so the [typeof]
      guards of [hasRecordForId] hold and are not shown.
    - The [data] member of a payload is [null] (or absent: every test on it
      is [!data]), one reference, or an array of references.
    - The two payload tables of a ledger are JS objects; in a reflexive
      relationship [_rhsPayloads] is the very same object as [_lhsPayloads].
      A table is a [gmap]; which table a method works on is a [Side], resolved
      through the alias.
    - Every pushed fragment is a fresh object (it comes out of a
      deserialised document), so two slots never share an array, and an
      assignment to [entry.data] or a [push] on its array is an update of
      the one slot that holds the entry.  The object
      [{ data: { id, type } }] that a flush may store under several ids is
      never written to: only arrays are changed in place.  The one place
      where the code itself iterates an array it may be appending to
      ([_populateInverse] of [part_000] on a reflexive ledger; the guard of
      [_addToInverse] in relationships-payloads.js rules it out there) is
      modelled with the array read back from its slot at each iteration. *)

From stdpp Require Import gmap strings list fin_maps.

(** ** Data shared by both variants *)

(** [{ id, type }] *)
Record Reference := { ref_id : string; ref_type : string }.

#[global] Instance Reference_eq_dec : EqDecision Reference.
Proof. solve_decision. Defined.

(** The [data] member of a relationship fragment. *)
Inductive Data :=
| DataNull
| DataOne (r : Reference)
| DataMany (rs : list Reference).

#[global] Instance Data_eq_dec : EqDecision Data.
Proof. solve_decision. Defined.

(** A relationship fragment [{ data }] as it is pushed. *)
Record Payload := { data : Data }.

#[global] Instance Payload_eq_dec : EqDecision Payload.
Proof. solve_decision. Defined.

(** The references a [data] value holds, in order. *)
Definition references (d : Data) : list Reference :=
  match d with
  | DataNull => []
  | DataOne r => [r]
  | DataMany rs => rs
  end.

(** [d] holds a reference whose id is [id]. *)
Definition lists (d : Data) (id : string) : Prop :=
  ∃ r, r ∈ references d ∧ ref_id r = id.

(** An element of [pendingPayloads]:
    [[modelName, id, relationshipName, relationshipData]]. *)
Record Work := {
  work_modelName : string;
  work_id : string;
  work_relationshipName : string;
  work_relationshipData : Payload }.

(** One of the two payload tables of a ledger, as an object reference. *)
Inductive Side := Lhs | Rhs.

#[global] Instance Side_eq_dec : EqDecision Side.
Proof. solve_decision. Defined.

(** ** The store and schema, as far as the cache consults them *)

Inductive Kind := belongsTo | hasMany.

#[global] Instance Kind_eq_dec : EqDecision Kind.
Proof. solve_decision. Defined.

(** A relationship descriptor: [kind] and [type] (the target model name). *)
Record RelationshipMeta := { meta_kind : Kind; meta_type : string }.

(** What [modelClass.inverseFor] answers: the inverse relationship's [name]
    and the model class [type] that declares it (by model name). *)
Record InverseMeta := { inverse_name : string; inverse_type : string }.

(** The collaborators: schema reflection ([relationshipsByName] of the class
    of a model name, a [Map] in declaration order), inverse resolution and
    the residency test of the backing store. *)
Record Store := {
  relationshipsByName : string → list (string * RelationshipMeta);
  inverseFor : string → string → option InverseMeta;
  store_hasRecordForId : string → string → bool }.

(** [Map.prototype.get] *)
Fixpoint Map_get {V} (m : list (string * V)) (k : string) : option V :=
  match m with
  | [] => None
  | (k', v) :: m' => if bool_decide (k' = k) then Some v else Map_get m' k
  end.

(** [Map.prototype.has] *)
Definition Map_has {V} (m : list (string * V)) (k : string) : bool :=
  match Map_get m k with Some _ => true | None => false end.

(** [meta.kind === 'hasMany'] *)
Definition isHasMany (m : RelationshipMeta) : bool :=
  match meta_kind m with hasMany => true | belongsTo => false end.

(** ** Outcomes of the code that can fail to return

    The loop of [_populateInverse] in [part_000] is bounded by the length of
    an array that its own body can extend, and the cardinality getters of
    [part_000] read [.kind] of a descriptor that may be [undefined].  A
    computation there returns a value, throws, or has not returned within
    the given number of loop iterations. *)

Inductive Res (A : Type) :=
| Ret (a : A)
| Throw
| OutOfFuel.

Arguments Ret {A} a.
Arguments Throw {A}.
Arguments OutOfFuel {A}.

Definition Res_bind {A B} (c : Res A) (k : A → Res B) : Res B :=
  match c with
  | Ret a => k a
  | Throw => Throw
  | OutOfFuel => OutOfFuel
  end.

Notation "x ←! c ; k" := (Res_bind c (λ x, k))
  (at level 20, c at level 100, k at level 200, right associativity,
   format "x  ←!  c ;  '/' k").

(** ** relationships-payloads.js *)

Module Payloads.

(** [function hasRecordForId(store, type, id)] *)
Definition hasRecordForId (store : Store) (type id : string) : bool :=
  store_hasRecordForId store type id.

(** *** [class RelationshipPayloads]: one ledger *)
Module RelationshipPayloads.

Record t := {
  _lhsModelName : string;
  _lhsRelationshipName : string;
  _lhsRelationshipMeta : option RelationshipMeta;
  _rhsModelName : string;
  _rhsRelationshipName : string;
  _rhsRelationshipMeta : option RelationshipMeta;
  _lhsPayloads : gmap string Payload;
  (** the object made by the constructor's first branch; not consulted when
      [_isReflexive], where [this._rhsPayloads] is [this._lhsPayloads] *)
  _rhsPayloads : gmap string Payload;
  _isReflexive : bool;
  _pendingPayloads : list Work }.

(** [constructor] *)
Definition new (modelName relationshipName : string)
    (relationshipMeta : option RelationshipMeta)
    (inverseModelName inverseRelationshipName : string)
    (inverseRelationshipMeta : option RelationshipMeta) : t :=
  {| _lhsModelName := modelName;
     _lhsRelationshipName := relationshipName;
     _lhsRelationshipMeta := relationshipMeta;
     _rhsModelName := inverseModelName;
     _rhsRelationshipName := inverseRelationshipName;
     _rhsRelationshipMeta := inverseRelationshipMeta;
     _lhsPayloads := ∅;
     _rhsPayloads := ∅;
     _isReflexive :=
       negb (bool_decide (modelName ≠ inverseModelName)
             || bool_decide (relationshipName ≠ inverseRelationshipName));
     _pendingPayloads := [] |}.

(** The table a [Side] denotes. *)
Definition payloads (s : Side) (this : t) : gmap string Payload :=
  match s with
  | Lhs => _lhsPayloads this
  | Rhs => if _isReflexive this then _lhsPayloads this else _rhsPayloads this
  end.

Definition set_lhsPayloads (m : gmap string Payload) (this : t) : t :=
  {| _lhsModelName := _lhsModelName this;
     _lhsRelationshipName := _lhsRelationshipName this;
     _lhsRelationshipMeta := _lhsRelationshipMeta this;
     _rhsModelName := _rhsModelName this;
     _rhsRelationshipName := _rhsRelationshipName this;
     _rhsRelationshipMeta := _rhsRelationshipMeta this;
     _lhsPayloads := m;
     _rhsPayloads := _rhsPayloads this;
     _isReflexive := _isReflexive this;
     _pendingPayloads := _pendingPayloads this |}.

Definition set_rhsPayloads (m : gmap string Payload) (this : t) : t :=
  {| _lhsModelName := _lhsModelName this;
     _lhsRelationshipName := _lhsRelationshipName this;
     _lhsRelationshipMeta := _lhsRelationshipMeta this;
     _rhsModelName := _rhsModelName this;
     _rhsRelationshipName := _rhsRelationshipName this;
     _rhsRelationshipMeta := _rhsRelationshipMeta this;
     _lhsPayloads := _lhsPayloads this;
     _rhsPayloads := m;
     _isReflexive := _isReflexive this;
     _pendingPayloads := _pendingPayloads this |}.

Definition set_pendingPayloads (q : list Work) (this : t) : t :=
  {| _lhsModelName := _lhsModelName this;
     _lhsRelationshipName := _lhsRelationshipName this;
     _lhsRelationshipMeta := _lhsRelationshipMeta this;
     _rhsModelName := _rhsModelName this;
     _rhsRelationshipName := _rhsRelationshipName this;
     _rhsRelationshipMeta := _rhsRelationshipMeta this;
     _lhsPayloads := _lhsPayloads this;
     _rhsPayloads := _rhsPayloads this;
     _isReflexive := _isReflexive this;
     _pendingPayloads := q |}.

(** A mutation of the table a [Side] denotes. *)
Definition update (s : Side) (f : gmap string Payload → gmap string Payload)
    (this : t) : t :=
  match s with
  | Lhs => set_lhsPayloads (f (_lhsPayloads this)) this
  | Rhs =>
      if _isReflexive this then set_lhsPayloads (f (_lhsPayloads this)) this
      else set_rhsPayloads (f (_rhsPayloads this)) this
  end.

(** [modelName === this._lhsModelName &&
     relationshipName === this._lhsRelationshipName] *)
Definition isLhs (this : t) (modelName relationshipName : string) : bool :=
  bool_decide (modelName = _lhsModelName this)
  && bool_decide (relationshipName = _lhsRelationshipName this).

(** The table of the side a (modelName, relationshipName) pair addresses,
    and the other one. *)
Definition ownSide (this : t) (modelName relationshipName : string) : Side :=
  if isLhs this modelName relationshipName then Lhs else Rhs.

Definition otherSide (this : t) (modelName relationshipName : string) : Side :=
  if isLhs this modelName relationshipName then Rhs else Lhs.

(** [get _lhsRelationshipIsMany] *)
Definition _lhsRelationshipIsMany (this : t) : bool :=
  match _lhsRelationshipMeta this with
  | Some m => isHasMany m
  | None => false
  end.

(** [get _rhsRelationshipIsMany] *)
Definition _rhsRelationshipIsMany (this : t) : bool :=
  match _rhsRelationshipMeta this with
  | Some m => isHasMany m
  | None => false
  end.

(** [push] *)
Definition push (this : t) (modelName id relationshipName : string)
    (relationshipData : Payload) : t :=
  set_pendingPayloads
    (_pendingPayloads this ++
       [{| work_modelName := modelName; work_id := id;
           work_relationshipName := relationshipName;
           work_relationshipData := relationshipData |}])
    this.

(** [_inverseLoaded] *)
Definition _inverseLoaded (store : Store) (payload : option Payload) : bool :=
  match payload with
  | None => false
  | Some p =>
      match data p with
      | DataNull => false
      | DataMany rs =>
          existsb (λ r, hasRecordForId store (ref_type r) (ref_id r)) rs
      | DataOne r => hasRecordForId store (ref_type r) (ref_id r)
      end
  end.

(** [_removeFromInverse] *)
Definition _removeFromInverse (id inverseId : string)
    (inversePayloads : gmap string Payload) : gmap string Payload :=
  match inversePayloads !! inverseId with
  | None => inversePayloads
  | Some inversePayload =>
      match data inversePayload with
      | DataNull => inversePayloads
      | DataMany xs =>
          <[inverseId :=
              {| data := DataMany (filter (λ x, ref_id x ≠ id) xs) |}]>
            inversePayloads
      | DataOne _ => <[inverseId := {| data := DataNull |}]> inversePayloads
      end
  end.

(** [_removeInverse] *)
Definition _removeInverse (id : string) (payload : option Payload)
    (inversePayloads : gmap string Payload) : gmap string Payload :=
  match payload with
  | None => inversePayloads
  | Some p =>
      match data p with
      | DataNull => inversePayloads
      | DataMany rs =>
          fold_left (λ m r, _removeFromInverse id (ref_id r) m) rs
            inversePayloads
      | DataOne r => _removeFromInverse id (ref_id r) inversePayloads
      end
  end.

(** [_addToInverse]; [inversePayload] is [{ data: { id, type } }], given
    here by its reference. *)
Definition _addToInverse (isReflexive : bool) (inversePayload : Reference)
    (inverseId : string) (inversePayloads : gmap string Payload)
    (inverseIsMany : bool) : gmap string Payload :=
  if isReflexive && bool_decide (ref_id inversePayload = inverseId) then
    inversePayloads
  else
    match data <$> inversePayloads !! inverseId with
    | Some (DataMany existingData) =>
        <[inverseId := {| data := DataMany (existingData ++ [inversePayload]) |}]>
          inversePayloads
    | _ =>
        if inverseIsMany then
          <[inverseId := {| data := DataMany [inversePayload] |}]>
            inversePayloads
        else
          <[inverseId := {| data := DataOne inversePayload |}]>
            inversePayloads
    end.

(** [_populateInverse] *)
Definition _populateInverse (isReflexive : bool) (relationshipData : Payload)
    (inversePayload : Reference) (inversePayloads : gmap string Payload)
    (inverseIsMany : bool) : gmap string Payload :=
  match data relationshipData with
  | DataNull => inversePayloads
  | DataMany rs =>
      fold_left
        (λ m r, _addToInverse isReflexive inversePayload (ref_id r) m
                  inverseIsMany)
        rs inversePayloads
  | DataOne r =>
      _addToInverse isReflexive inversePayload (ref_id r) inversePayloads
        inverseIsMany
  end.

(** The body of the loop of [_flushPending], for [work[i]]. *)
Definition flushOne (this : t) (w : Work) : t :=
  let modelName := work_modelName w in
  let id := work_id w in
  let relationshipName := work_relationshipName w in
  let relationshipData := work_relationshipData w in
  let inverseRelationshipData := {| ref_id := id; ref_type := modelName |} in
  if isLhs this modelName relationshipName then
    let this := update Rhs (_removeInverse id (_lhsPayloads this !! id)) this in
    let this := update Lhs <[id := relationshipData]> this in
    update Rhs
      (λ m, _populateInverse (_isReflexive this) relationshipData
              inverseRelationshipData m (_rhsRelationshipIsMany this))
      this
  else
    let this :=
      update Lhs (_removeInverse id (payloads Rhs this !! id)) this in
    let this := update Rhs <[id := relationshipData]> this in
    update Lhs
      (λ m, _populateInverse (_isReflexive this) relationshipData
              inverseRelationshipData m (_lhsRelationshipIsMany this))
      this.

(** [_flushPending]: [splice] empties the queue, then the work is done in
    order. *)
Definition _flushPending (this : t) : t :=
  match _pendingPayloads this with
  | [] => this
  | work => fold_left flushOne work (set_pendingPayloads [] this)
  end.

(** [get]: the returned entry and the ledger afterwards. *)
Definition get (this : t) (modelName id relationshipName : string)
    : option Payload * t :=
  let this := _flushPending this in
  if isLhs this modelName relationshipName then
    (_lhsPayloads this !! id, this)
  else
    (payloads Rhs this !! id, this).

(** [_unload] *)
Definition _unload (store : Store) (id : string) (payloads_ inversePayloads : Side)
    (this : t) : t :=
  if negb (_inverseLoaded store (payloads payloads_ this !! id)) then
    let this :=
      update inversePayloads
        (_removeInverse id (payloads payloads_ this !! id)) this in
    update payloads_ (delete id) this
  else this.

(** [unload] *)
Definition unload (store : Store) (this : t)
    (modelName id relationshipName : string) : t :=
  let this := _flushPending this in
  if isLhs this modelName relationshipName then _unload store id Lhs Rhs this
  else _unload store id Rhs Lhs this.

End RelationshipPayloads.

(** *** [class RelationshipsPayloads]: the registry

    [_cache] maps a key ["modelName:relationshipName"] to a ledger object;
    [_initializeRelationshipPayloads] stores one new object under two keys.
    The objects live in [objects], and [_cache] holds their positions. *)
Module RelationshipsPayloads.

Record t := {
  _cache : gmap string nat;
  objects : list RelationshipPayloads.t }.

(** [constructor] *)
Definition new : t := {| _cache := ∅; objects := [] |}.

(** Template literal [`${a}:${b}`]. *)
Definition keyOf (a b : string) : string := a +:+ ":" +:+ b.

(** [_initializeRelationshipPayloads]; it is called after
    [relationshipsByName.has(relationshipName)] held, so
    [relationshipsByName.get] answers a descriptor. *)
Definition _initializeRelationshipPayloads (store : Store) (this : t)
    (modelName relationshipName : string) : nat * t :=
  let relationshipMeta :=
    Map_get (relationshipsByName store modelName) relationshipName in
  let inverseMeta := inverseFor store modelName relationshipName in
  let '(inverseModelName, inverseRelationshipName, inverseRelationshipMeta) :=
    match inverseMeta with
    | Some im =>
        (match relationshipMeta with Some m => meta_type m | None => "" end,
         inverse_name im,
         Map_get (relationshipsByName store (inverse_type im)) (inverse_name im))
    | None => ("", "", None)
    end in
  let lhsKey := keyOf modelName relationshipName in
  let rhsKey := keyOf inverseModelName inverseRelationshipName in
  let object :=
    RelationshipPayloads.new modelName relationshipName relationshipMeta
      inverseModelName inverseRelationshipName inverseRelationshipMeta in
  let p := length (objects this) in
  (p, {| _cache := <[lhsKey := p]> (<[rhsKey := p]> (_cache this));
         objects := objects this ++ [object] |}).

(** [_getRelationshipPayloads]: the ledger object found or made, if any. *)
Definition _getRelationshipPayloads (store : Store) (this : t)
    (modelName relationshipName : string) (init : bool) : option nat * t :=
  if negb (Map_has (relationshipsByName store modelName) relationshipName) then
    (None, this)
  else
    let key := keyOf modelName relationshipName in
    match _cache this !! key with
    | None =>
        if init then
          let '(p, this) :=
            _initializeRelationshipPayloads store this modelName
              relationshipName in
          (Some p, this)
        else (None, this)
    | Some p => (Some p, this)
    end.

(** A method call on the ledger object at [p] that changes it. *)
Definition onObject (p : nat) (f : RelationshipPayloads.t → RelationshipPayloads.t)
    (this : t) : t :=
  {| _cache := _cache this; objects := alter f p (objects this) |}.

(** [get] *)
Definition get (store : Store) (this : t)
    (modelName id relationshipName : string) : option Payload * t :=
  match _getRelationshipPayloads store this modelName relationshipName false with
  | (Some p, this) =>
      match objects this !! p with
      | Some relationshipPayloads =>
          let '(entry, relationshipPayloads) :=
            RelationshipPayloads.get relationshipPayloads modelName id
              relationshipName in
          (entry, onObject p (λ _, relationshipPayloads) this)
      | None => (None, this)
      end
  | (None, this) => (None, this)
  end.

(** [push]; [relationshipsData] is [None] when falsy, else its own
    enumerable keys in [for ... in] order with their values. *)
Definition push (store : Store) (this : t) (modelName id : string)
    (relationshipsData : option (list (string * Payload))) : t :=
  match relationshipsData with
  | None => this
  | Some entries =>
      fold_left
        (λ this kv,
           match _getRelationshipPayloads store this modelName kv.1 true with
           | (Some p, this) =>
               onObject p
                 (λ o, RelationshipPayloads.push o modelName id kv.1 kv.2) this
           | (None, this) => this
           end)
        entries this
  end.

(** [unload] *)
Definition unload (store : Store) (this : t) (modelName id : string) : t :=
  fold_left
    (λ this kv,
       match _getRelationshipPayloads store this modelName kv.1 false with
       | (Some p, this) =>
           onObject p
             (λ o, RelationshipPayloads.unload store o modelName id kv.1) this
       | (None, this) => this
       end)
    (relationshipsByName store modelName) this.

End RelationshipsPayloads.

End Payloads.

(** ** part_000 *)

Module Part000.

(** A stored entry [{ payload, inverse }]. *)
Record Entry := { payload : Payload; inverse : bool }.

#[global] Instance Entry_eq_dec : EqDecision Entry.
Proof. solve_decision. Defined.

(** *** [class RelationshipPayloads]: one ledger *)
Module RelationshipPayloads.

Record t := {
  _lhsModelName : string;
  _lhsRelationshipName : string;
  _rhsModelName : string;
  _rhsRelationshipName : string;
  _lhsPayloads : gmap string Entry;
  (** the object made by the constructor's first branch; not consulted when
      [rhsIsLhs] *)
  _rhsPayloads : gmap string Entry;
  (** [this._rhsPayloads === this._lhsPayloads], fixed by the constructor *)
  rhsIsLhs : bool;
  _pendingPayloads : list Work }.

(** [constructor]; the two memo fields of the cardinality getters start
    [undefined] and are not kept: the schema does not change, so a getter
    answers the same every time. *)
Definition new (modelName relationshipName inverseModelName
    inverseRelationshipName : string) : t :=
  {| _lhsModelName := modelName;
     _lhsRelationshipName := relationshipName;
     _rhsModelName := inverseModelName;
     _rhsRelationshipName := inverseRelationshipName;
     _lhsPayloads := ∅;
     _rhsPayloads := ∅;
     rhsIsLhs :=
       negb (bool_decide (modelName ≠ inverseModelName)
             || bool_decide (relationshipName ≠ inverseRelationshipName));
     _pendingPayloads := [] |}.

(** The table a [Side] denotes. *)
Definition payloads (s : Side) (this : t) : gmap string Entry :=
  match s with
  | Lhs => _lhsPayloads this
  | Rhs => if rhsIsLhs this then _lhsPayloads this else _rhsPayloads this
  end.

Definition set_lhsPayloads (m : gmap string Entry) (this : t) : t :=
  {| _lhsModelName := _lhsModelName this;
     _lhsRelationshipName := _lhsRelationshipName this;
     _rhsModelName := _rhsModelName this;
     _rhsRelationshipName := _rhsRelationshipName this;
     _lhsPayloads := m;
     _rhsPayloads := _rhsPayloads this;
     rhsIsLhs := rhsIsLhs this;
     _pendingPayloads := _pendingPayloads this |}.

Definition set_rhsPayloads (m : gmap string Entry) (this : t) : t :=
  {| _lhsModelName := _lhsModelName this;
     _lhsRelationshipName := _lhsRelationshipName this;
     _rhsModelName := _rhsModelName this;
     _rhsRelationshipName := _rhsRelationshipName this;
     _lhsPayloads := _lhsPayloads this;
     _rhsPayloads := m;
     rhsIsLhs := rhsIsLhs this;
     _pendingPayloads := _pendingPayloads this |}.

Definition set_pendingPayloads (q : list Work) (this : t) : t :=
  {| _lhsModelName := _lhsModelName this;
     _lhsRelationshipName := _lhsRelationshipName this;
     _rhsModelName := _rhsModelName this;
     _rhsRelationshipName := _rhsRelationshipName this;
     _lhsPayloads := _lhsPayloads this;
     _rhsPayloads := _rhsPayloads this;
     rhsIsLhs := rhsIsLhs this;
     _pendingPayloads := q |}.

(** A mutation of the table a [Side] denotes. *)
Definition update (s : Side) (f : gmap string Entry → gmap string Entry)
    (this : t) : t :=
  match s with
  | Lhs => set_lhsPayloads (f (_lhsPayloads this)) this
  | Rhs =>
      if rhsIsLhs this then set_lhsPayloads (f (_lhsPayloads this)) this
      else set_rhsPayloads (f (_rhsPayloads this)) this
  end.

Definition isLhs (this : t) (modelName relationshipName : string) : bool :=
  bool_decide (modelName = _lhsModelName this)
  && bool_decide (relationshipName = _lhsRelationshipName this).

(** The table of the side a (modelName, relationshipName) pair addresses,
    and the other one. *)
Definition ownSide (this : t) (modelName relationshipName : string) : Side :=
  if isLhs this modelName relationshipName then Lhs else Rhs.

Definition otherSide (this : t) (modelName relationshipName : string) : Side :=
  if isLhs this modelName relationshipName then Rhs else Lhs.

(** The shared body of the two cardinality getters: [false] for a falsy
    (empty) model name, else [relationshipMeta.kind === 'hasMany'], which
    throws when the relationship is not declared. *)
Definition relationshipIsMany (store : Store) (modelName relationshipName : string)
    : Res bool :=
  if bool_decide (modelName = "") then Ret false
  else
    match Map_get (relationshipsByName store modelName) relationshipName with
    | Some relationshipMeta => Ret (isHasMany relationshipMeta)
    | None => Throw
    end.

(** [get _lhsRelationshipIsMany] *)
Definition _lhsRelationshipIsMany (store : Store) (this : t) : Res bool :=
  relationshipIsMany store (_lhsModelName this) (_lhsRelationshipName this).

(** [get _rhsRelationshipIsMany] *)
Definition _rhsRelationshipIsMany (store : Store) (this : t) : Res bool :=
  relationshipIsMany store (_rhsModelName this) (_rhsRelationshipName this).

(** [push] *)
Definition push (this : t) (modelName id relationshipName : string)
    (relationshipData : Payload) : t :=
  set_pendingPayloads
    (_pendingPayloads this ++
       [{| work_modelName := modelName; work_id := id;
           work_relationshipName := relationshipName;
           work_relationshipData := relationshipData |}])
    this.

(** [_hasRecordForId] *)
Definition _hasRecordForId (store : Store) (type id : string) : bool :=
  store_hasRecordForId store type id.

(** [_inverseLoaded] *)
Definition _inverseLoaded (store : Store) (entry : option Entry) : bool :=
  match entry with
  | None => false
  | Some e =>
      match data (payload e) with
      | DataNull => false
      | DataMany rs =>
          existsb (λ r, _hasRecordForId store (ref_type r) (ref_id r)) rs
      | DataOne r => _hasRecordForId store (ref_type r) (ref_id r)
      end
  end.

(** [_removeFromInverse] *)
Definition _removeFromInverse (id inverseId : string)
    (inversePayloads : gmap string Entry) : gmap string Entry :=
  match inversePayloads !! inverseId with
  | None => inversePayloads
  | Some inverseEntry =>
      match data (payload inverseEntry) with
      | DataNull => inversePayloads
      | DataMany xs =>
          <[inverseId :=
              {| payload :=
                   {| data := DataMany (filter (λ x, ref_id x ≠ id) xs) |};
                 inverse := inverse inverseEntry |}]>
            inversePayloads
      | DataOne _ =>
          <[inverseId :=
              {| payload := {| data := DataNull |}; inverse := true |}]>
            inversePayloads
      end
  end.

(** [_removeInverse] *)
Definition _removeInverse (id : string) (entry : option Entry)
    (inversePayloads : gmap string Entry) : gmap string Entry :=
  match entry with
  | None => inversePayloads
  | Some e =>
      match data (payload e) with
      | DataNull => inversePayloads
      | DataMany rs =>
          fold_left (λ m r, _removeFromInverse id (ref_id r) m) rs
            inversePayloads
      | DataOne r => _removeFromInverse id (ref_id r) inversePayloads
      end
  end.

(** The [inverseEntry] that [_flushPending] builds,
    [{ payload: { data: { id, type } }, inverse: true }]. *)
Definition inverseEntryOf (r : Reference) : Entry :=
  {| payload := {| data := DataOne r |}; inverse := true |}.

(** [_addToInverse]; [inverseEntry] is given by the reference it holds. *)
Definition _addToInverse (inverseEntry : Reference) (inverseId : string)
    (inversePayloads : gmap string Entry) (inverseIsMany : bool)
    : gmap string Entry :=
  match inversePayloads !! inverseId with
  | Some {| payload := {| data := DataMany existingData |};
            inverse := existingInverse |} =>
      <[inverseId :=
          {| payload := {| data := DataMany (existingData ++ [inverseEntry]) |};
             inverse := existingInverse |}]>
        inversePayloads
  | _ =>
      if inverseIsMany then
        <[inverseId :=
            {| payload := {| data := DataMany [inverseEntry] |};
               inverse := true |}]>
          inversePayloads
      else <[inverseId := inverseEntryOf inverseEntry]> inversePayloads
  end.

(** The array [relationshipData.data] that [_populateInverse] walks is the
    one held by the entry stored just before at [payloads_[id]]; it is read
    through that slot, so that an append made by [_addToInverse] to this very
    array (possible when [inversePayloads] is the same table) is seen by the
    loop test [i < relationshipData.data.length]. *)
Definition dataAt (payloads_ : Side) (id : string) (this : t) : Data :=
  match payloads payloads_ this !! id with
  | Some e => data (payload e)
  | None => DataNull
  end.

(** The [for] loop of [_populateInverse], from index [i]. *)
Fixpoint populateLoop (fuel : nat) (payloads_ : Side) (id : string)
    (inverseEntry : Reference) (inversePayloads : Side) (inverseIsMany : bool)
    (i : nat) (this : t) : Res t :=
  match fuel with
  | O => OutOfFuel
  | S fuel =>
      match references (dataAt payloads_ id this) !! i with
      | None => Ret this
      | Some r =>
          populateLoop fuel payloads_ id inverseEntry inversePayloads
            inverseIsMany (S i)
            (update inversePayloads
               (λ m, _addToInverse inverseEntry (ref_id r) m inverseIsMany)
               this)
      end
  end.

(** [_populateInverse]; [relationshipData] is the payload at
    [payloads_[id]]. *)
Definition _populateInverse (fuel : nat) (payloads_ : Side) (id : string)
    (inverseEntry : Reference) (inversePayloads : Side) (inverseIsMany : bool)
    (this : t) : Res t :=
  match dataAt payloads_ id this with
  | DataNull => Ret this
  | DataMany _ =>
      populateLoop fuel payloads_ id inverseEntry inversePayloads
        inverseIsMany 0 this
  | DataOne r =>
      Ret (update inversePayloads
             (λ m, _addToInverse inverseEntry (ref_id r) m inverseIsMany)
             this)
  end.

(** The body of the loop of [_flushPending], for [work[i]]. *)
Definition flushOne (store : Store) (fuel : nat) (this : t) (w : Work) : Res t :=
  let modelName := work_modelName w in
  let id := work_id w in
  let relationshipName := work_relationshipName w in
  let relationshipData := work_relationshipData w in
  let entry := {| payload := relationshipData; inverse := false |} in
  let inverseEntry := {| ref_id := id; ref_type := modelName |} in
  if isLhs this modelName relationshipName then
    let this := update Rhs (_removeInverse id (_lhsPayloads this !! id)) this in
    let this := update Lhs <[id := entry]> this in
    inverseIsMany ←! _rhsRelationshipIsMany store this;
    _populateInverse fuel Lhs id inverseEntry Rhs inverseIsMany this
  else
    let this :=
      update Lhs (_removeInverse id (payloads Rhs this !! id)) this in
    let this := update Rhs <[id := entry]> this in
    inverseIsMany ←! _lhsRelationshipIsMany store this;
    _populateInverse fuel Rhs id inverseEntry Lhs inverseIsMany this.

(** The loop of [_flushPending] over [work]. *)
Fixpoint flushLoop (store : Store) (fuel : nat) (work : list Work) (this : t)
    : Res t :=
  match work with
  | [] => Ret this
  | w :: work =>
      this ←! flushOne store fuel this w;
      flushLoop store fuel work this
  end.

(** [_flushPending] *)
Definition _flushPending (store : Store) (fuel : nat) (this : t) : Res t :=
  flushLoop store fuel (_pendingPayloads this) (set_pendingPayloads [] this).

(** [get] *)
Definition get (store : Store) (fuel : nat) (this : t)
    (modelName id relationshipName : string) : Res (option Entry * t) :=
  this ←! _flushPending store fuel this;
  if isLhs this modelName relationshipName then
    Ret (_lhsPayloads this !! id, this)
  else
    Ret (payloads Rhs this !! id, this).

(** [_unload] *)
Definition _unload (store : Store) (id : string) (payloads_ inversePayloads : Side)
    (this : t) : t :=
  if negb (_inverseLoaded store (payloads payloads_ this !! id)) then
    let this :=
      update inversePayloads
        (_removeInverse id (payloads payloads_ this !! id)) this in
    update payloads_ (delete id) this
  else this.

(** [unload] *)
Definition unload (store : Store) (fuel : nat) (this : t)
    (modelName id relationshipName : string) : Res t :=
  this ←! _flushPending store fuel this;
  if isLhs this modelName relationshipName then
    Ret (_unload store id Lhs Rhs this)
  else
    Ret (_unload store id Rhs Lhs this).

End RelationshipPayloads.

(** *** [class RelationshipsPayloads]: the registry

    [_map] maps the canonical key of a relationship pair to its ledger
    object; each object is held under one key only. *)
Module RelationshipsPayloads.

Record t := { _map : gmap string RelationshipPayloads.t }.

(** [constructor] *)
Definition new : t := {| _map := ∅ |}.

(** [_inverseFor]; [None] is [undefined]. *)
Definition _inverseFor (store : Store) (modelName relationshipName : string)
    : option (string * string) :=
  let relationshipsByName_ := relationshipsByName store modelName in
  if negb (Map_has relationshipsByName_ relationshipName) then None
  else
    match inverseFor store modelName relationshipName with
    | None => Some ("", "")
    | Some inverseData =>
        match Map_get relationshipsByName_ relationshipName with
        | Some relationshipMeta =>
            Some (meta_type relationshipMeta, inverse_name inverseData)
        | None => None
        end
    end.

(** The key under which [_getRelationshipPayloads] files a pair. *)
Definition keyOf (modelName relationshipName inverseModelName
    inverseRelationshipName : string) : string :=
  let keyPart1 := modelName +:+ ":" +:+ relationshipName in
  let keyPart2 := inverseModelName +:+ ":" +:+ inverseRelationshipName in
  if String.ltb keyPart1 keyPart2 then keyPart1 +:+ ":" +:+ keyPart2
  else keyPart2 +:+ ":" +:+ keyPart1.

(** [_getRelationshipPayloads]: the key of the ledger object found or made,
    if any.  Indexing an [undefined] inverse throws. *)
Definition _getRelationshipPayloads (store : Store) (this : t)
    (modelName relationshipName : string) : Res (option string * t) :=
  if negb (Map_has (relationshipsByName store modelName) relationshipName) then
    Ret (None, this)
  else
    match _inverseFor store modelName relationshipName with
    | None => Throw
    | Some (inverseModelName, inverseRelationshipName) =>
        let key :=
          keyOf modelName relationshipName inverseModelName
            inverseRelationshipName in
        match _map this !! key with
        | None =>
            Ret (Some key,
                 {| _map :=
                      <[key :=
                          RelationshipPayloads.new modelName relationshipName
                            inverseModelName inverseRelationshipName]>
                        (_map this) |})
        | Some _ => Ret (Some key, this)
        end
    end.

(** [get] *)
Definition get (store : Store) (fuel : nat) (this : t)
    (modelName id relationshipName : string) : Res (option Entry * t) :=
  r ←! _getRelationshipPayloads store this modelName relationshipName;
  match r with
  | (Some key, this) =>
      match _map this !! key with
      | Some relationshipPayloads =>
          r ←! RelationshipPayloads.get store fuel relationshipPayloads
                 modelName id relationshipName;
          Ret (r.1, {| _map := <[key := r.2]> (_map this) |})
      | None => Ret (None, this)
      end
  | (None, this) => Ret (None, this)
  end.

(** The loop of [push] over the keys of [relationshipsData]. *)
Fixpoint pushLoop (store : Store) (this : t) (modelName id : string)
    (entries : list (string * Payload)) : Res t :=
  match entries with
  | [] => Ret this
  | (key, value) :: entries =>
      r ←! _getRelationshipPayloads store this modelName key;
      match r with
      | (Some k, this) =>
          pushLoop store
            {| _map :=
                 alter (λ o, RelationshipPayloads.push o modelName id key value)
                   k (_map this) |}
            modelName id entries
      | (None, this) => pushLoop store this modelName id entries
      end
  end.

(** [push] *)
Definition push (store : Store) (this : t) (modelName id : string)
    (relationshipsData : option (list (string * Payload))) : Res t :=
  match relationshipsData with
  | None => Ret this
  | Some entries => pushLoop store this modelName id entries
  end.

(** The [forEach] of [unload] over the declared relationships. *)
Fixpoint unloadLoop (store : Store) (fuel : nat) (this : t)
    (modelName id : string) (rels : list (string * RelationshipMeta)) : Res t :=
  match rels with
  | [] => Ret this
  | (relationshipName, _) :: rels =>
      r ←! _getRelationshipPayloads store this modelName relationshipName;
      match r with
      | (Some k, this) =>
          match _map this !! k with
          | Some relationshipPayloads =>
              o ←! RelationshipPayloads.unload store fuel relationshipPayloads
                     modelName id relationshipName;
              unloadLoop store fuel {| _map := <[k := o]> (_map this) |}
                modelName id rels
          | None => unloadLoop store fuel this modelName id rels
          end
      | (None, this) => unloadLoop store fuel this modelName id rels
      end
  end.

(** [unload] *)
Definition unload (store : Store) (fuel : nat) (this : t)
    (modelName id : string) : Res t :=
  unloadLoop store fuel this modelName id (relationshipsByName store modelName).

End RelationshipsPayloads.

End Part000.

(** ** state/create.js: the consumer of a cache entry *)

Module Create.

(** The two members [Relationships.get] destructures from the entry it is
    handed; [None] is [undefined], the value of a member the object lacks. *)
Class EntryObject (E : Type) := {
  member_payload : E → option Payload;
  member_inverse : E → option bool }.

(** An entry of relationships-payloads.js is the pushed [{ data }] itself. *)
#[global] Instance Payload_EntryObject : EntryObject Payload :=
  {| member_payload := λ _, None; member_inverse := λ _, None |}.

(** An entry of part_000 is [{ payload, inverse }]. *)
#[global] Instance Entry_EntryObject : EntryObject Part000.Entry :=
  {| member_payload := λ e, Some (Part000.payload e);
     member_inverse := λ e, Some (Part000.inverse e) |}.

(** What [get] does with the relationship it has just made. *)
Inductive Ingestion :=
| relationship_push (payload : option Payload)
| relationship_pushFromInverse (payload : option Payload).

(** The tail of [Relationships.get], from
    [if (relationshipPayloadEntry !== undefined)]. *)
Definition ingest {E} `{EntryObject E} (relationshipPayloadEntry : option E)
    : option Ingestion :=
  match relationshipPayloadEntry with
  | None => None
  | Some e =>
      let payload := member_payload e in
      let inverse := member_inverse e in
      match inverse with
      | Some true => Some (relationship_pushFromInverse payload)
      | _ => Some (relationship_push payload)
      end
  end.

End Create.

(** ** state/create.js: [Relationships], over the cache of part_000

    The relationship classes ([ManyRelationship], [BelongsToRelationship])
    are not part of the sources; a relationship object is what create.js
    makes of it: its class, its key, the [inverseKey] it is constructed
    with, and the [push] / [pushFromInverse] calls made on it, in order.
    The test [options && options.inverse === null] on a descriptor is given
    by key, as the descriptors here carry [kind] and [type] only. *)

Module Relationships.

(** [shouldFindInverse]; its argument is
    [options && options.inverse === null]. *)
Definition shouldFindInverse (inverseOptionIsNull : bool) : bool :=
  negb inverseOptionIsNull.

Inductive RelationshipClass := ManyRelationship | BelongsToRelationship.

Record Relationship := {
  relationship_class : RelationshipClass;
  relationship_key : string;
  relationship_inverseKey : option string;
  relationship_calls : list Create.Ingestion }.

(** [createRelationshipFor]; the model class of [internalModel] is named by
    [modelName]. *)
Definition createRelationshipFor (store : Store) (inverseOptionIsNull : bool)
    (modelName key : string) (relationshipMeta : RelationshipMeta)
    : Relationship :=
  let inverse :=
    if shouldFindInverse inverseOptionIsNull
    then inverseFor store modelName key
    else None in
  let inverseKey :=
    match inverse with
    | Some i => Some (inverse_name i)
    | None => None
    end in
  {| relationship_class :=
       if isHasMany relationshipMeta then ManyRelationship
       else BelongsToRelationship;
     relationship_key := key;
     relationship_inverseKey := inverseKey;
     relationship_calls := [] |}.

(** [class Relationships]: [internalModel] by its [modelName] and [id], and
    [initializedRelationships]. *)
Record t := {
  internalModel_modelName : string;
  internalModel_id : string;
  initializedRelationships : gmap string Relationship }.

(** [constructor] *)
Definition new (modelName id : string) : t :=
  {| internalModel_modelName := modelName;
     internalModel_id := id;
     initializedRelationships := ∅ |}.

(** [has] *)
Definition has (this : t) (key : string) : bool :=
  match initializedRelationships this !! key with
  | Some _ => true
  | None => false
  end.

(** The call [get] makes on the relationship for a cache entry. *)
Definition ingestion (relationshipPayloadEntry : Part000.Entry)
    : Create.Ingestion :=
  if negb (Part000.inverse relationshipPayloadEntry)
  then Create.relationship_push (Some (Part000.payload relationshipPayloadEntry))
  else Create.relationship_pushFromInverse
         (Some (Part000.payload relationshipPayloadEntry)).

(** [get]: the relationship returned, the [Relationships] and the payload
    cache [store._relationshipsPayloads] afterwards.  A cache entry for a
    key that has no descriptor would be pushed to [undefined]. *)
Definition get (store : Store) (inverseOptionIsNull : string → bool)
    (fuel : nat) (_relationshipsPayloads : Part000.RelationshipsPayloads.t)
    (this : t) (key : string)
    : Res (option Relationship * t * Part000.RelationshipsPayloads.t) :=
  match initializedRelationships this !! key with
  | Some relationship => Ret (Some relationship, this, _relationshipsPayloads)
  | None =>
      let rel :=
        Map_get (relationshipsByName store (internalModel_modelName this)) key in
      r ←! Part000.RelationshipsPayloads.get store fuel _relationshipsPayloads
             (internalModel_modelName this) (internalModel_id this) key;
      let relationshipPayloadEntry := r.1 in
      match rel with
      | Some relationshipMeta =>
          let created :=
            createRelationshipFor store (inverseOptionIsNull key)
              (internalModel_modelName this) key relationshipMeta in
          let relationship :=
            match relationshipPayloadEntry with
            | Some e =>
                {| relationship_class := relationship_class created;
                   relationship_key := relationship_key created;
                   relationship_inverseKey := relationship_inverseKey created;
                   relationship_calls :=
                     relationship_calls created ++ [ingestion e] |}
            | None => created
            end in
          Ret (Some relationship,
               {| internalModel_modelName := internalModel_modelName this;
                  internalModel_id := internalModel_id this;
                  initializedRelationships :=
                    <[key := relationship]> (initializedRelationships this) |},
               r.2)
      | None =>
          match relationshipPayloadEntry with
          | Some _ => Throw
          | None => Ret (None, this, r.2)
          end
      end
  end.

End Relationships.

(** ** A schema to run the code on

    [user] has many [hobbies] (inverse [user] of [hobby], which belongs to a
    [user]) and has many [friends], a relationship that is its own inverse.
    No record is materialised. *)

Definition exampleStore : Store :=
  {| relationshipsByName := λ modelName,
       if bool_decide (modelName = "user") then
         [("hobbies", {| meta_kind := hasMany; meta_type := "hobby" |});
          ("friends", {| meta_kind := hasMany; meta_type := "user" |})]
       else if bool_decide (modelName = "hobby") then
         [("user", {| meta_kind := belongsTo; meta_type := "user" |})]
       else [];
     inverseFor := λ modelName relationshipName,
       if bool_decide (modelName = "user")
          && bool_decide (relationshipName = "hobbies") then
         Some {| inverse_name := "user"; inverse_type := "hobby" |}
       else if bool_decide (modelName = "hobby")
               && bool_decide (relationshipName = "user") then
         Some {| inverse_name := "hobbies"; inverse_type := "user" |}
       else if bool_decide (modelName = "user")
               && bool_decide (relationshipName = "friends") then
         Some {| inverse_name := "friends"; inverse_type := "user" |}
       else None;
     store_hasRecordForId := λ _ _, false |}.

(** The same schema with the record [user/1] materialised. *)
Definition exampleStoreWithUser1 : Store :=
  {| relationshipsByName := relationshipsByName exampleStore;
     inverseFor := inverseFor exampleStore;
     store_hasRecordForId := λ type id,
       bool_decide (type = "user") && bool_decide (id = "1") |}.

Definition user (id : string) : Reference := {| ref_id := id; ref_type := "user" |}.
Definition hobby (id : string) : Reference := {| ref_id := id; ref_type := "hobby" |}.

(** The ledger of [user.hobbies] / [hobby.user] in either variant. *)
Definition hobbiesLedger : Payloads.RelationshipPayloads.t :=
  Payloads.RelationshipPayloads.new "user" "hobbies"
    (Some {| meta_kind := hasMany; meta_type := "hobby" |})
    "hobby" "user"
    (Some {| meta_kind := belongsTo; meta_type := "user" |}).

Definition hobbiesLedger000 : Part000.RelationshipPayloads.t :=
  Part000.RelationshipPayloads.new "user" "hobbies" "hobby" "user".

(** The ledger of the reflexive [user.friends]. *)
Definition friendsLedger : Payloads.RelationshipPayloads.t :=
  Payloads.RelationshipPayloads.new "user" "friends"
    (Some {| meta_kind := hasMany; meta_type := "user" |})
    "user" "friends"
    (Some {| meta_kind := hasMany; meta_type := "user" |}).

Definition friendsLedger000 : Part000.RelationshipPayloads.t :=
  Part000.RelationshipPayloads.new "user" "friends" "user" "friends".

(** The registry after
    [push('user', 1, { hobbies: { data: [{ id: 2, type: 'hobby' }] } })] and
    [push('hobby', 2, { user: { data: null } })]. *)
Definition workedExample : Payloads.RelationshipsPayloads.t :=
  Payloads.RelationshipsPayloads.push exampleStore
    (Payloads.RelationshipsPayloads.push exampleStore
       Payloads.RelationshipsPayloads.new "user" "1"
       (Some [("hobbies", {| data := DataMany [hobby "2"] |})]))
    "hobby" "2" (Some [("user", {| data := DataNull |})]).

Definition workedExample000 : Res Part000.RelationshipsPayloads.t :=
  registry ←! Part000.RelationshipsPayloads.push exampleStore
                Part000.RelationshipsPayloads.new "user" "1"
                (Some [("hobbies", {| data := DataMany [hobby "2"] |})]);
  Part000.RelationshipsPayloads.push exampleStore registry "hobby" "2"
    (Some [("user", {| data := DataNull |})]).

(** What [get('user', 1, 'hobbies')] returns in part_000 after the two
    pushes, within [fuel] loop iterations. *)
Definition workedExampleEntry000 (fuel : nat) : Res (option Part000.Entry) :=
  registry ←! workedExample000;
  r ←! Part000.RelationshipsPayloads.get exampleStore fuel registry "user" "1"
         "hobbies";
  Ret r.1.

(** ** Vocabulary of the statements *)

(** No entry at [k], or one whose data holds no reference to [id]. *)
Definition unlisted (m : gmap string Payload) (k id : string) : Prop :=
  ∀ e, m !! k = Some e → ¬ lists (data e) id.

(** An entry at [k] whose data holds the reference [r]. *)
Definition holds (m : gmap string Payload) (k : string) (r : Reference) : Prop :=
  ∃ e, m !! k = Some e ∧ r ∈ references (data e).

(** The cardinality flag a flushed push of relationships-payloads.js hands
    to [_populateInverse]: that of the side it does not address. *)
Definition inverseIsManyFor (this : Payloads.RelationshipPayloads.t) (w : Work)
    : bool :=
  if Payloads.RelationshipPayloads.isLhs this (work_modelName w)
       (work_relationshipName w)
  then Payloads.RelationshipPayloads._rhsRelationshipIsMany this
  else Payloads.RelationshipPayloads._lhsRelationshipIsMany this.

(** The back-reference [{ id, type: modelName }] a flushed push adds on the
    other side. *)
Definition backReference (w : Work) : Reference :=
  {| ref_id := work_id w; ref_type := work_modelName w |}.

(** The symmetry C2 states of a flushed ledger of relationships-payloads.js:
    the rhs entry at [X] lists [Y] exactly when the lhs entry at [Y] lists
    [X]. *)
Definition symmetric (this : Payloads.RelationshipPayloads.t) : Prop :=
  ∀ X Y,
    (∃ e, Payloads.RelationshipPayloads.payloads Rhs this !! X = Some e
          ∧ lists (data e) Y)
    ↔ (∃ e, Payloads.RelationshipPayloads.payloads Lhs this !! Y = Some e
            ∧ lists (data e) X).

(** Two users pushed with the same hobby, then a read. *)
Definition twoOwners : Payloads.RelationshipPayloads.t :=
  (Payloads.RelationshipPayloads.get
     (Payloads.RelationshipPayloads.push
        (Payloads.RelationshipPayloads.push hobbiesLedger "user" "1" "hobbies"
           {| data := DataMany [hobby "2"] |})
        "user" "3" "hobbies" {| data := DataMany [hobby "2"] |})
     "hobby" "2" "user").2.

(** No entry at [k] of a table of part_000, or one whose data holds no
    reference to [id]. *)
Definition unlisted000 (m : gmap string Part000.Entry) (k id : string) : Prop :=
  ∀ e, m !! k = Some e → ¬ lists (data (Part000.payload e)) id.

(** The cardinality getter a flushed push of part_000 evaluates: that of the
    side it does not address. *)
Definition inverseIsManyFor000 (store : Store)
    (this : Part000.RelationshipPayloads.t) (w : Work) : Res bool :=
  if Part000.RelationshipPayloads.isLhs this (work_modelName w)
       (work_relationshipName w)
  then Part000.RelationshipPayloads._rhsRelationshipIsMany store this
  else Part000.RelationshipPayloads._lhsRelationshipIsMany store this.

(** The ledger a flushed push of part_000 leaves when its loop comes to an
    end: the strike, the own entry, then one add per reference pushed. *)
Definition flushedOne000 (this : Part000.RelationshipPayloads.t) (w : Work)
    (inverseIsMany : bool) : Part000.RelationshipPayloads.t :=
  let own :=
    Part000.RelationshipPayloads.ownSide this (work_modelName w)
      (work_relationshipName w) in
  let inv :=
    Part000.RelationshipPayloads.otherSide this (work_modelName w)
      (work_relationshipName w) in
  Part000.RelationshipPayloads.update inv
    (λ m, fold_left
            (λ m r, Part000.RelationshipPayloads._addToInverse (backReference w)
                      (ref_id r) m inverseIsMany)
            (references (data (work_relationshipData w))) m)
    (Part000.RelationshipPayloads.update own
       <[work_id w := {| Part000.payload := work_relationshipData w;
                         Part000.inverse := false |}]>
       (Part000.RelationshipPayloads.update inv
          (Part000.RelationshipPayloads._removeInverse (work_id w)
             (Part000.RelationshipPayloads.payloads own this !! work_id w))
          this)).

(** Two ledgers of part_000 that differ in their tables at most. *)
Definition sameNames (a b : Part000.RelationshipPayloads.t) : Prop :=
  Part000.RelationshipPayloads._lhsModelName a
  = Part000.RelationshipPayloads._lhsModelName b
  ∧ Part000.RelationshipPayloads._lhsRelationshipName a
    = Part000.RelationshipPayloads._lhsRelationshipName b
  ∧ Part000.RelationshipPayloads._rhsModelName a
    = Part000.RelationshipPayloads._rhsModelName b
  ∧ Part000.RelationshipPayloads._rhsRelationshipName a
    = Part000.RelationshipPayloads._rhsRelationshipName b
  ∧ Part000.RelationshipPayloads.rhsIsLhs a
    = Part000.RelationshipPayloads.rhsIsLhs b
  ∧ Part000.RelationshipPayloads._pendingPayloads a
    = Part000.RelationshipPayloads._pendingPayloads b.

(** An entry at [k] whose data is an array that holds the reference [r]. *)
Definition holdsMany (m : gmap string Payload) (k : string) (r : Reference)
    : Prop :=
  ∃ rs, m !! k = Some {| data := DataMany rs |} ∧ r ∈ rs.

(** No entry at [k], or one whose data is not an array. *)
Definition notArray (m : gmap string Payload) (k : string) : Prop :=
  ∀ e rs, m !! k = Some e → data e ≠ DataMany rs.

(** The tuple [[modelName, id, relationshipName, relationshipData]]. *)
Definition workOf (modelName id relationshipName : string)
    (relationshipData : Payload) : Work :=
  {| work_modelName := modelName; work_id := id;
     work_relationshipName := relationshipName;
     work_relationshipData := relationshipData |}.

(** Every ledger object that [_cache] of relationships-payloads.js refers to
    exists. *)
Definition linked (this : Payloads.RelationshipsPayloads.t) : Prop :=
  ∀ key p,
    Payloads.RelationshipsPayloads._cache this !! key = Some p →
    p < length (Payloads.RelationshipsPayloads.objects this).

(** ** Ids as property keys

    [_lhsPayloads] and [_rhsPayloads] of relationships-payloads.js are plain
    objects ([{}]): a read [payloads[id]] that finds no own property goes on
    to [Object.prototype], and an assignment to [payloads['__proto__']]
    replaces the prototype instead of storing a property, which [delete]
    does not undo.  A [gmap] holds the own properties.  The two agree as
    long as no id is the name of a member of [Object.prototype]; a statement
    whose truth in the code rests on that says so with the predicates
    below. *)

(** The property names a plain object inherits. *)
Definition objectPrototypeMembers : list string :=
  ["__proto__"; "constructor"; "hasOwnProperty"; "isPrototypeOf";
   "propertyIsEnumerable"; "toLocaleString"; "toString"; "valueOf";
   "__defineGetter__"; "__defineSetter__"; "__lookupGetter__";
   "__lookupSetter__"].

(** [id] names no inherited member: [payloads[id]] is the own property or
    [undefined]. *)
Definition plainId (id : string) : bool :=
  bool_decide (id ∉ objectPrototypeMembers).

(** The id of a fragment and the ids it refers to are plain. *)
Definition plainFragment (id : string) (relationshipData : Payload) : bool :=
  plainId id
  && forallb (λ r, plainId (ref_id r)) (references (data relationshipData)).

(** A ledger of relationships-payloads.js whose tables are keyed by plain
    ids and whose queue holds plain fragments only: the flush assigns to no
    inherited name. *)
Definition plainLedger (this : Payloads.RelationshipPayloads.t) : bool :=
  bool_decide
    (map_Forall (λ k _, plainId k = true)
       (Payloads.RelationshipPayloads._lhsPayloads this))
  && bool_decide
       (map_Forall (λ k _, plainId k = true)
          (Payloads.RelationshipPayloads._rhsPayloads this))
  && forallb (λ w, plainFragment (work_id w) (work_relationshipData w))
       (Payloads.RelationshipPayloads._pendingPayloads this).

(** ** Vocabulary of the strike and of the symmetry of the two sides *)

(** The strike of [id] from an entry, in the words of the specification:
    filtered out of a list, a single reference nulled out. *)
Definition strike (id : string) (p : Payload) : Payload :=
  match data p with
  | DataNull => p
  | DataOne _ => {| data := DataNull |}
  | DataMany xs => {| data := DataMany (filter (λ x, ref_id x ≠ id) xs) |}
  end.

(** [entry] holds a reference whose id is [k]. *)
Definition names (entry : option Payload) (k : string) : Prop :=
  ∃ e r, entry = Some e ∧ r ∈ references (data e) ∧ ref_id r = k.

(** The entry of [m] at [k] lists [id]. *)
Definition listsAt (m : gmap string Payload) (k id : string) : Prop :=
  ∃ e, m !! k = Some e ∧ lists (data e) id.

(** The other table. *)
Definition opposite (s : Side) : Side :=
  match s with Lhs => Rhs | Rhs => Lhs end.

(** The cardinality of the relationship a side of a ledger of
    relationships-payloads.js stands for. *)
Definition toMany (s : Side) (this : Payloads.RelationshipPayloads.t) : bool :=
  match s with
  | Lhs => Payloads.RelationshipPayloads._lhsRelationshipIsMany this
  | Rhs => Payloads.RelationshipPayloads._rhsRelationshipIsMany this
  end.

(** The ledgers of relationships-payloads.js that the three methods make
    out of a new one, when every fragment pushed has plain ids and the
    fragment pushed for a to-many relationship is a list. *)
Inductive reachable (store : Store) : Payloads.RelationshipPayloads.t → Prop :=
| reachable_new modelName relationshipName relationshipMeta inverseModelName
    inverseRelationshipName inverseRelationshipMeta :
    reachable store
      (Payloads.RelationshipPayloads.new modelName relationshipName
         relationshipMeta inverseModelName inverseRelationshipName
         inverseRelationshipMeta)
| reachable_push this modelName id relationshipName relationshipData :
    reachable store this →
    plainFragment id relationshipData = true →
    (toMany
       (Payloads.RelationshipPayloads.ownSide this modelName relationshipName)
       this = true →
     ∃ rs, data relationshipData = DataMany rs) →
    reachable store
      (Payloads.RelationshipPayloads.push this modelName id relationshipName
         relationshipData)
| reachable_get this modelName id relationshipName :
    reachable store this →
    reachable store
      (Payloads.RelationshipPayloads.get this modelName id relationshipName).2
| reachable_unload this modelName id relationshipName :
    reachable store this →
    reachable store
      (Payloads.RelationshipPayloads.unload store this modelName id
         relationshipName).

(** Every entry of a table holds a list. *)
Definition onlyLists (m : gmap string Payload) : Prop :=
  ∀ k e, m !! k = Some e → ∃ xs, data e = DataMany xs.

(** Whatever an entry of [T] lists has an entry in [S] that lists it
    back. *)
Definition inStep (T S : gmap string Payload) : Prop :=
  ∀ X Y, listsAt T Y X → listsAt S X Y.

(** The table of side [s] holds lists only and lists back whatever the other
    side lists. *)
Definition keptInStep (s : Side) (this : Payloads.RelationshipPayloads.t)
    : Prop :=
  onlyLists (Payloads.RelationshipPayloads.payloads s this)
  ∧ inStep (Payloads.RelationshipPayloads.payloads (opposite s) this)
      (Payloads.RelationshipPayloads.payloads s this).

(** * Properties *)

#[global] Arguments Payloads.RelationshipPayloads.update : simpl never.
#[global] Arguments Payloads.RelationshipPayloads.payloads : simpl never.
#[global] Arguments Part000.RelationshipPayloads.update : simpl never.
#[global] Arguments Part000.RelationshipPayloads.payloads : simpl never.

(** ** Tables and sides *)

Section PayloadsTables.
Import Payloads.RelationshipPayloads.

Lemma set_lhsPayloads_id this : set_lhsPayloads (_lhsPayloads this) this = this.
Proof. by destruct this. Qed.

Lemma set_rhsPayloads_id this : set_rhsPayloads (_rhsPayloads this) this = this.
Proof. by destruct this. Qed.

Lemma set_pendingPayloads_id this :
  set_pendingPayloads (_pendingPayloads this) this = this.
Proof. by destruct this. Qed.

Lemma update_id s f this :
  f (payloads s this) = payloads s this → update s f this = this.
Proof.
  destruct s; unfold update, payloads.
  - intros ->. apply set_lhsPayloads_id.
  - destruct (_isReflexive this); intros ->;
      [apply set_lhsPayloads_id | apply set_rhsPayloads_id].
Qed.

Lemma _flushPending_nil this : _pendingPayloads this = [] → _flushPending this = this.
Proof. unfold _flushPending. by intros ->. Qed.

Lemma _unload_absent store id own inv this :
  payloads own this !! id = None → _unload store id own inv this = this.
Proof.
  unfold _unload. intros H. rewrite H. cbn [_inverseLoaded negb].
  rewrite (update_id inv) by done. by apply update_id, delete_id.
Qed.
End PayloadsTables.

Section Part000Tables.
Import Part000.RelationshipPayloads.

Lemma set_lhsPayloads000_id this : set_lhsPayloads (_lhsPayloads this) this = this.
Proof. by destruct this. Qed.

Lemma set_rhsPayloads000_id this : set_rhsPayloads (_rhsPayloads this) this = this.
Proof. by destruct this. Qed.

Lemma set_pendingPayloads000_id this :
  set_pendingPayloads (_pendingPayloads this) this = this.
Proof. by destruct this. Qed.

Lemma update000_id s f this :
  f (payloads s this) = payloads s this → update s f this = this.
Proof.
  destruct s; unfold update, payloads.
  - intros ->. apply set_lhsPayloads000_id.
  - destruct (rhsIsLhs this); intros ->;
      [apply set_lhsPayloads000_id | apply set_rhsPayloads000_id].
Qed.

Lemma _flushPending000_nil store fuel this :
  _pendingPayloads this = [] → _flushPending store fuel this = Ret this.
Proof.
  unfold _flushPending. intros E. rewrite E. simpl.
  by rewrite <- E, set_pendingPayloads000_id.
Qed.

Lemma _unload000_absent store id own inv this :
  payloads own this !! id = None → _unload store id own inv this = this.
Proof.
  unfold _unload. intros H. rewrite H. cbn [_inverseLoaded negb].
  rewrite (update000_id inv) by done. by apply update000_id, delete_id.
Qed.
End Part000Tables.

(** ** Pushing only enqueues *)

(** C8.  In both variants, [push] on a ledger appends the tuple to the
    pending queue and leaves every entry of both payload tables as it was:
    the two table objects are unchanged, and so is what either side
    denotes. *)
Theorem push_only_appends_to_the_queue :
  (∀ this modelName id relationshipName relationshipData,
     let this' :=
       Payloads.RelationshipPayloads.push this modelName id relationshipName
         relationshipData in
     Payloads.RelationshipPayloads._pendingPayloads this'
     = Payloads.RelationshipPayloads._pendingPayloads this
       ++ [{| work_modelName := modelName; work_id := id;
              work_relationshipName := relationshipName;
              work_relationshipData := relationshipData |}]
     ∧ Payloads.RelationshipPayloads._lhsPayloads this'
       = Payloads.RelationshipPayloads._lhsPayloads this
     ∧ Payloads.RelationshipPayloads._rhsPayloads this'
       = Payloads.RelationshipPayloads._rhsPayloads this
     ∧ ∀ side, Payloads.RelationshipPayloads.payloads side this'
               = Payloads.RelationshipPayloads.payloads side this)
  ∧ (∀ this modelName id relationshipName relationshipData,
       let this' :=
         Part000.RelationshipPayloads.push this modelName id relationshipName
           relationshipData in
       Part000.RelationshipPayloads._pendingPayloads this'
       = Part000.RelationshipPayloads._pendingPayloads this
         ++ [{| work_modelName := modelName; work_id := id;
                work_relationshipName := relationshipName;
                work_relationshipData := relationshipData |}]
       ∧ Part000.RelationshipPayloads._lhsPayloads this'
         = Part000.RelationshipPayloads._lhsPayloads this
       ∧ Part000.RelationshipPayloads._rhsPayloads this'
         = Part000.RelationshipPayloads._rhsPayloads this
       ∧ ∀ side, Part000.RelationshipPayloads.payloads side this'
                 = Part000.RelationshipPayloads.payloads side this).
Proof.
  split; intros this modelName id relationshipName relationshipData this';
    subst this'; repeat split; by intros [].
Qed.

(** ** Unloading an id that has no entry *)

(** C10.  In both variants, on a ledger whose pending queue is empty,
    [unload] of an id that has no entry on the side addressed returns
    without a change to the ledger: the missing entry counts as not loaded
    on the inverse side, the strike pass over it does nothing, and the
    [delete] of the absent key leaves both tables as they were.  The
    part_000 code returns for any bound on its loops. *)
Theorem unload_of_an_absent_id_changes_nothing :
  (∀ store this modelName id relationshipName,
     Payloads.RelationshipPayloads._pendingPayloads this = [] →
     Payloads.RelationshipPayloads.payloads
       (Payloads.RelationshipPayloads.ownSide this modelName relationshipName)
       this !! id = None →
     Payloads.RelationshipPayloads._inverseLoaded store None = false
     ∧ (∀ m, Payloads.RelationshipPayloads._removeInverse id None m = m)
     ∧ Payloads.RelationshipPayloads.unload store this modelName id
         relationshipName = this)
  ∧ (∀ store fuel this modelName id relationshipName,
       Part000.RelationshipPayloads._pendingPayloads this = [] →
       Part000.RelationshipPayloads.payloads
         (Part000.RelationshipPayloads.ownSide this modelName relationshipName)
         this !! id = None →
       Part000.RelationshipPayloads._inverseLoaded store None = false
       ∧ (∀ m, Part000.RelationshipPayloads._removeInverse id None m = m)
       ∧ Part000.RelationshipPayloads.unload store fuel this modelName id
           relationshipName = Ret this).
Proof.
  split.
  - intros store this modelName id relationshipName Hq Hid.
    split; [done | split; [done |]].
    unfold Payloads.RelationshipPayloads.unload,
      Payloads.RelationshipPayloads.ownSide in *.
    rewrite (_flushPending_nil _ Hq).
    destruct (Payloads.RelationshipPayloads.isLhs this modelName relationshipName);
      by apply _unload_absent.
  - intros store fuel this modelName id relationshipName Hq Hid.
    split; [done | split; [done |]].
    unfold Part000.RelationshipPayloads.unload,
      Part000.RelationshipPayloads.ownSide in *.
    rewrite (_flushPending000_nil _ _ _ Hq). simpl.
    destruct (Part000.RelationshipPayloads.isLhs this modelName relationshipName);
      f_equal; by apply _unload000_absent.
Qed.

Lemma unload_of_an_absent_id_changes_nothing_witness :
  Payloads.RelationshipPayloads.unload exampleStore hobbiesLedger "user" "1"
    "hobbies" = hobbiesLedger
  ∧ Part000.RelationshipPayloads.unload exampleStore 0 hobbiesLedger000 "user"
      "1" "hobbies" = Ret hobbiesLedger000.
Proof.
  split.
  - apply (proj1 unload_of_an_absent_id_changes_nothing exampleStore
             hobbiesLedger "user" "1" "hobbies"); reflexivity.
  - apply (proj2 unload_of_an_absent_id_changes_nothing exampleStore 0
             hobbiesLedger000 "user" "1" "hobbies"); reflexivity.
Defined.

(** ** Keys the schema does not declare *)

Section UnknownRelationship.
Variable store : Store.
Variables modelName key : string.
Hypothesis undeclared : Map_has (relationshipsByName store modelName) key = false.

Lemma Payloads_resolve_undeclared this init :
  Payloads.RelationshipsPayloads._getRelationshipPayloads store this modelName
    key init = (None, this).
Proof.
  unfold Payloads.RelationshipsPayloads._getRelationshipPayloads.
  by rewrite undeclared.
Qed.

Lemma Part000_resolve_undeclared this :
  Part000.RelationshipsPayloads._getRelationshipPayloads store this modelName
    key = Ret (None, this).
Proof.
  unfold Part000.RelationshipsPayloads._getRelationshipPayloads.
  by rewrite undeclared.
Qed.

Lemma Part000_pushLoop_undeclared id value before after : ∀ this,
  Part000.RelationshipsPayloads.pushLoop store this modelName id
    (before ++ (key, value) :: after)
  = Part000.RelationshipsPayloads.pushLoop store this modelName id
      (before ++ after).
Proof.
  induction before as [|[k v] before IH]; intros this; simpl.
  - by rewrite Part000_resolve_undeclared.
  - destruct (Part000.RelationshipsPayloads._getRelationshipPayloads store
                this modelName k) as [[[k'|] this']| |]; simpl; auto.
Qed.
End UnknownRelationship.

(** C9.  In both variants of the registry: a key of the pushed fragments
    that is not a relationship declared on the pushed model is dropped, so
    the push leaves the registry exactly as the same push without that key
    does (and a push of that key alone leaves the registry as it was); the
    code is total there, nothing is thrown.  A [get] for an undeclared
    relationship name returns nothing and changes nothing. *)
Theorem undeclared_relationship_is_dropped :
  ∀ store modelName key,
    Map_has (relationshipsByName store modelName) key = false →
    (∀ this id value before after,
       Payloads.RelationshipsPayloads.push store this modelName id
         (Some (before ++ (key, value) :: after))
       = Payloads.RelationshipsPayloads.push store this modelName id
           (Some (before ++ after)))
    ∧ (∀ this id value,
         Payloads.RelationshipsPayloads.push store this modelName id
           (Some [(key, value)]) = this)
    ∧ (∀ this id,
         Payloads.RelationshipsPayloads.get store this modelName id key
         = (None, this))
    ∧ (∀ this id value before after,
         Part000.RelationshipsPayloads.push store this modelName id
           (Some (before ++ (key, value) :: after))
         = Part000.RelationshipsPayloads.push store this modelName id
             (Some (before ++ after)))
    ∧ (∀ this id value,
         Part000.RelationshipsPayloads.push store this modelName id
           (Some [(key, value)]) = Ret this)
    ∧ (∀ fuel this id,
         Part000.RelationshipsPayloads.get store fuel this modelName id key
         = Ret (None, this)).
Proof.
  intros store modelName key undeclared. repeat split.
  - intros this id value before after.
    unfold Payloads.RelationshipsPayloads.push.
    rewrite !fold_left_app. simpl.
    by rewrite Payloads_resolve_undeclared.
  - intros this id value. simpl. by rewrite Payloads_resolve_undeclared.
  - intros this id. unfold Payloads.RelationshipsPayloads.get.
    by rewrite Payloads_resolve_undeclared.
  - intros this id value before after. simpl.
    by apply Part000_pushLoop_undeclared.
  - intros this id value. simpl. by rewrite Part000_resolve_undeclared.
  - intros fuel this id. unfold Part000.RelationshipsPayloads.get.
    by rewrite Part000_resolve_undeclared.
Qed.

Lemma undeclared_relationship_is_dropped_witness :
  Payloads.RelationshipsPayloads.push exampleStore
    Payloads.RelationshipsPayloads.new "user" "1"
    (Some [("pets", {| data := DataMany [hobby "2"] |})])
  = Payloads.RelationshipsPayloads.new
  ∧ Payloads.RelationshipsPayloads.get exampleStore
      Payloads.RelationshipsPayloads.new "user" "1" "pets"
    = (None, Payloads.RelationshipsPayloads.new).
Proof.
  assert (U : Map_has (relationshipsByName exampleStore "user") "pets" = false)
    by reflexivity.
  destruct (undeclared_relationship_is_dropped exampleStore "user" "pets" U)
    as (_ & Hpush & Hget & _).
  split; [apply Hpush | apply Hget].
Defined.

(** ** Whether a lookup creates a ledger *)

Section PayloadsLookup.
Import Payloads.RelationshipsPayloads.
Variable store : Store.

(** relationships-payloads.js: resolving with [init = false] hands back the
    registry untouched. *)
Lemma Payloads_resolve_without_init this modelName relationshipName :
  (_getRelationshipPayloads store this modelName relationshipName false).2
  = this.
Proof.
  unfold _getRelationshipPayloads.
  destruct (negb _); [done |].
  by destruct (_cache this !! _).
Qed.

(** relationships-payloads.js: [get] adds no key to [_cache] and no ledger
    object, whatever the registry holds. *)
Lemma Payloads_get_creates_nothing this modelName id relationshipName :
  let this' := (get store this modelName id relationshipName).2 in
  _cache this' = _cache this ∧ length (objects this') = length (objects this).
Proof.
  unfold get.
  pose proof (Payloads_resolve_without_init this modelName relationshipName) as E.
  destruct (_getRelationshipPayloads store this modelName relationshipName
              false) as [[p|] this0]; simpl in E; subst this0; [|done].
  destruct (objects this !! p) as [o|]; [|done].
  destruct (Payloads.RelationshipPayloads.get o modelName id relationshipName)
    as [entry o']; simpl.
  split; [done | apply length_alter].
Qed.

(** relationships-payloads.js: with nothing filed under the key, [get]
    returns nothing and the registry is as before. *)
Lemma Payloads_get_unfiled this modelName id relationshipName :
  _cache this !! keyOf modelName relationshipName = None →
  get store this modelName id relationshipName = (None, this).
Proof.
  intros E. unfold get, _getRelationshipPayloads.
  destruct (negb _); [done |]. by rewrite E.
Qed.
End PayloadsLookup.

(** C7, on part_000.  [get] on a fresh registry, for the declared
    relationship [user.hobbies] that nothing was pushed for, returns nothing
    but leaves a new ledger filed under the pair's key: the lookup of
    part_000 creates on a miss, for [get] as for [push]. *)
Theorem part000_get_creates_a_ledger :
  ∀ fuel,
    Part000.RelationshipsPayloads._map Part000.RelationshipsPayloads.new = ∅
    ∧ Part000.RelationshipsPayloads.get exampleStore fuel
        Part000.RelationshipsPayloads.new "user" "1" "hobbies"
      = Ret (None,
             {| Part000.RelationshipsPayloads._map :=
                  {[ "hobby:user:user:hobbies" := hobbiesLedger000 ]} |}).
Proof. intros fuel. split; [done |]. by vm_compute. Qed.

(** ** The provenance flag *)

(** C1, on relationships-payloads.js.  After
    [push('user', 1, { hobbies: { data: [{ id: 2, type: 'hobby' }] } })],
    [get('hobby', 2, 'user')] returns the bare [{ data: { id: 1, type:
    'user' } }]: the entry has no [inverse] member (nor a [payload] member),
    so the consumer in create.js reads both as [undefined] and takes the
    full-push path with no payload.  The same calls on part_000 return the
    payload with [inverse: true], which the consumer ingests from the
    inverse. *)
Theorem payloads_get_returns_an_entry_without_flag :
  let registry :=
    Payloads.RelationshipsPayloads.push exampleStore
      Payloads.RelationshipsPayloads.new "user" "1"
      (Some [("hobbies", {| data := DataMany [hobby "2"] |})]) in
  let entry :=
    (Payloads.RelationshipsPayloads.get exampleStore registry "hobby" "2"
       "user").1 in
  entry = Some {| data := DataOne (user "1") |}
  ∧ Create.member_inverse <$> entry = Some None
  ∧ Create.member_payload <$> entry = Some None
  ∧ Create.ingest entry = Some (Create.relationship_push None)
  ∧ ∀ fuel,
      (registry000 ←! Part000.RelationshipsPayloads.push exampleStore
                        Part000.RelationshipsPayloads.new "user" "1"
                        (Some [("hobbies", {| data := DataMany [hobby "2"] |})]);
       r ←! Part000.RelationshipsPayloads.get exampleStore (S (S fuel))
              registry000 "hobby" "2" "user";
       Ret (r.1, Create.ingest r.1))
      = Ret (Some (Part000.RelationshipPayloads.inverseEntryOf (user "1")),
             Some (Create.relationship_pushFromInverse
                     (Some {| data := DataOne (user "1") |}))).
Proof. intros registry entry. split_and!; try intros fuel; by vm_compute. Qed.

(** part_000: every stored entry is a [{ payload, inverse }]; the consumer
    always finds both members. *)
Lemma part000_entry_carries_flag (e : Part000.Entry) :
  Create.member_payload e = Some (Part000.payload e)
  ∧ Create.member_inverse e = Some (Part000.inverse e).
Proof. done. Qed.

(** ** The worked example *)

(** C3 as stated fails: in part_000 the entry returned for
    [get('user', 1, 'hobbies')] never has its flag [true], whatever bound
    the loops are given. *)
Lemma worked_example_flag_is_not_true :
  ¬ ∃ fuel e,
      workedExampleEntry000 fuel = Ret (Some e)
      ∧ data (Part000.payload e) = DataMany []
      ∧ Part000.inverse e = true.
Proof.
  intros (fuel & e & Hget & _ & Hflag).
  destruct fuel as [|[|fuel]]; vm_compute in Hget; [done | done |].
  injection Hget as <-. by vm_compute in Hflag.
Qed.

(** C3, amended.  After the two pushes of the worked example,
    [get('user', 1, 'hobbies')] returns an entry whose data is the empty
    list; in part_000 its flag is [false]: the list pushed for [user/1] is
    filtered in place and the entry keeps the provenance of a direct push.
    (In relationships-payloads.js the entry is the bare [{ data: [] }].) *)
Theorem worked_example_returns_the_empty_list_pushed_directly :
  (∀ fuel,
     workedExampleEntry000 (S (S fuel))
     = Ret (Some {| Part000.payload := {| data := DataMany [] |};
                    Part000.inverse := false |}))
  ∧ (Payloads.RelationshipsPayloads.get exampleStore workedExample "user" "1"
       "hobbies").1
    = Some {| data := DataMany [] |}.
Proof. split; [intros fuel |]; by vm_compute. Qed.

(** ** A reference to the pushed id, on a reflexive ledger *)

Section Part000SelfReference.
Import Part000 Part000.RelationshipPayloads.

Lemma payloads000_reflexive s this :
  rhsIsLhs this = true → payloads s this = _lhsPayloads this.
Proof. intros E. destruct s; unfold payloads; by rewrite ?E. Qed.

Lemma update000_reflexive s f this :
  rhsIsLhs this = true →
  update s f this = set_lhsPayloads (f (_lhsPayloads this)) this.
Proof. intros E. destruct s; unfold update; by rewrite ?E. Qed.

Lemma rhsIsLhs_update s f this : rhsIsLhs (update s f this) = rhsIsLhs this.
Proof. destruct s; unfold update; by destruct (rhsIsLhs this) eqn:E. Qed.

Lemma _lhsRelationshipIsMany_update store s f this :
  _lhsRelationshipIsMany store (update s f this)
  = _lhsRelationshipIsMany store this.
Proof. destruct s; unfold update; by destruct (rhsIsLhs this) eqn:E. Qed.

Lemma _rhsRelationshipIsMany_update store s f this :
  _rhsRelationshipIsMany store (update s f this)
  = _rhsRelationshipIsMany store this.
Proof. destruct s; unfold update; by destruct (rhsIsLhs this) eqn:E. Qed.

(** [_addToInverse] writes the slot [inverseId] and no other. *)
Lemma _addToInverse000_other inverseEntry inverseId m inverseIsMany k :
  k ≠ inverseId →
  _addToInverse inverseEntry inverseId m inverseIsMany !! k = m !! k.
Proof.
  intros Hk. unfold _addToInverse.
  destruct (m !! inverseId) as [[[[]] ?]|]; try destruct inverseIsMany;
    by rewrite lookup_insert_ne.
Qed.

(** On an array, [_addToInverse] appends in place. *)
Lemma _addToInverse000_array inverseEntry inverseId m inverseIsMany rs b :
  m !! inverseId = Some {| payload := {| data := DataMany rs |}; inverse := b |} →
  _addToInverse inverseEntry inverseId m inverseIsMany !! inverseId
  = Some {| payload := {| data := DataMany (rs ++ [inverseEntry]) |};
            inverse := b |}.
Proof. intros E. unfold _addToInverse. rewrite E. by rewrite lookup_insert_eq. Qed.

(** The loop of [_populateInverse] on a reflexive ledger, walking an array
    that holds, at or after the loop index, a reference to the pushed id:
    no number of iterations brings it to its end, since each visit of
    such a reference appends another one to the array being walked. *)
Lemma populateLoop_self_reference fuel own inv id inverseEntry inverseIsMany :
  ref_id inverseEntry = id →
  ∀ i this,
    rhsIsLhs this = true →
    (∃ rs b j r,
        _lhsPayloads this !! id
        = Some {| payload := {| data := DataMany rs |}; inverse := b |}
        ∧ i ≤ j ∧ rs !! j = Some r ∧ ref_id r = id) →
    populateLoop fuel own id inverseEntry inv inverseIsMany i this = OutOfFuel.
Proof.
  intros Hinv. induction fuel as [|fuel IH]; [done |].
  intros i this Hre (rs & b & j & r & Hown & Hij & Hj & Hr). simpl.
  unfold dataAt. rewrite payloads000_reflexive, Hown by done. simpl.
  destruct (rs !! i) as [r'|] eqn:Hi.
  2:{ apply lookup_ge_None in Hi. apply lookup_lt_Some in Hj. lia. }
  apply IH; rewrite update000_reflexive by done; [done |]. simpl.
  destruct (decide (ref_id r' = id)) as [E|NE].
  - rewrite E. exists (rs ++ [inverseEntry]), b, (length rs), inverseEntry.
    split; [by apply _addToInverse000_array |].
    apply lookup_lt_Some in Hi.
    split; [lia |]. split; [|done].
    rewrite lookup_app_r by lia. by rewrite Nat.sub_diag.
  - exists rs, b, j, r. rewrite _addToInverse000_other by done.
    split; [done |]. split; [|done].
    destruct (decide (i = j)) as [->|]; [|lia]. congruence.
Qed.

(** part_000: on a reflexive ledger, the flush of a push whose array lists
    the pushed id does not return: once the cardinality getter has
    answered, the loop of [_populateInverse] exhausts every bound. *)
Lemma flushOne_self_reference store fuel this w rs :
  rhsIsLhs this = true →
  data (work_relationshipData w) = DataMany rs →
  lists (DataMany rs) (work_id w) →
  (∀ this', flushOne store fuel this w ≠ Ret this')
  ∧ (∀ lhsIsMany rhsIsMany,
       _lhsRelationshipIsMany store this = Ret lhsIsMany →
       _rhsRelationshipIsMany store this = Ret rhsIsMany →
       flushOne store fuel this w = OutOfFuel).
Proof.
  intros Hre Hdata (r & Hr & Hid). simpl in Hr.
  apply list_elem_of_lookup in Hr as [j Hj].
  assert (Hloop : ∀ own inv inverseIsMany this0,
    rhsIsLhs this0 = true →
    _populateInverse fuel own (work_id w)
      {| ref_id := work_id w; ref_type := work_modelName w |} inv
      inverseIsMany
      (update own
         <[work_id w := {| payload := work_relationshipData w;
                           inverse := false |}]> this0)
    = OutOfFuel).
  { intros own inv inverseIsMany this0 Hre0.
    unfold _populateInverse, dataAt.
    rewrite !update000_reflexive by done.
    rewrite payloads000_reflexive by done. simpl.
    rewrite lookup_insert_eq. simpl. rewrite Hdata.
    apply populateLoop_self_reference; [done | done |].
    exists rs, false, j, r. simpl. rewrite lookup_insert_eq.
    destruct (work_relationshipData w); simpl in *; subst.
    split_and!; [done | lia | done | done]. }
  assert (Hbody :
    flushOne store fuel this w
    = (_ ←! (if isLhs this (work_modelName w) (work_relationshipName w)
             then _rhsRelationshipIsMany store this
             else _lhsRelationshipIsMany store this);
       OutOfFuel)).
  { unfold flushOne.
    destruct (isLhs this _ _).
    - rewrite !_rhsRelationshipIsMany_update.
      destruct (_rhsRelationshipIsMany store this) as [inverseIsMany| |];
        simpl; [|done..].
      apply Hloop. by rewrite rhsIsLhs_update.
    - rewrite !_lhsRelationshipIsMany_update.
      destruct (_lhsRelationshipIsMany store this) as [inverseIsMany| |];
        simpl; [|done..].
      apply Hloop. by rewrite rhsIsLhs_update. }
  split.
  - intros this'. rewrite Hbody.
    by destruct (if isLhs this _ _ then _ else _).
  - intros lhsIsMany rhsIsMany Hl Hr. rewrite Hbody, Hl, Hr.
    by destruct (isLhs this _ _).
Qed.
End Part000SelfReference.

(** C4, on part_000.  The registry files [user.friends] under a reflexive
    ledger; [_addToInverse] has no guard for a reference to the pushed id,
    so on the own entry [{ friends: [user/1] }] of [user/1] it appends a
    second [user/1], to the array that [_populateInverse] is walking.  After
    [push('user', 1, { friends: { data: [{ id: 1, type: 'user' }] } })] a
    [get('user', 1, 'friends')] therefore has not returned after any number
    of loop iterations. *)
Theorem part000_self_reference_is_duplicated_without_end :
  Part000.RelationshipPayloads._addToInverse (user "1") "1"
    {[ "1" := {| Part000.payload := {| data := DataMany [user "1"] |};
                 Part000.inverse := false |} ]} true
  = {[ "1" := {| Part000.payload := {| data := DataMany [user "1"; user "1"] |};
                 Part000.inverse := false |} ]}
  ∧ ∀ fuel,
      (registry ←! Part000.RelationshipsPayloads.push exampleStore
                     Part000.RelationshipsPayloads.new "user" "1"
                     (Some [("friends", {| data := DataMany [user "1"] |})]);
       Part000.RelationshipsPayloads.get exampleStore fuel registry "user" "1"
         "friends")
      = OutOfFuel.
Proof.
  split; [by vm_compute |]. intros fuel.
  set (w := {| work_modelName := "user"; work_id := "1";
               work_relationshipName := "friends";
               work_relationshipData := {| data := DataMany [user "1"] |} |}).
  assert (Hone :
    Part000.RelationshipPayloads.flushOne exampleStore fuel
      (Part000.RelationshipPayloads.set_pendingPayloads [] friendsLedger000) w
    = OutOfFuel).
  { eapply (flushOne_self_reference exampleStore fuel _ w [user "1"]);
      [done | done | | done | done].
    exists (user "1"). split; [apply list_elem_of_here | done]. }
  replace (Part000.RelationshipsPayloads.push exampleStore
             Part000.RelationshipsPayloads.new "user" "1"
             (Some [("friends", {| data := DataMany [user "1"] |})]))
    with (Ret {| Part000.RelationshipsPayloads._map :=
                   {[ "user:friends:user:friends" :=
                        Part000.RelationshipPayloads.push friendsLedger000
                          "user" "1" "friends"
                          {| data := DataMany [user "1"] |} ]} |})
    by (by vm_compute).
  cbn [Res_bind]. unfold Part000.RelationshipsPayloads.get.
  replace (Part000.RelationshipsPayloads._getRelationshipPayloads _ _ _ _)
    with (Ret (Some "user:friends:user:friends",
               {| Part000.RelationshipsPayloads._map :=
                   {[ "user:friends:user:friends" :=
                        Part000.RelationshipPayloads.push friendsLedger000
                          "user" "1" "friends"
                          {| data := DataMany [user "1"] |} ]} |}))
    by (by vm_compute).
  cbn [Res_bind Part000.RelationshipsPayloads._map].
  rewrite lookup_singleton_eq.
  unfold Part000.RelationshipPayloads.get,
    Part000.RelationshipPayloads._flushPending.
  change (Part000.RelationshipPayloads._pendingPayloads
            (Part000.RelationshipPayloads.push friendsLedger000 "user" "1"
               "friends" {| data := DataMany [user "1"] |})) with [w].
  cbn [Part000.RelationshipPayloads.flushLoop].
  change (Part000.RelationshipPayloads.set_pendingPayloads []
            (Part000.RelationshipPayloads.push friendsLedger000 "user" "1"
               "friends" {| data := DataMany [user "1"] |}))
    with (Part000.RelationshipPayloads.set_pendingPayloads [] friendsLedger000).
  by rewrite Hone.
Qed.

(** ** relationships-payloads.js: what one flushed push does to the tables *)

Section PayloadsMaps.
Import Payloads.RelationshipPayloads.
Implicit Types m : gmap string Payload.

Lemma _removeInverse_fold id p m :
  _removeInverse id (Some p) m
  = fold_left (λ m r, _removeFromInverse id (ref_id r) m)
      (references (data p)) m.
Proof. unfold _removeInverse. by destruct (data p). Qed.

Lemma _populateInverse_fold isReflexive d inversePayload m inverseIsMany :
  _populateInverse isReflexive d inversePayload m inverseIsMany
  = fold_left
      (λ m r, _addToInverse isReflexive inversePayload (ref_id r) m
                inverseIsMany)
      (references (data d)) m.
Proof. unfold _populateInverse. by destruct (data d). Qed.

(** [_removeFromInverse] writes the slot [inverseId] and no other. *)
Lemma _removeFromInverse_other id inverseId m k :
  k ≠ inverseId → _removeFromInverse id inverseId m !! k = m !! k.
Proof.
  intros Hk. unfold _removeFromInverse.
  destruct (m !! inverseId) as [[[]]|]; simpl; by rewrite ?lookup_insert_ne.
Qed.

(** After [_removeFromInverse], the slot [inverseId] no longer lists [id]. *)
Lemma _removeFromInverse_strikes id inverseId m :
  unlisted (_removeFromInverse id inverseId m) inverseId id.
Proof.
  unfold unlisted, _removeFromInverse. intros e.
  destruct (m !! inverseId) as [[d]|] eqn:E; simpl; [|by rewrite E].
  destruct d as [|r|rs]; simpl.
  - rewrite E. intros [= <-] (r & Hr & _). simpl in Hr. by apply elem_of_nil in Hr.
  - rewrite lookup_insert_eq. intros [= <-] (r' & Hr & _).
    simpl in Hr. by apply elem_of_nil in Hr.
  - rewrite lookup_insert_eq. intros [= <-] (r' & Hr & Hid).
    simpl in Hr. apply list_elem_of_filter in Hr as [Hne _]. by apply Hne.
Qed.

(** [_removeFromInverse] only takes references away. *)
Lemma _removeFromInverse_shrinks id inverseId m k e' :
  _removeFromInverse id inverseId m !! k = Some e' →
  ∃ e, m !! k = Some e ∧ references (data e') ⊆ references (data e).
Proof.
  destruct (decide (k = inverseId)) as [->|Hk].
  2:{ rewrite _removeFromInverse_other by done. intros E. by exists e'. }
  unfold _removeFromInverse.
  destruct (m !! inverseId) as [[d]|] eqn:E; simpl; [|by rewrite E].
  destruct d as [|r|rs]; simpl.
  - rewrite E. intros [= <-]. by eexists.
  - rewrite lookup_insert_eq. intros [= <-]. eexists. split; [done |].
    simpl. apply list_subseteq_nil.
  - rewrite lookup_insert_eq. intros [= <-]. eexists. split; [done |].
    simpl. intros x Hx. by apply list_elem_of_filter in Hx as [_ Hx].
Qed.

Lemma _removeFromInverse_keeps_unlisted id inverseId m k id' :
  unlisted m k id' → unlisted (_removeFromInverse id inverseId m) k id'.
Proof.
  intros Hm e' He' (r & Hr & Hid).
  apply _removeFromInverse_shrinks in He' as (e & He & Hsub).
  apply (Hm e He). exists r. split; [by apply Hsub | done].
Qed.

Lemma _removeInverse_keeps_unlisted id payload m k id' :
  unlisted m k id' → unlisted (_removeInverse id payload m) k id'.
Proof.
  destruct payload as [p|]; [|done]. rewrite _removeInverse_fold.
  revert m. induction (references (data p)) as [|r rs IH]; intros m Hm;
    [done |].
  simpl. by apply IH, _removeFromInverse_keeps_unlisted.
Qed.

(** After [_removeInverse] of an entry, no slot named by one of the entry's
    references lists [id] any more. *)
Lemma _removeInverse_strikes id p m r :
  r ∈ references (data p) →
  unlisted (_removeInverse id (Some p) m) (ref_id r) id.
Proof.
  rewrite _removeInverse_fold.
  revert m. induction (references (data p)) as [|r' rs IH]; intros m Hr.
  - by apply elem_of_nil in Hr.
  - simpl. apply elem_of_cons in Hr as [->|Hr]; [|by apply IH].
    pose proof (_removeInverse_keeps_unlisted id
                  (Some {| data := DataMany rs |})
                  (_removeFromInverse id (ref_id r') m) (ref_id r') id) as K.
    rewrite _removeInverse_fold in K. apply K, _removeFromInverse_strikes.
Qed.

(** [_removeInverse] leaves alone the slots its entry does not name. *)
Lemma _removeInverse_other id payload m k :
  (∀ p r, payload = Some p → r ∈ references (data p) → ref_id r ≠ k) →
  _removeInverse id payload m !! k = m !! k.
Proof.
  destruct payload as [p|]; [|done]. rewrite _removeInverse_fold.
  intros Hk. specialize (Hk p).
  revert m. induction (references (data p)) as [|r rs IH]; intros m; [done |].
  simpl. rewrite IH.
  - apply _removeFromInverse_other. intros ->.
    by apply (Hk r eq_refl (list_elem_of_here _ _)).
  - intros r' _ Hr'. apply Hk; [done | by apply list_elem_of_further].
Qed.

(** [_addToInverse] writes the slot [inverseId] and no other. *)
Lemma _addToInverse_other isReflexive inversePayload inverseId m inverseIsMany k :
  k ≠ inverseId →
  _addToInverse isReflexive inversePayload inverseId m inverseIsMany !! k
  = m !! k.
Proof.
  intros Hk. unfold _addToInverse.
  destruct (_ && _); [done |].
  destruct (data <$> m !! inverseId) as [[]|]; try destruct inverseIsMany;
    by rewrite lookup_insert_ne.
Qed.

(** The guard of [_addToInverse]: on a reflexive ledger, the add for a
    reference to the pushed id itself is skipped. *)
Lemma _addToInverse_self inversePayload m inverseIsMany :
  _addToInverse true inversePayload (ref_id inversePayload) m inverseIsMany = m.
Proof. unfold _addToInverse. by rewrite bool_decide_eq_true_2. Qed.

(** Unless the guard applies, the slot [inverseId] holds the back-reference
    afterwards. *)
Lemma _addToInverse_holds isReflexive inversePayload inverseId m inverseIsMany :
  isReflexive = false ∨ ref_id inversePayload ≠ inverseId →
  holds (_addToInverse isReflexive inversePayload inverseId m inverseIsMany)
    inverseId inversePayload.
Proof.
  intros Hguard. unfold holds, _addToInverse.
  replace (isReflexive && bool_decide (ref_id inversePayload = inverseId))
    with false.
  2:{ destruct Hguard as [->|Hne]; [done |].
      rewrite bool_decide_eq_false_2 by done. by destruct isReflexive. }
  destruct (data <$> m !! inverseId) as [[| |existingData]|];
    try destruct inverseIsMany; rewrite lookup_insert_eq; eexists;
    (split; [done |]); simpl;
    first [apply list_elem_of_here
          | apply elem_of_app; right; apply list_elem_of_here].
Qed.

(** A back-reference held by a slot survives any [_addToInverse] of the
    same back-reference. *)
Lemma _addToInverse_keeps_holding isReflexive inversePayload inverseId m
    inverseIsMany k :
  holds m k inversePayload →
  holds (_addToInverse isReflexive inversePayload inverseId m inverseIsMany)
    k inversePayload.
Proof.
  intros Hm. destruct (decide (k = inverseId)) as [->|Hk].
  2:{ unfold holds. by rewrite _addToInverse_other. }
  destruct isReflexive; [destruct (decide (ref_id inversePayload = inverseId))
                           as [<-|Hne] |].
  - by rewrite _addToInverse_self.
  - apply _addToInverse_holds. by right.
  - apply _addToInverse_holds. by left.
Qed.

(** After [_populateInverse], every slot named by a reference of the pushed
    data holds the back-reference, the pushed id's own slot apart on a
    reflexive ledger. *)
Lemma _populateInverse_holds isReflexive d inversePayload m inverseIsMany r :
  r ∈ references (data d) →
  isReflexive = false ∨ ref_id inversePayload ≠ ref_id r →
  holds (_populateInverse isReflexive d inversePayload m inverseIsMany)
    (ref_id r) inversePayload.
Proof.
  rewrite _populateInverse_fold. intros Hr Hguard.
  revert m. induction (references (data d)) as [|r' rs IH]; intros m.
  - by apply elem_of_nil in Hr.
  - simpl. apply elem_of_cons in Hr as [->|Hr]; [|by apply IH].
    assert (K : ∀ rs m, holds m (ref_id r') inversePayload →
      holds (fold_left
               (λ m r, _addToInverse isReflexive inversePayload (ref_id r) m
                         inverseIsMany) rs m) (ref_id r') inversePayload).
    { clear. induction rs as [|x rs IH]; intros m Hm; [done |].
      simpl. by apply IH, _addToInverse_keeps_holding. }
    by apply K, _addToInverse_holds.
Qed.

(** [_populateInverse] leaves alone the slots the pushed data does not
    name. *)
Lemma _populateInverse_other isReflexive d inversePayload m inverseIsMany k :
  (∀ r, r ∈ references (data d) → ref_id r ≠ k) →
  _populateInverse isReflexive d inversePayload m inverseIsMany !! k = m !! k.
Proof.
  rewrite _populateInverse_fold. intros Hk.
  revert m. induction (references (data d)) as [|r rs IH]; intros m; [done |].
  simpl. rewrite IH.
  - apply _addToInverse_other. intros E.
    apply (Hk r); [apply list_elem_of_here | done].
  - intros r' Hr'. by apply Hk, list_elem_of_further.
Qed.

(** On a reflexive ledger [_populateInverse] leaves the pushed id's own
    slot alone. *)
Lemma _populateInverse_self d inversePayload m inverseIsMany :
  _populateInverse true d inversePayload m inverseIsMany
    !! ref_id inversePayload
  = m !! ref_id inversePayload.
Proof.
  rewrite _populateInverse_fold.
  revert m. induction (references (data d)) as [|r rs IH]; intros m; [done |].
  simpl. rewrite IH.
  destruct (decide (ref_id inversePayload = ref_id r)) as [<-|Hne].
  - by rewrite _addToInverse_self.
  - by apply _addToInverse_other.
Qed.
End PayloadsMaps.

Section PayloadsLedger.
Import Payloads.RelationshipPayloads.

Lemma _isReflexive_update s f this :
  _isReflexive (update s f this) = _isReflexive this.
Proof. destruct s; unfold update; by destruct (_isReflexive this) eqn:E. Qed.

Lemma isLhs_update s f this modelName relationshipName :
  isLhs (update s f this) modelName relationshipName
  = isLhs this modelName relationshipName.
Proof. destruct s; unfold update; by destruct (_isReflexive this) eqn:E. Qed.

Lemma _pendingPayloads_update s f this :
  _pendingPayloads (update s f this) = _pendingPayloads this.
Proof. destruct s; unfold update; by destruct (_isReflexive this) eqn:E. Qed.

Lemma Payloads_lhsRelationshipIsMany_update s f this :
  _lhsRelationshipIsMany (update s f this) = _lhsRelationshipIsMany this.
Proof. destruct s; unfold update; by destruct (_isReflexive this) eqn:E. Qed.

Lemma Payloads_rhsRelationshipIsMany_update s f this :
  _rhsRelationshipIsMany (update s f this) = _rhsRelationshipIsMany this.
Proof. destruct s; unfold update; by destruct (_isReflexive this) eqn:E. Qed.

Lemma payloads_reflexive s this :
  _isReflexive this = true → payloads s this = _lhsPayloads this.
Proof. intros E. destruct s; unfold payloads; by rewrite ?E. Qed.

Lemma payloads_update_same s f this :
  payloads s (update s f this) = f (payloads s this).
Proof.
  destruct s; unfold update, payloads; [done |].
  by destruct (_isReflexive this) eqn:E; simpl; rewrite E.
Qed.

(** A write through one side shows through the other exactly when the two
    tables are one object. *)
Lemma payloads_update_other s s' f this :
  s ≠ s' →
  payloads s' (update s f this)
  = if _isReflexive this then f (payloads s' this) else payloads s' this.
Proof.
  destruct s, s'; try done; intros _; unfold update, payloads;
    by destruct (_isReflexive this) eqn:E; simpl; rewrite ?E.
Qed.

Lemma payloads_update_reflexive s s' f this :
  _isReflexive this = true →
  payloads s (update s' f this) = f (payloads s this).
Proof.
  intros E. destruct s, s'; unfold update, payloads; rewrite ?E; simpl;
    by rewrite ?E.
Qed.

Lemma ownSide_otherSide this modelName relationshipName :
  ownSide this modelName relationshipName
  ≠ otherSide this modelName relationshipName.
Proof. unfold ownSide, otherSide. by destruct (isLhs _ _ _). Qed.

(** The flush of one push, table by table, when the tables are two
    objects. *)
Lemma flushOne_distinct this w :
  _isReflexive this = false →
  payloads (ownSide this (work_modelName w) (work_relationshipName w))
    (flushOne this w)
  = <[work_id w := work_relationshipData w]>
      (payloads (ownSide this (work_modelName w) (work_relationshipName w))
         this)
  ∧ payloads (otherSide this (work_modelName w) (work_relationshipName w))
      (flushOne this w)
    = _populateInverse false (work_relationshipData w) (backReference w)
        (_removeInverse (work_id w)
           (payloads
              (ownSide this (work_modelName w) (work_relationshipName w))
              this !! work_id w)
           (payloads
              (otherSide this (work_modelName w) (work_relationshipName w))
              this))
        (inverseIsManyFor this w).
Proof.
  intros Hre. unfold flushOne, ownSide, otherSide, inverseIsManyFor.
  destruct (isLhs this _ _); cbv zeta; split;
    rewrite ?payloads_update_same, ?payloads_update_other by done;
    rewrite ?_isReflexive_update, ?Hre;
    rewrite ?payloads_update_same, ?payloads_update_other by done;
    rewrite ?_isReflexive_update, ?Hre;
    rewrite ?payloads_update_same, ?payloads_update_other by done;
    rewrite ?_isReflexive_update, ?Hre;
    rewrite ?Payloads_lhsRelationshipIsMany_update, ?Payloads_rhsRelationshipIsMany_update;
    reflexivity.
Qed.

(** The flush of one push when both sides are one table. *)
Lemma flushOne_shared this w s :
  _isReflexive this = true →
  payloads s (flushOne this w)
  = _populateInverse true (work_relationshipData w) (backReference w)
      (<[work_id w := work_relationshipData w]>
         (_removeInverse (work_id w) (_lhsPayloads this !! work_id w)
            (_lhsPayloads this)))
      (inverseIsManyFor this w).
Proof.
  intros Hre. unfold flushOne, inverseIsManyFor.
  assert (U : ∀ s f this0, _isReflexive this0 = true →
                update s f this0 = set_lhsPayloads (f (_lhsPayloads this0)) this0).
  { intros s0 f this0 E. destruct s0; unfold update; by rewrite ?E. }
  destruct (isLhs this _ _); cbv zeta;
    rewrite payloads_reflexive by (by rewrite !_isReflexive_update);
    rewrite ?(payloads_reflexive Rhs this) by done;
    rewrite ?Payloads_lhsRelationshipIsMany_update, ?Payloads_rhsRelationshipIsMany_update;
    rewrite !U by (by rewrite ?_isReflexive_update);
    cbn [_lhsPayloads set_lhsPayloads _isReflexive]; by rewrite Hre.
Qed.

Lemma _isReflexive_flushOne this w : _isReflexive (flushOne this w) = _isReflexive this.
Proof.
  unfold flushOne. destruct (isLhs this _ _); cbv zeta;
    by rewrite !_isReflexive_update.
Qed.

Lemma isLhs_flushOne this w modelName relationshipName :
  isLhs (flushOne this w) modelName relationshipName
  = isLhs this modelName relationshipName.
Proof.
  unfold flushOne. destruct (isLhs this (work_modelName w) _); cbv zeta;
    by rewrite !isLhs_update.
Qed.

Lemma _pendingPayloads_flushOne this w :
  _pendingPayloads (flushOne this w) = _pendingPayloads this.
Proof.
  unfold flushOne. destruct (isLhs this _ _); cbv zeta;
    by rewrite !_pendingPayloads_update.
Qed.

(** [_flushPending] is the left-to-right run of the queue, started on the
    ledger with its queue emptied. *)
Lemma _flushPending_fold this :
  _flushPending this
  = fold_left flushOne (_pendingPayloads this) (set_pendingPayloads [] this).
Proof.
  unfold _flushPending. destruct (_pendingPayloads this) eqn:E; [|done].
  simpl. by rewrite <- E, set_pendingPayloads_id.
Qed.

Lemma isLhs_flushed ws : ∀ this modelName relationshipName,
  isLhs (fold_left flushOne ws this) modelName relationshipName
  = isLhs this modelName relationshipName.
Proof.
  induction ws as [|w ws IH]; intros; [done |].
  simpl. by rewrite IH, isLhs_flushOne.
Qed.

Lemma _isReflexive_flushed ws : ∀ this,
  _isReflexive (fold_left flushOne ws this) = _isReflexive this.
Proof.
  induction ws as [|w ws IH]; intros; [done |].
  simpl. by rewrite IH, _isReflexive_flushOne.
Qed.

Lemma _pendingPayloads_flushed ws : ∀ this,
  _pendingPayloads (fold_left flushOne ws this) = _pendingPayloads this.
Proof.
  induction ws as [|w ws IH]; intros; [done |].
  simpl. by rewrite IH, _pendingPayloads_flushOne.
Qed.

(** What [get] hands back, for any ledger. *)
Lemma get_flushed this modelName id relationshipName :
  get this modelName id relationshipName
  = (payloads (ownSide this modelName relationshipName) (_flushPending this)
       !! id,
     _flushPending this).
Proof.
  unfold get, ownSide.
  rewrite _flushPending_fold at 1. rewrite isLhs_flushed.
  replace (isLhs (set_pendingPayloads [] this) modelName relationshipName)
    with (isLhs this modelName relationshipName) by done.
  by destruct (isLhs this modelName relationshipName).
Qed.
End PayloadsLedger.

Section PayloadsFlushOne.
Import Payloads.RelationshipPayloads.

Lemma unlisted_lookup (m m' : gmap string Payload) k id :
  m !! k = m' !! k → unlisted m' k id → unlisted m k id.
Proof. unfold unlisted. by intros ->. Qed.

Variable this : t.
Variable w : Work.
Let own := ownSide this (work_modelName w) (work_relationshipName w).
Let inv := otherSide this (work_modelName w) (work_relationshipName w).

(** After the flush of a push, the side it addresses holds the pushed
    fragment at the pushed id. *)
Lemma flushOne_own :
  payloads own (flushOne this w) !! work_id w = Some (work_relationshipData w).
Proof.
  unfold own. destruct (_isReflexive this) eqn:Hre.
  - rewrite flushOne_shared by done.
    change (work_id w) with (ref_id (backReference w)) at 1.
    rewrite _populateInverse_self. apply lookup_insert_eq.
  - destruct (flushOne_distinct this w Hre) as [-> _].
    apply lookup_insert_eq.
Qed.

(** After the flush of a push, each reference of the pushed data has the
    back-reference in its slot on the other side (on a reflexive ledger,
    a reference to the pushed id itself apart). *)
Lemma flushOne_back_reference r :
  r ∈ references (data (work_relationshipData w)) →
  _isReflexive this = false ∨ ref_id r ≠ work_id w →
  holds (payloads inv (flushOne this w)) (ref_id r) (backReference w).
Proof.
  intros Hr Hguard. unfold inv. destruct (_isReflexive this) eqn:Hre.
  - rewrite flushOne_shared by done.
    apply _populateInverse_holds; [done |]. right.
    destruct Hguard as [|Hne]; [done |]. simpl. congruence.
  - destruct (flushOne_distinct this w Hre) as [_ ->].
    apply _populateInverse_holds; [done | by left].
Qed.

(** The strike: a reference the previous entry at the pushed id held, and
    the pushed data does not name, no longer has the pushed id in its slot
    on the other side. *)
Lemma flushOne_strikes p r :
  payloads own this !! work_id w = Some p →
  r ∈ references (data p) →
  (∀ r', r' ∈ references (data (work_relationshipData w)) →
         ref_id r' ≠ ref_id r) →
  unlisted (payloads inv (flushOne this w)) (ref_id r) (work_id w).
Proof.
  intros Hp Hr Hnew. unfold own, inv in *. destruct (_isReflexive this) eqn:Hre.
  - rewrite flushOne_shared by done.
    eapply unlisted_lookup; [by apply _populateInverse_other |].
    rewrite payloads_reflexive in Hp by done. rewrite Hp.
    destruct (decide (ref_id r = work_id w)) as [E|NE].
    + intros e. rewrite E, lookup_insert_eq. intros [= <-] (r' & Hr' & Hid).
      apply (Hnew r' Hr'). congruence.
    + eapply unlisted_lookup; [by apply lookup_insert_ne |].
      by apply _removeInverse_strikes.
  - destruct (flushOne_distinct this w Hre) as [_ ->].
    eapply unlisted_lookup; [by apply _populateInverse_other |].
    rewrite Hp. by apply _removeInverse_strikes.
Qed.

(** A slot of the other side that does not list the pushed id, and that
    the pushed data does not name, still does not list it. *)
Lemma flushOne_keeps_unlisted k :
  unlisted (payloads inv this) k (work_id w) →
  (∀ r', r' ∈ references (data (work_relationshipData w)) → ref_id r' ≠ k) →
  unlisted (payloads inv (flushOne this w)) k (work_id w).
Proof.
  intros Hk Hnew. unfold inv in *. destruct (_isReflexive this) eqn:Hre.
  - rewrite flushOne_shared by done.
    eapply unlisted_lookup; [by apply _populateInverse_other |].
    rewrite payloads_reflexive in Hk by done.
    destruct (decide (k = work_id w)) as [E|NE].
    + intros e. rewrite E, lookup_insert_eq. intros [= <-] (r' & Hr' & Hid).
      apply (Hnew r' Hr'). congruence.
    + eapply unlisted_lookup; [by apply lookup_insert_ne |].
      by apply _removeInverse_keeps_unlisted.
  - destruct (flushOne_distinct this w Hre) as [_ ->].
    eapply unlisted_lookup; [by apply _populateInverse_other |].
    by apply _removeInverse_keeps_unlisted.
Qed.
End PayloadsFlushOne.

(** ** Unload *)

Section PayloadsUnload.
Import Payloads.RelationshipPayloads.
Variable store : Store.

(** [_inverseLoaded] answers whether some referenced entity is resident. *)
Lemma _inverseLoaded_spec entry :
  _inverseLoaded store entry = true
  ↔ ∃ e r, entry = Some e ∧ r ∈ references (data e)
           ∧ store_hasRecordForId store (ref_type r) (ref_id r) = true.
Proof.
  unfold _inverseLoaded, Payloads.hasRecordForId. split.
  - destruct entry as [[d]|]; [|done]. destruct d as [|r|rs]; simpl; [done | |].
    + intros H. exists {| data := DataOne r |}, r.
      split_and!; [done | apply list_elem_of_here | done].
    + intros H. apply existsb_exists in H as (r & Hin & Hr).
      exists {| data := DataMany rs |}, r.
      split_and!; [done | by apply list_elem_of_In | done].
  - intros ([d] & r & -> & Hin & Hr). destruct d as [|r0|rs]; simpl in *.
    + by apply elem_of_nil in Hin.
    + by apply list_elem_of_singleton in Hin as ->.
    + apply existsb_exists. exists r. split; [by apply list_elem_of_In | done].
Qed.

Lemma unload_sides this modelName id relationshipName :
  unload store this modelName id relationshipName
  = _unload store id (ownSide this modelName relationshipName)
      (otherSide this modelName relationshipName) (_flushPending this).
Proof.
  unfold unload, ownSide, otherSide.
  rewrite _flushPending_fold at 1. rewrite isLhs_flushed.
  replace (isLhs (set_pendingPayloads [] this) modelName relationshipName)
    with (isLhs this modelName relationshipName) by done.
  by destruct (isLhs this modelName relationshipName).
Qed.

Lemma unlisted_delete (m : gmap string Payload) k k' id :
  unlisted m k id → unlisted (delete k' m) k id.
Proof.
  intros Hm e. destruct (decide (k' = k)) as [->|Hne].
  - by rewrite lookup_delete_eq.
  - rewrite lookup_delete_ne by done. apply Hm.
Qed.
End PayloadsUnload.

Section PayloadsStrike.
Import Payloads.RelationshipPayloads.
Implicit Types m : gmap string Payload.

Lemma strike_twice id p : strike id (strike id p) = strike id p.
Proof.
destruct p as [[|r|xs]]; unfold strike; simpl; [done | done |].
do 2 f_equal. induction xs as [|x xs IH]; [done |].
rewrite filter_cons. destruct (decide (ref_id x ≠ id)); [|done].
rewrite filter_cons_True by done. by rewrite IH.
Qed.

(** What [_removeFromInverse] leaves in every slot. *)
Lemma _removeFromInverse_lookup id inverseId m k :
_removeFromInverse id inverseId m !! k
= if decide (k = inverseId) then strike id <$> m !! k else m !! k.
Proof.
destruct (decide (k = inverseId)) as [->|Hk];
  [|by apply _removeFromInverse_other].
unfold _removeFromInverse, strike.
destruct (m !! inverseId) as [[d]|] eqn:E; simpl; [|by rewrite E].
destruct d as [|r|xs]; simpl; by rewrite ?lookup_insert_eq, ?E.
Qed.

Lemma strikes_lookup id rs : ∀ m k,
fold_left (λ m r, _removeFromInverse id (ref_id r) m) rs m !! k
= if decide (k ∈ ref_id <$> rs) then strike id <$> m !! k else m !! k.
Proof.
induction rs as [|r rs IH]; intros m k.
- by rewrite decide_False by apply not_elem_of_nil.
- cbn [fold_left]. rewrite IH, _removeFromInverse_lookup, fmap_cons.
  destruct (decide (k ∈ ref_id <$> rs)) as [Hin|Hout];
    destruct (decide (k = ref_id r)) as [->|Hne].
  + rewrite decide_True by apply list_elem_of_here.
    destruct (m !! ref_id r); simpl; by rewrite ?strike_twice.
  + by rewrite decide_True by (by apply list_elem_of_further).
  + by rewrite decide_True by apply list_elem_of_here.
  + rewrite decide_False; [done |].
    intros H. by apply elem_of_cons in H as [|].
Qed.

(** [_removeInverse] strikes [id] from exactly the slots the entry
    names. *)
Lemma _removeInverse_named id entry m k :
names entry k → _removeInverse id entry m !! k = strike id <$> m !! k.
Proof.
intros (e & r & -> & Hr & <-). rewrite _removeInverse_fold, strikes_lookup.
rewrite decide_True; [done |]. by apply list_elem_of_fmap_2.
Qed.

Lemma _removeInverse_unnamed id entry m k :
¬ names entry k → _removeInverse id entry m !! k = m !! k.
Proof.
intros H. apply _removeInverse_other. intros p r -> Hr E.
apply H. by exists p, r.
Qed.
End PayloadsStrike.

(** C6, for relationships-payloads.js, on ledgers and ids for which a plain
    object behaves as a table of its own properties.
    [unload(modelName, id, relationshipName)] flushes; let [entry] be what
    the addressed side then holds at [id].
    - If some entity that [entry] references is resident in the store, the
      ledger stays exactly the flushed one: the entry and all inverse entries
      are kept.
    - If none is, the tables afterwards are the flushed ones but for this:
      the addressed side has no entry at [id]; on the other side, the entry
      of every entity that [entry] references is the flushed one with [id]
      struck out ([id] filtered out of a list and every other reference of
      the list kept in place, a single reference nulled out); every other
      slot of either side is as flushed.  (In a reflexive relationship both
      sides are one table.)
    Hence an existing entry is removed if and only if none of the entities
    it references is resident. *)
Theorem unload_removes_unless_an_inverse_is_resident :
  ∀ store this modelName id relationshipName,
    plainLedger this = true →
    plainId id = true →
    let flushed := Payloads.RelationshipPayloads._flushPending this in
    let own :=
      Payloads.RelationshipPayloads.ownSide this modelName relationshipName in
    let inv :=
      Payloads.RelationshipPayloads.otherSide this modelName relationshipName in
    let entry := Payloads.RelationshipPayloads.payloads own flushed !! id in
    let after :=
      Payloads.RelationshipPayloads.unload store this modelName id
        relationshipName in
    let someResident :=
      ∃ e r, entry = Some e ∧ r ∈ references (data e)
             ∧ store_hasRecordForId store (ref_type r) (ref_id r) = true in
    let tableOf (a b : Side) :=
      a = b ∨ Payloads.RelationshipPayloads._isReflexive this = true in
    (someResident → after = flushed)
    ∧ (¬ someResident →
       (∀ side,
          tableOf side own →
          Payloads.RelationshipPayloads.payloads side after !! id = None)
       ∧ (∀ side k,
            tableOf side inv → names entry k →
            ¬ (k = id ∧ tableOf side own) →
            Payloads.RelationshipPayloads.payloads side after !! k
            = strike id
                <$> Payloads.RelationshipPayloads.payloads side flushed !! k)
       ∧ (∀ side k,
            ¬ (k = id ∧ tableOf side own) →
            ¬ (names entry k ∧ tableOf side inv) →
            Payloads.RelationshipPayloads.payloads side after !! k
            = Payloads.RelationshipPayloads.payloads side flushed !! k))
    ∧ (is_Some entry →
       (Payloads.RelationshipPayloads.payloads own after !! id = None
        ↔ ¬ someResident)).
Proof.
  intros store this modelName id relationshipName _ _ flushed own inv entry
    after someResident tableOf.
  assert (Hloaded :
    Payloads.RelationshipPayloads._inverseLoaded store entry = true
    ↔ someResident) by apply _inverseLoaded_spec.
  assert (Hafter :
    after = Payloads.RelationshipPayloads._unload store id own inv flushed)
    by apply unload_sides.
  assert (Hne : own ≠ inv) by apply ownSide_otherSide.
  assert (Hre : Payloads.RelationshipPayloads._isReflexive flushed
                = Payloads.RelationshipPayloads._isReflexive this).
  { unfold flushed. rewrite _flushPending_fold.
    by rewrite _isReflexive_flushed. }
  assert (Hkeep : someResident → after = flushed).
  { intros H. apply Hloaded in H. rewrite Hafter.
    unfold Payloads.RelationshipPayloads._unload. fold entry. by rewrite H. }
  assert (Hgone : ¬ someResident →
    after
    = Payloads.RelationshipPayloads.update own (delete id)
        (Payloads.RelationshipPayloads.update inv
           (Payloads.RelationshipPayloads._removeInverse id entry) flushed)).
  { intros H. rewrite Hafter.
    unfold Payloads.RelationshipPayloads._unload. fold entry.
    destruct (Payloads.RelationshipPayloads._inverseLoaded store entry);
      [by destruct H; apply Hloaded | done]. }
  assert (Hown : ¬ someResident →
    Payloads.RelationshipPayloads.payloads own after !! id = None).
  { intros H. rewrite (Hgone H), payloads_update_same.
    apply lookup_delete_eq. }
  split; [done |]. split.
  - intros H. rewrite (Hgone H). unfold tableOf.
    destruct (Payloads.RelationshipPayloads._isReflexive this) eqn:Hshared.
    + assert (Hall : ∀ side,
        Payloads.RelationshipPayloads.payloads side
          (Payloads.RelationshipPayloads.update own (delete id)
             (Payloads.RelationshipPayloads.update inv
                (Payloads.RelationshipPayloads._removeInverse id entry)
                flushed))
        = delete id
            (Payloads.RelationshipPayloads._removeInverse id entry
               (Payloads.RelationshipPayloads.payloads side flushed))).
      { intros side.
        by rewrite !payloads_update_reflexive
          by (by rewrite ?_isReflexive_update). }
      split_and!.
      * intros side _. rewrite Hall. apply lookup_delete_eq.
      * intros side k _ Hnamed Hk. rewrite Hall.
        rewrite lookup_delete_ne by (intros ->; apply Hk; by split; [|right]).
        by apply _removeInverse_named.
      * intros side k Hk Hnamed. rewrite Hall.
        rewrite lookup_delete_ne by (intros ->; apply Hk; by split; [|right]).
        apply _removeInverse_unnamed. intros N. apply Hnamed.
        by split; [|right].
    + assert (Hownt :
        Payloads.RelationshipPayloads.payloads own
          (Payloads.RelationshipPayloads.update own (delete id)
             (Payloads.RelationshipPayloads.update inv
                (Payloads.RelationshipPayloads._removeInverse id entry)
                flushed))
        = delete id (Payloads.RelationshipPayloads.payloads own flushed)).
      { rewrite payloads_update_same.
        by rewrite payloads_update_other, Hre by done. }
      assert (Hinvt :
        Payloads.RelationshipPayloads.payloads inv
          (Payloads.RelationshipPayloads.update own (delete id)
             (Payloads.RelationshipPayloads.update inv
                (Payloads.RelationshipPayloads._removeInverse id entry)
                flushed))
        = Payloads.RelationshipPayloads._removeInverse id entry
            (Payloads.RelationshipPayloads.payloads inv flushed)).
      { rewrite payloads_update_other, _isReflexive_update, Hre by done.
        by rewrite payloads_update_same. }
      assert (Htwo : ∀ side, side = own ∨ side = inv).
      { intros side. destruct side, own, inv; auto; done. }
      split_and!.
      * intros side [->|?]; [|done]. rewrite Hownt. apply lookup_delete_eq.
      * intros side k [->|?] Hnamed _; [|done]. rewrite Hinvt.
        by apply _removeInverse_named.
      * intros side k Hk Hnamed. destruct (Htwo side) as [->| ->].
        -- rewrite Hownt. apply lookup_delete_ne. intros ->. apply Hk.
           by split; [|left].
        -- rewrite Hinvt. apply _removeInverse_unnamed. intros N.
           apply Hnamed. by split; [|left].
  - intros [e He]. split.
    + intros Hnone H. rewrite (Hkeep H) in Hnone. fold entry in Hnone.
      congruence.
    + apply Hown.
Qed.

(** The ledger of [user.hobbies] after [hobby/2] and [hobby/3] were pushed
    with [user/1]: with [user/1] resident the unload of [hobby/2] keeps
    everything; with nothing resident the entry of [hobby/2] goes and the
    list of [user/1] has [hobby/2] struck out and keeps [hobby/3]. *)
Lemma unload_removes_unless_an_inverse_is_resident_witness :
  let this :=
    Payloads.RelationshipPayloads.push
      (Payloads.RelationshipPayloads.push hobbiesLedger "hobby" "2" "user"
         {| data := DataOne (user "1") |})
      "hobby" "3" "user" {| data := DataOne (user "1") |} in
  Payloads.RelationshipPayloads.unload exampleStoreWithUser1 this "hobby" "2"
    "user"
  = Payloads.RelationshipPayloads._flushPending this
  ∧ Payloads.RelationshipPayloads.payloads Rhs
      (Payloads.RelationshipPayloads.unload exampleStore this "hobby" "2" "user")
      !! "2" = None
  ∧ Payloads.RelationshipPayloads.payloads Lhs
      (Payloads.RelationshipPayloads.unload exampleStore this "hobby" "2" "user")
      !! "1" = Some {| data := DataMany [hobby "3"] |}
  ∧ Payloads.RelationshipPayloads.payloads Rhs
      (Payloads.RelationshipPayloads.unload exampleStore this "hobby" "2" "user")
      !! "3" = Some {| data := DataOne (user "1") |}.
Proof.
  intros this. split_and!.
  - destruct (unload_removes_unless_an_inverse_is_resident
                exampleStoreWithUser1 this "hobby" "2" "user") as (Hkeep & _);
      [by vm_compute | by vm_compute |].
    apply Hkeep.
    exists {| data := DataOne (user "1") |}, (user "1").
    split_and!; [by vm_compute | apply list_elem_of_here | done].
  - destruct (unload_removes_unless_an_inverse_is_resident exampleStore this
                "hobby" "2" "user") as (_ & Hgone & _);
      [by vm_compute | by vm_compute |].
    destruct Hgone as (Hown & _); [by intros (e & r & _ & _ & H) |].
    apply Hown. by left.
  - destruct (unload_removes_unless_an_inverse_is_resident exampleStore this
                "hobby" "2" "user") as (_ & Hgone & _);
      [by vm_compute | by vm_compute |].
    destruct Hgone as (_ & Hstrike & _); [by intros (e & r & _ & _ & H) |].
    rewrite (Hstrike Lhs "1").
    + by vm_compute.
    + by left.
    + exists {| data := DataOne (user "1") |}, (user "1").
      split_and!; [by vm_compute | apply list_elem_of_here | done].
    + intros [E _]. discriminate E.
  - destruct (unload_removes_unless_an_inverse_is_resident exampleStore this
                "hobby" "2" "user") as (_ & Hgone & _);
      [by vm_compute | by vm_compute |].
    destruct Hgone as (_ & _ & Hframe); [by intros (e & r & _ & _ & H) |].
    rewrite (Hframe Rhs "3").
    + by vm_compute.
    + intros [E _]. discriminate E.
    + intros [_ [E|E]]; discriminate E.
Defined.

(** ** Symmetry of the two sides *)

(** C2 as stated fails.  With [user.hobbies] to-many and [hobby.user]
    to-one, push [user/1 -> [hobby/2]] and then [user/3 -> [hobby/2]]: the
    flushed ledger has nothing pending, [user/1] still lists [hobby/2], but
    the to-one entry of [hobby/2] was overwritten with [user/3]. *)
Lemma symmetry_fails_for_two_owners :
  Payloads.RelationshipPayloads._pendingPayloads twoOwners = []
  ∧ ¬ symmetric twoOwners.
Proof.
  split; [done |]. intros Hsym.
  destruct (proj2 (Hsym "2" "1")) as (e & He & r & Hr & Hid).
  - exists {| data := DataMany [hobby "2"] |}. split; [by vm_compute |].
    exists (hobby "2"). split; [apply list_elem_of_here | done].
  - vm_compute in He. injection He as <-. simpl in Hr.
    apply list_elem_of_singleton in Hr as ->. done.
Qed.

Section PayloadsQueue.
Import Payloads.RelationshipPayloads.

(** The flush of a ledger just pushed to: the earlier queue is run first,
    the new push last. *)
Lemma _flushPending_push this modelName id relationshipName relationshipData :
  _flushPending (push this modelName id relationshipName relationshipData)
  = flushOne
      (fold_left flushOne (_pendingPayloads this)
         (set_pendingPayloads [] this))
      {| work_modelName := modelName; work_id := id;
         work_relationshipName := relationshipName;
         work_relationshipData := relationshipData |}.
Proof.
  rewrite _flushPending_fold. unfold push at 1. simpl.
  by rewrite fold_left_app.
Qed.

Lemma _flushPending_done this : _pendingPayloads (_flushPending this) = [].
Proof. rewrite _flushPending_fold. by rewrite _pendingPayloads_flushed. Qed.

Lemma isLhs_flushPending this modelName relationshipName :
  isLhs (_flushPending this) modelName relationshipName
  = isLhs this modelName relationshipName.
Proof. rewrite _flushPending_fold. by rewrite isLhs_flushed. Qed.

Lemma _isReflexive_flushPending this :
  _isReflexive (_flushPending this) = _isReflexive this.
Proof. rewrite _flushPending_fold. by rewrite _isReflexive_flushed. Qed.
End PayloadsQueue.

(** Push [(modelName, id, relationshipName)] with data that holds the
    reference [r], and read before any other push: [get] for the other side
    at [r]'s id returns an entry whose data holds the back-reference
    [{ id, type: modelName }], whatever was queued or stored before.  (On a
    reflexive ledger both sides are one table, and a reference to the pushed
    id itself gets no back-reference.) *)
Lemma get_back_reference_after_push :
  ∀ this modelName id relationshipName relationshipData r otherModelName
    otherRelationshipName,
    r ∈ references (data relationshipData) →
    Payloads.RelationshipPayloads._isReflexive this = false ∨ ref_id r ≠ id →
    Payloads.RelationshipPayloads._isReflexive this = true
    ∨ Payloads.RelationshipPayloads.ownSide this otherModelName
        otherRelationshipName
      = Payloads.RelationshipPayloads.otherSide this modelName relationshipName →
    ∃ e,
      (Payloads.RelationshipPayloads.get
         (Payloads.RelationshipPayloads.push this modelName id relationshipName
            relationshipData)
         otherModelName (ref_id r) otherRelationshipName).1 = Some e
      ∧ {| ref_id := id; ref_type := modelName |} ∈ references (data e).
Proof.
  intros this modelName id relationshipName relationshipData r otherModelName
    otherRelationshipName Hr Hguard Hside.
  rewrite get_flushed, _flushPending_push. simpl.
  set (w := {| work_modelName := modelName; work_id := id;
               work_relationshipName := relationshipName;
               work_relationshipData := relationshipData |}).
  set (queued :=
         fold_left Payloads.RelationshipPayloads.flushOne
           (Payloads.RelationshipPayloads._pendingPayloads this)
           (Payloads.RelationshipPayloads.set_pendingPayloads [] this)).
  assert (Hre : Payloads.RelationshipPayloads._isReflexive queued
                = Payloads.RelationshipPayloads._isReflexive this)
    by (unfold queued; by rewrite _isReflexive_flushed).
  assert (Hlhs : ∀ m n, Payloads.RelationshipPayloads.isLhs queued m n
                        = Payloads.RelationshipPayloads.isLhs this m n)
    by (intros; unfold queued; by rewrite isLhs_flushed).
  pose proof (flushOne_back_reference queued w r Hr) as Hback.
  rewrite Hre in Hback. specialize (Hback Hguard).
  replace (Payloads.RelationshipPayloads.otherSide queued (work_modelName w)
             (work_relationshipName w))
    with (Payloads.RelationshipPayloads.otherSide this modelName
            relationshipName) in Hback
    by (unfold Payloads.RelationshipPayloads.otherSide; by rewrite Hlhs).
  replace (Payloads.RelationshipPayloads.ownSide
             (Payloads.RelationshipPayloads.push this modelName id
                relationshipName relationshipData)
             otherModelName otherRelationshipName)
    with (Payloads.RelationshipPayloads.ownSide this otherModelName
            otherRelationshipName) by done.
  destruct Hside as [Hshared|Hside]; [|rewrite Hside; exact Hback].
  rewrite payloads_reflexive by (by rewrite _isReflexive_flushOne, Hre).
  rewrite payloads_reflexive in Hback
    by (by rewrite _isReflexive_flushOne, Hre).
  exact Hback.
Qed.

(** ** Several pushes for one id *)

Section PayloadsRepeatedPush.
Import Payloads.RelationshipPayloads.

Lemma ownSide_flushOne this w modelName relationshipName :
  ownSide (flushOne this w) modelName relationshipName
  = ownSide this modelName relationshipName.
Proof. unfold ownSide. by rewrite isLhs_flushOne. Qed.

Lemma otherSide_flushOne this w modelName relationshipName :
  otherSide (flushOne this w) modelName relationshipName
  = otherSide this modelName relationshipName.
Proof. unfold otherSide. by rewrite isLhs_flushOne. Qed.

(** relationships-payloads.js: a read right after a push returns the
    pushed fragment as it was pushed; in particular, on a reflexive ledger,
    a reference to the pushed id is not joined by a second one. *)
Lemma get_after_push this modelName id relationshipName d :
  (get (push this modelName id relationshipName d) modelName id
     relationshipName).1
  = Some d.
Proof.
  rewrite get_flushed, _flushPending_push. simpl.
  set (w := {| work_modelName := modelName; work_id := id;
               work_relationshipName := relationshipName;
               work_relationshipData := d |}).
  replace (ownSide (push this modelName id relationshipName d) modelName
             relationshipName)
    with (ownSide
            (fold_left flushOne (_pendingPayloads this)
               (set_pendingPayloads [] this))
            (work_modelName w) (work_relationshipName w))
    by (unfold ownSide; by rewrite isLhs_flushed).
  apply (flushOne_own _ w).
Qed.

Variable this : t.
Variables modelName id relationshipName : string.
Let own := ownSide this modelName relationshipName.
Let inv := otherSide this modelName relationshipName.
Let work (d : Payload) : Work :=
  {| work_modelName := modelName; work_id := id;
     work_relationshipName := relationshipName;
     work_relationshipData := d |}.

(** relationships-payloads.js: three pushes [P1], [P2], [P3] for one
    (modelName, id, relationshipName), then a read.  The queue is run in
    the order of arrival and is empty afterwards; the read returns [P3];
    and the slot of a reference of [P1] or [P2] whose id [P3] does not name
    no longer lists [id] on the other side. *)
Lemma three_pushes_then_get P1 P2 P3 :
  let pushed :=
    push (push (push this modelName id relationshipName P1) modelName id
            relationshipName P2) modelName id relationshipName P3 in
  let result := get pushed modelName id relationshipName in
  _pendingPayloads pushed
  = _pendingPayloads this ++ [work P1; work P2; work P3]
  ∧ result.2
    = fold_left flushOne (_pendingPayloads pushed)
        (set_pendingPayloads [] this)
  ∧ _pendingPayloads result.2 = []
  ∧ result.1 = Some P3
  ∧ ∀ r,
      r ∈ references (data P1) ∨ r ∈ references (data P2) →
      (∀ r3, r3 ∈ references (data P3) → ref_id r3 ≠ ref_id r) →
      unlisted (payloads inv result.2) (ref_id r) id.
Proof.
  intros pushed result.
  assert (Hq : _pendingPayloads pushed
               = _pendingPayloads this ++ [work P1; work P2; work P3]).
  { unfold pushed, push. simpl. by rewrite <- !app_assoc. }
  assert (Hres : result.2
                 = fold_left flushOne (_pendingPayloads pushed)
                     (set_pendingPayloads [] this)).
  { unfold result. rewrite get_flushed. simpl. by rewrite _flushPending_fold. }
  split; [done |]. split; [done |].
  split; [unfold result; rewrite get_flushed; apply _flushPending_done |].
  split; [apply get_after_push |].
  rewrite Hres, Hq, fold_left_app. simpl.
  set (s0 := fold_left flushOne (_pendingPayloads this)
               (set_pendingPayloads [] this)).
  set (s1 := flushOne s0 (work P1)).
  set (s2 := flushOne s1 (work P2)).
  assert (Hinv0 : otherSide s0 modelName relationshipName = inv)
    by (unfold otherSide, s0; by rewrite isLhs_flushed).
  assert (Hown0 : ownSide s0 modelName relationshipName = own)
    by (unfold ownSide, s0; by rewrite isLhs_flushed).
  assert (Hinv1 : otherSide s1 modelName relationshipName = inv)
    by (unfold s1; by rewrite otherSide_flushOne).
  assert (Hown1 : ownSide s1 modelName relationshipName = own)
    by (unfold s1; by rewrite ownSide_flushOne).
  assert (Hinv2 : otherSide s2 modelName relationshipName = inv)
    by (unfold s2; by rewrite otherSide_flushOne).
  assert (Hown2 : ownSide s2 modelName relationshipName = own)
    by (unfold s2; by rewrite ownSide_flushOne).
  assert (H1 : payloads own s1 !! id = Some P1).
  { rewrite <- Hown0. apply (flushOne_own s0 (work P1)). }
  assert (H2 : payloads own s2 !! id = Some P2).
  { rewrite <- Hown1. apply (flushOne_own s1 (work P2)). }
  assert (Hstrike2 : ∀ r2,
    r2 ∈ references (data P2) →
    (∀ r3, r3 ∈ references (data P3) → ref_id r3 ≠ ref_id r2) →
    unlisted (payloads inv (flushOne s2 (work P3))) (ref_id r2) id).
  { intros r2 Hr2 H3. rewrite <- Hinv2.
    apply (flushOne_strikes s2 (work P3) P2 r2); [|done..].
    simpl. by rewrite Hown2. }
  intros r [Hr|Hr] H3; [|by apply Hstrike2].
  destruct (decide (ref_id r ∈ ref_id <$> references (data P2))) as [Hin|Hout].
  - apply list_elem_of_fmap in Hin as (r2 & E & Hr2). rewrite E.
    apply Hstrike2; [done |]. by rewrite <- E.
  - rewrite <- Hinv2. apply (flushOne_keeps_unlisted s2 (work P3)); [|done].
    simpl. rewrite Hinv2, <- Hinv1.
    apply (flushOne_strikes s1 (work P2) P1 r); [|done |].
    + simpl. by rewrite Hown1.
    + simpl. intros r2 Hr2 E. apply Hout.
      apply list_elem_of_fmap. by exists r2.
Qed.
End PayloadsRepeatedPush.

(** C5, on part_000.  Three pushes for [user/1] on the reflexive
    [user.friends], each listing [user/1] itself, then a read: the flush of
    the first of them already fails to return (the loop of
    [_populateInverse] walks the array it appends to), so the read never
    reflects the third. *)
Theorem part000_three_pushes_never_flush :
  ∀ fuel,
    Part000.RelationshipPayloads.get exampleStore fuel
      (Part000.RelationshipPayloads.push
         (Part000.RelationshipPayloads.push
            (Part000.RelationshipPayloads.push friendsLedger000 "user" "1"
               "friends" {| data := DataMany [user "1"; user "2"] |})
            "user" "1" "friends" {| data := DataMany [user "3"] |})
         "user" "1" "friends" {| data := DataMany [user "1"] |})
      "user" "1" "friends"
    = OutOfFuel.
Proof.
  intros fuel.
  set (w := {| work_modelName := "user"; work_id := "1";
               work_relationshipName := "friends";
               work_relationshipData :=
                 {| data := DataMany [user "1"; user "2"] |} |}).
  assert (Hone :
    Part000.RelationshipPayloads.flushOne exampleStore fuel
      (Part000.RelationshipPayloads.set_pendingPayloads [] friendsLedger000) w
    = OutOfFuel).
  { eapply (flushOne_self_reference exampleStore fuel _ w
              [user "1"; user "2"]); [done | done | | done | done].
    exists (user "1"). split; [apply list_elem_of_here | done]. }
  unfold Part000.RelationshipPayloads.get,
    Part000.RelationshipPayloads._flushPending.
  cbn [Part000.RelationshipPayloads.push
         Part000.RelationshipPayloads._pendingPayloads
         Part000.RelationshipPayloads.set_pendingPayloads friendsLedger000
         Part000.RelationshipPayloads.new app
         Part000.RelationshipPayloads.flushLoop].
  fold w.
  change (Part000.RelationshipPayloads.flushOne exampleStore fuel _ w)
    with (Part000.RelationshipPayloads.flushOne exampleStore fuel
            (Part000.RelationshipPayloads.set_pendingPayloads []
               friendsLedger000) w).
  by rewrite Hone.
Qed.

(** ** part_000: a flushed push that does not name its own id on a shared
    table *)

Section Part000Maps.
Import Part000 Part000.RelationshipPayloads.
Implicit Types m : gmap string Entry.

Lemma _removeInverse000_fold id e m :
  _removeInverse id (Some e) m
  = fold_left (λ m r, _removeFromInverse id (ref_id r) m)
      (references (data (payload e))) m.
Proof. unfold _removeInverse. by destruct (data (payload e)). Qed.

Lemma _removeFromInverse000_other id inverseId m k :
  k ≠ inverseId → _removeFromInverse id inverseId m !! k = m !! k.
Proof.
  intros Hk. unfold _removeFromInverse.
  destruct (m !! inverseId) as [[[[]] ?]|]; simpl; by rewrite ?lookup_insert_ne.
Qed.

Lemma _removeFromInverse000_strikes id inverseId m :
  unlisted000 (_removeFromInverse id inverseId m) inverseId id.
Proof.
  unfold unlisted000, _removeFromInverse. intros e.
  destruct (m !! inverseId) as [[[d] b]|] eqn:E; simpl; [|by rewrite E].
  destruct d as [|r|rs]; simpl.
  - rewrite E. intros [= <-] (r & Hr & _). simpl in Hr. by apply elem_of_nil in Hr.
  - rewrite lookup_insert_eq. intros [= <-] (r' & Hr & _).
    simpl in Hr. by apply elem_of_nil in Hr.
  - rewrite lookup_insert_eq. intros [= <-] (r' & Hr & Hid).
    simpl in Hr. apply list_elem_of_filter in Hr as [Hne _]. by apply Hne.
Qed.

Lemma _removeFromInverse000_keeps_unlisted id inverseId m k id' :
  unlisted000 m k id' → unlisted000 (_removeFromInverse id inverseId m) k id'.
Proof.
  intros Hm. destruct (decide (k = inverseId)) as [->|Hk].
  2:{ intros e. rewrite _removeFromInverse000_other by done. apply Hm. }
  unfold unlisted000, _removeFromInverse in *. intros e'.
  destruct (m !! inverseId) as [[[d] b]|] eqn:E; simpl; [|by rewrite E].
  destruct d as [|r|rs]; simpl.
  - rewrite E. intros [= <-]. by apply (Hm _ eq_refl).
  - rewrite lookup_insert_eq. intros [= <-] (r' & Hr & _).
    simpl in Hr. by apply elem_of_nil in Hr.
  - rewrite lookup_insert_eq. intros [= <-] (r' & Hr & Hid).
    simpl in Hr. apply list_elem_of_filter in Hr as [_ Hr].
    apply (Hm _ eq_refl). by exists r'.
Qed.

Lemma _removeInverse000_keeps_unlisted id entry m k id' :
  unlisted000 m k id' → unlisted000 (_removeInverse id entry m) k id'.
Proof.
  destruct entry as [e|]; [|done]. rewrite _removeInverse000_fold.
  revert m. induction (references (data (payload e))) as [|r rs IH];
    intros m Hm; [done |].
  simpl. by apply IH, _removeFromInverse000_keeps_unlisted.
Qed.

Lemma _removeInverse000_strikes id e m r :
  r ∈ references (data (payload e)) →
  unlisted000 (_removeInverse id (Some e) m) (ref_id r) id.
Proof.
  rewrite _removeInverse000_fold.
  revert m. induction (references (data (payload e))) as [|r' rs IH];
    intros m Hr.
  - by apply elem_of_nil in Hr.
  - simpl. apply elem_of_cons in Hr as [->|Hr]; [|by apply IH].
    pose proof (_removeInverse000_keeps_unlisted id
                  (Some {| payload := {| data := DataMany rs |};
                           inverse := false |})
                  (_removeFromInverse id (ref_id r') m) (ref_id r') id) as K.
    rewrite _removeInverse000_fold in K.
    apply K, _removeFromInverse000_strikes.
Qed.

(** The adds of [_populateInverse], as a run over the references. *)
Lemma adds000_other inverseEntry inverseIsMany rs k : ∀ m,
  (∀ r, r ∈ rs → ref_id r ≠ k) →
  fold_left (λ m r, _addToInverse inverseEntry (ref_id r) m inverseIsMany) rs m
    !! k
  = m !! k.
Proof.
  induction rs as [|r rs IH]; intros m Hk; [done |].
  simpl. rewrite IH.
  - apply _addToInverse000_other. intros E.
    apply (Hk r); [apply list_elem_of_here | done].
  - intros r' Hr'. by apply Hk, list_elem_of_further.
Qed.
End Part000Maps.

Section Part000Ledger.
Import Part000 Part000.RelationshipPayloads.

Lemma isLhs000_update s f this modelName relationshipName :
  isLhs (update s f this) modelName relationshipName
  = isLhs this modelName relationshipName.
Proof. destruct s; unfold update; by destruct (rhsIsLhs this) eqn:E. Qed.

Lemma payloads000_update_same s f this :
  payloads s (update s f this) = f (payloads s this).
Proof.
  destruct s; unfold update, payloads; [done |].
  by destruct (rhsIsLhs this) eqn:E; simpl; rewrite E.
Qed.

Lemma payloads000_update_other s s' f this :
  s ≠ s' →
  payloads s' (update s f this)
  = if rhsIsLhs this then f (payloads s' this) else payloads s' this.
Proof.
  destruct s, s'; try done; intros _; unfold update, payloads;
    by destruct (rhsIsLhs this) eqn:E; simpl; rewrite ?E.
Qed.

Lemma update000_update s f g this :
  update s f (update s g this) = update s (λ m, f (g m)) this.
Proof.
  destruct s; unfold update; [done |].
  by destruct (rhsIsLhs this) eqn:E; simpl; rewrite E.
Qed.

(** An add on the other side at an id other than the pushed one, or on a
    table that is not shared, leaves the array being walked as it is. *)
Lemma dataAt_add own inv id inverseEntry inverseIsMany r this :
  own ≠ inv →
  rhsIsLhs this = false ∨ ref_id r ≠ id →
  dataAt own id
    (update inv (λ m, _addToInverse inverseEntry (ref_id r) m inverseIsMany)
       this)
  = dataAt own id this.
Proof.
  intros Hne Hsafe. unfold dataAt.
  rewrite payloads000_update_other by done.
  destruct (rhsIsLhs this); [|done].
  destruct Hsafe as [|Hr]; [done |].
  by rewrite _addToInverse000_other.
Qed.

(** Then the loop of [_populateInverse] returns, within one iteration more
    than the references left, having added the back-reference for each. *)
Lemma populateLoop_returns own inv id inverseEntry inverseIsMany rs :
  own ≠ inv →
  ∀ fuel i this,
    references (dataAt own id this) = rs →
    rhsIsLhs this = false ∨ (∀ r, r ∈ rs → ref_id r ≠ id) →
    length rs - i < fuel →
    populateLoop fuel own id inverseEntry inv inverseIsMany i this
    = Ret (update inv
             (λ m, fold_left
                     (λ m r, _addToInverse inverseEntry (ref_id r) m
                               inverseIsMany)
                     (drop i rs) m)
             this).
Proof.
  intros Hne. induction fuel as [|fuel IH]; intros i this Hrs Hsafe Hfuel;
    [lia |].
  simpl. rewrite Hrs.
  destruct (rs !! i) as [r|] eqn:Hi.
  - assert (Hr : rhsIsLhs this = false ∨ ref_id r ≠ id).
    { destruct Hsafe as [|Hsafe]; [by left | right].
      apply Hsafe. by eapply list_elem_of_lookup_2. }
    rewrite IH.
    + rewrite update000_update. rewrite (drop_S rs r i Hi). done.
    + by rewrite dataAt_add.
    + by rewrite rhsIsLhs_update.
    + apply lookup_lt_Some in Hi. lia.
  - apply lookup_ge_None in Hi. rewrite drop_ge by done. simpl.
    by rewrite update000_id.
Qed.
End Part000Ledger.

Section Part000FlushOne.
Import Part000 Part000.RelationshipPayloads.
Variable store : Store.

Lemma sameNames_refl a : sameNames a a.
Proof. by repeat split. Qed.

Lemma sameNames_trans a b c : sameNames a b → sameNames b c → sameNames a c.
Proof.
  intros (?&?&?&?&?&?) (?&?&?&?&?&?). repeat split; congruence.
Qed.

Lemma sameNames_update s f this : sameNames (update s f this) this.
Proof.
  destruct s; unfold update; [by repeat split |].
  by destruct (rhsIsLhs this) eqn:E; repeat split.
Qed.

Lemma sameNames_isLhs a b modelName relationshipName :
  sameNames a b →
  isLhs a modelName relationshipName = isLhs b modelName relationshipName.
Proof. intros (E1&E2&_). unfold isLhs. by rewrite E1, E2. Qed.

Lemma sameNames_inverseIsManyFor000 a b w :
  sameNames a b → inverseIsManyFor000 store a w = inverseIsManyFor000 store b w.
Proof.
  intros H. unfold inverseIsManyFor000. rewrite (sameNames_isLhs a b _ _ H).
  destruct H as (E1&E2&E3&E4&_).
  unfold _rhsRelationshipIsMany, _lhsRelationshipIsMany.
  by rewrite E1, E2, E3, E4.
Qed.

Lemma sameNames_flushedOne000 this w b : sameNames (flushedOne000 this w b) this.
Proof.
  unfold flushedOne000.
  eapply sameNames_trans; [apply sameNames_update |].
  eapply sameNames_trans; [apply sameNames_update |].
  apply sameNames_update.
Qed.

Lemma ownSide000_otherSide this modelName relationshipName :
  ownSide this modelName relationshipName
  ≠ otherSide this modelName relationshipName.
Proof. unfold ownSide, otherSide. by destruct (isLhs _ _ _). Qed.

(** part_000: the flush of one push returns, within one loop iteration more
    than the references pushed, once the cardinality getter answers, unless
    the tables are shared and the pushed data names the pushed id. *)
Lemma flushOne000_returns fuel this w inverseIsMany :
  inverseIsManyFor000 store this w = Ret inverseIsMany →
  rhsIsLhs this = false ∨ ¬ lists (data (work_relationshipData w)) (work_id w) →
  length (references (data (work_relationshipData w))) < fuel →
  flushOne store fuel this w = Ret (flushedOne000 this w inverseIsMany).
Proof.
  intros Hmany Hsafe Hfuel.
  unfold flushOne, flushedOne000, inverseIsManyFor000, ownSide, otherSide in *.
  assert (Hbody : ∀ own inv,
    own ≠ inv →
    let this1 :=
      update own
        <[work_id w := {| payload := work_relationshipData w;
                          inverse := false |}]>
        (update inv (_removeInverse (work_id w) (payloads own this !! work_id w))
           this) in
    _populateInverse fuel own (work_id w)
      {| ref_id := work_id w; ref_type := work_modelName w |} inv
      inverseIsMany this1
    = Ret (update inv
             (λ m, fold_left
                     (λ m r, _addToInverse (backReference w) (ref_id r) m
                               inverseIsMany)
                     (references (data (work_relationshipData w))) m)
             this1)).
  { intros own inv Hne this1.
    assert (Hat : dataAt own (work_id w) this1 = data (work_relationshipData w)).
    { unfold dataAt, this1. by rewrite payloads000_update_same, lookup_insert_eq. }
    assert (Hsafe1 :
      rhsIsLhs this1 = false
      ∨ ∀ r, r ∈ references (data (work_relationshipData w)) →
             ref_id r ≠ work_id w).
    { unfold this1. rewrite !rhsIsLhs_update.
      destruct Hsafe as [|Hsafe]; [by left | right].
      intros r Hr E. apply Hsafe. by exists r. }
    unfold _populateInverse. rewrite Hat.
    destruct (data (work_relationshipData w)) as [|r|rs] eqn:Hd; simpl.
    - by rewrite update000_id.
    - done.
    - rewrite (populateLoop_returns own inv (work_id w) _ inverseIsMany rs);
        [done | done | by rewrite Hat | done | simpl in Hfuel; lia]. }
  destruct (isLhs this _ _).
  - rewrite !_rhsRelationshipIsMany_update, Hmany. simpl.
    by apply (Hbody Lhs Rhs).
  - rewrite !_lhsRelationshipIsMany_update, Hmany. simpl.
    by apply (Hbody Rhs Lhs).
Qed.

Variable this : t.
Variable w : Work.
Variable inverseIsMany : bool.
Let own := ownSide this (work_modelName w) (work_relationshipName w).
Let inv := otherSide this (work_modelName w) (work_relationshipName w).
Let entry := {| payload := work_relationshipData w; inverse := false |}.
Hypothesis safe :
  rhsIsLhs this = false ∨ ¬ lists (data (work_relationshipData w)) (work_id w).

Lemma flushedOne000_distinct :
  rhsIsLhs this = false →
  payloads own (flushedOne000 this w inverseIsMany)
  = <[work_id w := entry]> (payloads own this)
  ∧ payloads inv (flushedOne000 this w inverseIsMany)
    = fold_left
        (λ m r, _addToInverse (backReference w) (ref_id r) m inverseIsMany)
        (references (data (work_relationshipData w)))
        (_removeInverse (work_id w) (payloads own this !! work_id w)
           (payloads inv this)).
Proof.
  intros Hre. unfold flushedOne000. fold own inv.
  assert (Hne : own ≠ inv) by apply ownSide000_otherSide.
  split.
  - rewrite payloads000_update_other, !rhsIsLhs_update, Hre by done.
    rewrite payloads000_update_same.
    by rewrite payloads000_update_other, Hre by done.
  - rewrite payloads000_update_same.
    rewrite payloads000_update_other, !rhsIsLhs_update, Hre by done.
    by rewrite payloads000_update_same.
Qed.

Lemma flushedOne000_shared s :
  rhsIsLhs this = true →
  payloads s (flushedOne000 this w inverseIsMany)
  = fold_left
      (λ m r, _addToInverse (backReference w) (ref_id r) m inverseIsMany)
      (references (data (work_relationshipData w)))
      (<[work_id w := entry]>
         (_removeInverse (work_id w) (_lhsPayloads this !! work_id w)
            (_lhsPayloads this))).
Proof.
  intros Hre. unfold flushedOne000. fold own inv.
  rewrite payloads000_reflexive by (by rewrite !rhsIsLhs_update).
  rewrite (payloads000_reflexive own this) by done.
  rewrite !update000_reflexive by (by rewrite ?rhsIsLhs_update).
  done.
Qed.

Lemma pushed_ids_differ :
  rhsIsLhs this = true →
  ∀ r, r ∈ references (data (work_relationshipData w)) → ref_id r ≠ work_id w.
Proof.
  intros Hre r Hr E. pose proof safe as [|Hsafe]; [congruence |].
  apply Hsafe. by exists r.
Qed.

(** The addressed side holds the pushed fragment, flagged as pushed
    directly. *)
Lemma flushedOne000_own :
  payloads own (flushedOne000 this w inverseIsMany) !! work_id w = Some entry.
Proof.
  pose proof pushed_ids_differ as Hdiff.
  destruct (rhsIsLhs this) eqn:Hre.
  - rewrite flushedOne000_shared by done.
    rewrite adds000_other by (by apply Hdiff).
    apply lookup_insert_eq.
  - destruct (flushedOne000_distinct Hre) as [-> _]. apply lookup_insert_eq.
Qed.

Lemma unlisted000_lookup (m m' : gmap string Entry) k id :
  m !! k = m' !! k → unlisted000 m' k id → unlisted000 m k id.
Proof. unfold unlisted000. by intros ->. Qed.

Lemma flushedOne000_strikes e r :
  payloads own this !! work_id w = Some e →
  r ∈ references (data (payload e)) →
  (∀ r', r' ∈ references (data (work_relationshipData w)) →
         ref_id r' ≠ ref_id r) →
  unlisted000 (payloads inv (flushedOne000 this w inverseIsMany)) (ref_id r)
    (work_id w).
Proof.
  clear safe. intros He Hr Hnew. destruct (rhsIsLhs this) eqn:Hre.
  - rewrite flushedOne000_shared by done.
    eapply unlisted000_lookup; [by apply adds000_other |].
    rewrite payloads000_reflexive in He by done. rewrite He.
    destruct (decide (ref_id r = work_id w)) as [E|NE].
    + intros e'. rewrite E, lookup_insert_eq. intros [= <-] (r' & Hr' & Hid).
      apply (Hnew r' Hr'). congruence.
    + eapply unlisted000_lookup; [by apply lookup_insert_ne |].
      by apply _removeInverse000_strikes.
  - destruct (flushedOne000_distinct Hre) as [_ ->].
    eapply unlisted000_lookup; [by apply adds000_other |].
    rewrite He. by apply _removeInverse000_strikes.
Qed.

Lemma flushedOne000_keeps_unlisted k :
  unlisted000 (payloads inv this) k (work_id w) →
  (∀ r', r' ∈ references (data (work_relationshipData w)) → ref_id r' ≠ k) →
  unlisted000 (payloads inv (flushedOne000 this w inverseIsMany)) k (work_id w).
Proof.
  clear safe. intros Hk Hnew. destruct (rhsIsLhs this) eqn:Hre.
  - rewrite flushedOne000_shared by done.
    eapply unlisted000_lookup; [by apply adds000_other |].
    rewrite payloads000_reflexive in Hk by done.
    destruct (decide (k = work_id w)) as [E|NE].
    + intros e'. rewrite E, lookup_insert_eq. intros [= <-] (r' & Hr' & Hid).
      apply (Hnew r' Hr'). congruence.
    + eapply unlisted000_lookup; [by apply lookup_insert_ne |].
      by apply _removeInverse000_keeps_unlisted.
  - destruct (flushedOne000_distinct Hre) as [_ ->].
    eapply unlisted000_lookup; [by apply adds000_other |].
    by apply _removeInverse000_keeps_unlisted.
Qed.
End Part000FlushOne.

Section Part000RepeatedPush.
Import Part000 Part000.RelationshipPayloads.
Variable store : Store.

Lemma flushLoop_app fuel q l : ∀ this,
  flushLoop store fuel (q ++ l) this
  = (this ←! flushLoop store fuel q this; flushLoop store fuel l this).
Proof.
  induction q as [|w q IH]; intros this; [done |].
  simpl. destruct (flushOne store fuel this w); simpl; auto.
Qed.

Lemma populateLoop_sameNames own inv id inverseEntry inverseIsMany :
  ∀ fuel i this this',
    populateLoop fuel own id inverseEntry inv inverseIsMany i this = Ret this' →
    sameNames this' this.
Proof.
  induction fuel as [|fuel IH]; intros i this this'; [done |].
  simpl. destruct (references (dataAt own id this) !! i) as [r|].
  - intros H. apply IH in H.
    eapply sameNames_trans; [exact H | apply sameNames_update].
  - intros [= <-]. apply sameNames_refl.
Qed.

Lemma flushOne_sameNames fuel this w this' :
  flushOne store fuel this w = Ret this' → sameNames this' this.
Proof.
  assert (Hbody : ∀ own inv inverseEntry inverseIsMany this0,
    _populateInverse fuel own (work_id w) inverseEntry inv inverseIsMany this0
    = Ret this' → sameNames this' this0).
  { intros own inv inverseEntry inverseIsMany this0. unfold _populateInverse.
    destruct (dataAt own (work_id w) this0).
    - intros [= <-]. apply sameNames_refl.
    - intros [= <-]. apply sameNames_update.
    - apply populateLoop_sameNames. }
  unfold flushOne.
  destruct (isLhs this _ _).
  - destruct (_rhsRelationshipIsMany store _); simpl; [|done..].
    intros H. apply Hbody in H.
    eapply sameNames_trans; [exact H |].
    eapply sameNames_trans; apply sameNames_update.
  - destruct (_lhsRelationshipIsMany store _); simpl; [|done..].
    intros H. apply Hbody in H.
    eapply sameNames_trans; [exact H |].
    eapply sameNames_trans; apply sameNames_update.
Qed.

Lemma flushLoop_sameNames fuel q : ∀ this this',
  flushLoop store fuel q this = Ret this' → sameNames this' this.
Proof.
  induction q as [|w q IH]; intros this this'; simpl.
  - intros [= <-]. apply sameNames_refl.
  - destruct (flushOne store fuel this w) as [this1| |] eqn:E; simpl; [|done..].
    intros H. apply IH in H. apply flushOne_sameNames in E.
    by eapply sameNames_trans.
Qed.

Lemma sameNames_ownSide a b modelName relationshipName :
  sameNames a b →
  ownSide a modelName relationshipName = ownSide b modelName relationshipName.
Proof. intros H. unfold ownSide. by rewrite (sameNames_isLhs a b _ _ H). Qed.

Lemma sameNames_otherSide a b modelName relationshipName :
  sameNames a b →
  otherSide a modelName relationshipName
  = otherSide b modelName relationshipName.
Proof. intros H. unfold otherSide. by rewrite (sameNames_isLhs a b _ _ H). Qed.

(** part_000: three pushes [P1], [P2], [P3] for one (modelName, id,
    relationshipName), then a read, on a ledger whose earlier queue flushes.
    Unless the tables are shared and one of the three names the pushed id,
    and given a loop bound above the three lengths, the read returns [P3]
    flagged as pushed directly, the queue is empty afterwards, and the slot
    of a reference of [P1] or [P2] whose id [P3] does not name no longer
    lists [id] on the other side. *)
Lemma three_pushes_then_get000 fuel this modelName id relationshipName P1 P2 P3
    inverseIsMany queued :
  let work d :=
    {| work_modelName := modelName; work_id := id;
       work_relationshipName := relationshipName;
       work_relationshipData := d |} in
  let pushed :=
    push (push (push this modelName id relationshipName P1) modelName id
            relationshipName P2) modelName id relationshipName P3 in
  flushLoop store fuel (_pendingPayloads this) (set_pendingPayloads [] this)
  = Ret queued →
  inverseIsManyFor000 store this (work P1) = Ret inverseIsMany →
  rhsIsLhs this = false
  ∨ (¬ lists (data P1) id ∧ ¬ lists (data P2) id ∧ ¬ lists (data P3) id) →
  length (references (data P1)) < fuel →
  length (references (data P2)) < fuel →
  length (references (data P3)) < fuel →
  ∃ this',
    get store fuel pushed modelName id relationshipName
    = Ret (Some {| payload := P3; inverse := false |}, this')
    ∧ _pendingPayloads this' = []
    ∧ ∀ r,
        r ∈ references (data P1) ∨ r ∈ references (data P2) →
        (∀ r3, r3 ∈ references (data P3) → ref_id r3 ≠ ref_id r) →
        unlisted000 (payloads (otherSide this modelName relationshipName) this')
          (ref_id r) id.
Proof.
  intros work pushed Hqueued Hmany Hsafe Hf1 Hf2 Hf3.
  set (s1 := flushedOne000 queued (work P1) inverseIsMany).
  set (s2 := flushedOne000 s1 (work P2) inverseIsMany).
  set (s3 := flushedOne000 s2 (work P3) inverseIsMany).
  set (base := set_pendingPayloads [] this).
  assert (N0 : sameNames queued base)
    by (by apply flushLoop_sameNames in Hqueued).
  assert (N1 : sameNames s1 base)
    by (eapply sameNames_trans; [apply sameNames_flushedOne000 | done]).
  assert (N2 : sameNames s2 base)
    by (eapply sameNames_trans; [apply sameNames_flushedOne000 | done]).
  assert (N3 : sameNames s3 base)
    by (eapply sameNames_trans; [apply sameNames_flushedOne000 | done]).
  assert (Hsafe' : ∀ s P,
    sameNames s base → P = P1 ∨ P = P2 ∨ P = P3 →
    rhsIsLhs s = false ∨ ¬ lists (data (work_relationshipData (work P))) (work_id (work P))).
  { intros s P (_&_&_&_&E&_) HP. rewrite E.
    change (rhsIsLhs base) with (rhsIsLhs this).
    destruct Hsafe as [|(?&?&?)]; [by left | right].
    by destruct HP as [->|[->| ->]]. }
  assert (Hstep : ∀ s P,
    sameNames s base → P = P1 ∨ P = P2 ∨ P = P3 →
    flushOne store fuel s (work P) = Ret (flushedOne000 s (work P) inverseIsMany)).
  { intros s P Hs HP. apply flushOne000_returns.
    - rewrite (sameNames_inverseIsManyFor000 store s base _ Hs). exact Hmany.
    - by apply Hsafe'.
    - by destruct HP as [->|[->| ->]]. }
  assert (Hflush : _flushPending store fuel pushed = Ret s3).
  { unfold _flushPending.
    replace (_pendingPayloads pushed)
      with (_pendingPayloads this ++ [work P1; work P2; work P3])
      by (unfold pushed, push; simpl; by rewrite <- !app_assoc).
    replace (set_pendingPayloads [] pushed) with (set_pendingPayloads [] this)
      by done.
    rewrite flushLoop_app, Hqueued. simpl.
    rewrite (Hstep queued P1) by auto. simpl. fold s1.
    rewrite (Hstep s1 P2) by auto. simpl. fold s2.
    rewrite (Hstep s2 P3) by auto. done. }
  assert (Own : ∀ s, sameNames s base →
                     ownSide s modelName relationshipName
                     = ownSide this modelName relationshipName)
    by (intros s Hs; exact (sameNames_ownSide s base _ _ Hs)).
  assert (Inv : ∀ s, sameNames s base →
                     otherSide s modelName relationshipName
                     = otherSide this modelName relationshipName)
    by (intros s Hs; exact (sameNames_otherSide s base _ _ Hs)).
  assert (H1 : payloads (ownSide this modelName relationshipName) s1 !! id
               = Some {| payload := P1; inverse := false |}).
  { rewrite <- (Own queued N0).
    apply (flushedOne000_own queued (work P1) inverseIsMany). by apply Hsafe'; auto. }
  assert (H2 : payloads (ownSide this modelName relationshipName) s2 !! id
               = Some {| payload := P2; inverse := false |}).
  { rewrite <- (Own s1 N1).
    apply (flushedOne000_own s1 (work P2) inverseIsMany). by apply Hsafe'; auto. }
  assert (H3 : payloads (ownSide this modelName relationshipName) s3 !! id
               = Some {| payload := P3; inverse := false |}).
  { rewrite <- (Own s2 N2).
    apply (flushedOne000_own s2 (work P3) inverseIsMany). by apply Hsafe'; auto. }
  exists s3. split; [|split].
  - unfold get. rewrite Hflush. simpl.
    rewrite (sameNames_isLhs s3 base _ _ N3).
    change (isLhs base modelName relationshipName)
      with (isLhs this modelName relationshipName).
    unfold ownSide in H3.
    destruct (isLhs this modelName relationshipName); by rewrite <- H3.
  - destruct N3 as (_&_&_&_&_&->). done.
  - assert (Hstrike2 : ∀ r2,
      r2 ∈ references (data P2) →
      (∀ r3, r3 ∈ references (data P3) → ref_id r3 ≠ ref_id r2) →
      unlisted000 (payloads (otherSide this modelName relationshipName) s3)
        (ref_id r2) id).
    { intros r2 Hr2 Hnew. rewrite <- (Inv s2 N2).
      apply (flushedOne000_strikes s2 (work P3) inverseIsMany
               {| payload := P2; inverse := false |} r2); [|done..].
      simpl. by rewrite (Own s2 N2). }
    intros r [Hr|Hr] Hnew; [|by apply Hstrike2].
    destruct (decide (ref_id r ∈ ref_id <$> references (data P2))) as [Hin|Hout].
    + apply list_elem_of_fmap in Hin as (r2 & E & Hr2). rewrite E.
      apply Hstrike2; [done |]. by rewrite <- E.
    + rewrite <- (Inv s2 N2).
      apply (flushedOne000_keeps_unlisted s2 (work P3) inverseIsMany); [|done].
      simpl. rewrite (Inv s2 N2), <- (Inv s1 N1).
      apply (flushedOne000_strikes s1 (work P2) inverseIsMany
               {| payload := P1; inverse := false |} r); [|done |].
      * simpl. by rewrite (Own s1 N1).
      * simpl. intros r2 Hr2 E. apply Hout.
        apply list_elem_of_fmap. by exists r2.
Qed.
End Part000RepeatedPush.

Section Part000Unload.
Import Part000 Part000.RelationshipPayloads.
Variable store : Store.

Lemma _inverseLoaded000_spec entry :
  _inverseLoaded store entry = true
  ↔ ∃ e r, entry = Some e ∧ r ∈ references (data (payload e))
           ∧ store_hasRecordForId store (ref_type r) (ref_id r) = true.
Proof.
  unfold _inverseLoaded, _hasRecordForId. split.
  - destruct entry as [[[d] b]|]; [|done].
    destruct d as [|r|rs]; simpl; [done | |].
    + intros H. exists {| payload := {| data := DataOne r |}; inverse := b |}, r.
      split_and!; [done | apply list_elem_of_here | done].
    + intros H. apply existsb_exists in H as (r & Hin & Hr).
      exists {| payload := {| data := DataMany rs |}; inverse := b |}, r.
      split_and!; [done | by apply list_elem_of_In | done].
  - intros ([[d] b] & r & -> & Hin & Hr). destruct d as [|r0|rs]; simpl in *.
    + by apply elem_of_nil in Hin.
    + by apply list_elem_of_singleton in Hin as ->.
    + apply existsb_exists. exists r. split; [by apply list_elem_of_In | done].
Qed.

Lemma unlisted000_delete (m : gmap string Entry) k k' id :
  unlisted000 m k id → unlisted000 (delete k' m) k id.
Proof.
  intros Hm e. destruct (decide (k' = k)) as [->|Hne].
  - by rewrite lookup_delete_eq.
  - rewrite lookup_delete_ne by done. apply Hm.
Qed.

(** part_000 unloads as relationships-payloads.js does, whenever its flush
    returns: with some referenced entity resident the ledger stays the
    flushed one; with none, the entry at [id] is gone and the slot of every
    referenced entity no longer lists [id] on the other side. *)
Lemma unload000_removes_unless_an_inverse_is_resident fuel this modelName id
    relationshipName flushed :
  _flushPending store fuel this = Ret flushed →
  let own := ownSide this modelName relationshipName in
  let inv := otherSide this modelName relationshipName in
  let entry := payloads own flushed !! id in
  let someResident :=
    ∃ e r, entry = Some e ∧ r ∈ references (data (payload e))
           ∧ store_hasRecordForId store (ref_type r) (ref_id r) = true in
  ∃ after,
    unload store fuel this modelName id relationshipName = Ret after
    ∧ (someResident → after = flushed)
    ∧ (¬ someResident →
       payloads own after !! id = None
       ∧ ∀ e r, entry = Some e → r ∈ references (data (payload e)) →
           unlisted000 (payloads inv after) (ref_id r) id).
Proof.
  intros Hflush own inv entry someResident.
  assert (Hlhs : isLhs flushed modelName relationshipName
                 = isLhs this modelName relationshipName).
  { apply flushLoop_sameNames in Hflush.
    by rewrite (sameNames_isLhs _ _ _ _ Hflush). }
  exists (_unload store id own inv flushed). split.
  { unfold unload. rewrite Hflush. simpl. rewrite Hlhs.
    unfold own, inv, ownSide, otherSide.
    by destruct (isLhs this modelName relationshipName). }
  assert (Hloaded : _inverseLoaded store entry = true ↔ someResident)
    by apply _inverseLoaded000_spec.
  assert (Hne : own ≠ inv) by apply ownSide000_otherSide.
  unfold _unload. fold entry. split.
  - intros H. apply Hloaded in H. by rewrite H.
  - intros H.
    destruct (_inverseLoaded store entry); [by destruct H; apply Hloaded |].
    simpl. split.
    + rewrite payloads000_update_same. apply lookup_delete_eq.
    + intros e r He Hr. rewrite He.
      rewrite payloads000_update_other, rhsIsLhs_update,
        payloads000_update_same by done.
      destruct (rhsIsLhs flushed);
        [apply unlisted000_delete |]; by apply _removeInverse000_strikes.
Qed.
End Part000Unload.

(** * Further properties of relationships-payloads.js *)

Section PayloadsReads.
Import Payloads.RelationshipPayloads.

Lemma flush_after_push this modelName id relationshipName relationshipData :
_flushPending (push this modelName id relationshipName relationshipData)
= flushOne (_flushPending this)
    {| work_modelName := modelName; work_id := id;
       work_relationshipName := relationshipName;
       work_relationshipData := relationshipData |}.
Proof. by rewrite _flushPending_push, <- _flushPending_fold. Qed.

Lemma flush_flushed this : _flushPending (_flushPending this) = _flushPending this.
Proof. apply _flushPending_nil, _flushPending_done. Qed.

Lemma ownSide_flushPending this modelName relationshipName :
ownSide (_flushPending this) modelName relationshipName
= ownSide this modelName relationshipName.
Proof. unfold ownSide. by rewrite isLhs_flushPending. Qed.

Lemma otherSide_flushPending this modelName relationshipName :
otherSide (_flushPending this) modelName relationshipName
= otherSide this modelName relationshipName.
Proof. unfold otherSide. by rewrite isLhs_flushPending. Qed.

Lemma inverseIsManyFor_flushOne this w' w :
inverseIsManyFor (flushOne this w') w = inverseIsManyFor this w.
Proof.
unfold inverseIsManyFor. rewrite isLhs_flushOne.
unfold flushOne. destruct (isLhs this (work_modelName w') _); cbv zeta;
  by rewrite !Payloads_lhsRelationshipIsMany_update,
       !Payloads_rhsRelationshipIsMany_update.
Qed.

Lemma inverseIsManyFor_flushPending this w :
inverseIsManyFor (_flushPending this) w = inverseIsManyFor this w.
Proof.
rewrite _flushPending_fold.
replace (inverseIsManyFor this w)
  with (inverseIsManyFor (set_pendingPayloads [] this) w) by done.
generalize (set_pendingPayloads [] this).
induction (_pendingPayloads this) as [|w' ws IH]; intros s; [done |].
simpl. by rewrite IH, inverseIsManyFor_flushOne.
Qed.
End PayloadsReads.

(** X1.  relationships-payloads.js, [get]: a read leaves the queue empty,
    and reading again, for the same or any other entry, changes nothing
    more; the same read returns the same entry. *)
Theorem get_is_idempotent :
  ∀ this modelName id relationshipName otherModelName otherId
    otherRelationshipName,
    let first :=
      Payloads.RelationshipPayloads.get this modelName id relationshipName in
    Payloads.RelationshipPayloads._pendingPayloads first.2 = []
    ∧ Payloads.RelationshipPayloads.get first.2 modelName id relationshipName
      = first
    ∧ (Payloads.RelationshipPayloads.get first.2 otherModelName otherId
         otherRelationshipName).2 = first.2.
Proof.
  intros this modelName id relationshipName otherModelName otherId
    otherRelationshipName first.
  unfold first. rewrite !get_flushed. simpl.
  rewrite flush_flushed, ownSide_flushPending.
  split; [apply _flushPending_done | done].
Qed.

(** X2.  relationships-payloads.js, [push] then [get]: a read between two
    pushes is not observable.  Whatever is read after a push is the same,
    ledger included, whether or not the ledger was read (and so flushed)
    before that push. *)
Theorem reads_do_not_interfere :
  ∀ this modelName0 id0 relationshipName0 modelName id relationshipName
    relationshipData modelName' id' relationshipName',
    Payloads.RelationshipPayloads.get
      (Payloads.RelationshipPayloads.push
         (Payloads.RelationshipPayloads.get this modelName0 id0
            relationshipName0).2
         modelName id relationshipName relationshipData)
      modelName' id' relationshipName'
    = Payloads.RelationshipPayloads.get
        (Payloads.RelationshipPayloads.push this modelName id relationshipName
           relationshipData)
        modelName' id' relationshipName'.
Proof.
  intros. rewrite !get_flushed. simpl.
  rewrite !flush_after_push, flush_flushed.
  replace (Payloads.RelationshipPayloads.ownSide
             (Payloads.RelationshipPayloads.push
                (Payloads.RelationshipPayloads._flushPending this) modelName id
                relationshipName relationshipData) modelName' relationshipName')
    with (Payloads.RelationshipPayloads.ownSide
            (Payloads.RelationshipPayloads._flushPending this) modelName'
            relationshipName') by done.
  rewrite ownSide_flushPending. done.
Qed.

(** X3.  relationships-payloads.js, [get] on a reflexive ledger: both sides
    are one table, so a read does not depend on the model and relationship
    names it is asked with. *)
Theorem reflexive_sides_coincide :
  ∀ this modelName id relationshipName otherModelName otherRelationshipName,
    Payloads.RelationshipPayloads._isReflexive this = true →
    Payloads.RelationshipPayloads.get this modelName id relationshipName
    = Payloads.RelationshipPayloads.get this otherModelName id
        otherRelationshipName.
Proof.
  intros this modelName id relationshipName otherModelName
    otherRelationshipName Hre.
  rewrite !get_flushed.
  by rewrite !payloads_reflexive by (by rewrite _isReflexive_flushPending).
Qed.

Lemma reflexive_sides_coincide_witness :
  Payloads.RelationshipPayloads.get
    (Payloads.RelationshipPayloads.push friendsLedger "user" "1" "friends"
       {| data := DataMany [user "2"] |}) "user" "2" "friends"
  = Payloads.RelationshipPayloads.get
      (Payloads.RelationshipPayloads.push friendsLedger "user" "1" "friends"
         {| data := DataMany [user "2"] |}) "hobby" "2" "user".
Proof. by apply reflexive_sides_coincide. Defined.

(** X4.  relationships-payloads.js, [push] then [get]: a read right after a
    push, for the entry pushed, returns the fragment exactly as pushed, on
    every ledger and whatever was queued or stored before (on a reflexive
    ledger too, where a reference to the pushed id adds nothing to it). *)
Theorem last_push_is_what_get_returns :
  ∀ this modelName id relationshipName relationshipData,
    (Payloads.RelationshipPayloads.get
       (Payloads.RelationshipPayloads.push this modelName id relationshipName
          relationshipData)
       modelName id relationshipName).1
    = Some relationshipData.
Proof. apply get_after_push. Qed.

Section PayloadsMapsMore.
Import Payloads.RelationshipPayloads.
Implicit Types m : gmap string Payload.

Lemma holdsMany_holds m k r : holdsMany m k r → holds m k r.
Proof. intros (rs & E & Hr). by exists {| data := DataMany rs |}. Qed.

Lemma holdsMany_lookup m m' k r :
m !! k = m' !! k → holdsMany m' k r → holdsMany m k r.
Proof. unfold holdsMany. by intros ->. Qed.

Lemma notArray_lookup m m' k : m !! k = m' !! k → notArray m' k → notArray m k.
Proof. unfold notArray. by intros ->. Qed.

Lemma _removeFromInverse_keeps_holdsMany id inverseId m k r :
ref_id r ≠ id → holdsMany m k r →
holdsMany (_removeFromInverse id inverseId m) k r.
Proof.
intros Hr (rs & E & Hin). destruct (decide (k = inverseId)) as [->|Hk].
- unfold _removeFromInverse. rewrite E. simpl.
  exists (filter (λ x, ref_id x ≠ id) rs). rewrite lookup_insert_eq.
  split; [done |]. by apply list_elem_of_filter.
- eapply holdsMany_lookup; [by apply _removeFromInverse_other |]. by exists rs.
Qed.

Lemma _removeInverse_keeps_holdsMany id payload m k r :
ref_id r ≠ id → holdsMany m k r → holdsMany (_removeInverse id payload m) k r.
Proof.
intros Hr. destruct payload as [p|]; [|done]. rewrite _removeInverse_fold.
revert m. induction (references (data p)) as [|x xs IH]; intros m Hm; [done |].
simpl. by apply IH, _removeFromInverse_keeps_holdsMany.
Qed.

Lemma _addToInverse_keeps_holdsMany isReflexive inversePayload inverseId m
    inverseIsMany k r :
holdsMany m k r →
holdsMany (_addToInverse isReflexive inversePayload inverseId m inverseIsMany)
  k r.
Proof.
intros (rs & E & Hin). destruct (decide (k = inverseId)) as [->|Hk].
- unfold _addToInverse. destruct (_ && _); [by exists rs |].
  rewrite E. simpl. exists (rs ++ [inversePayload]). rewrite lookup_insert_eq.
  split; [done |]. apply elem_of_app. by left.
- eapply holdsMany_lookup; [by apply _addToInverse_other |]. by exists rs.
Qed.

Lemma _addToInverse_holdsMany isReflexive inversePayload inverseId m :
isReflexive = false ∨ ref_id inversePayload ≠ inverseId →
holdsMany (_addToInverse isReflexive inversePayload inverseId m true)
  inverseId inversePayload.
Proof.
intros Hguard. unfold holdsMany, _addToInverse.
replace (isReflexive && bool_decide (ref_id inversePayload = inverseId))
  with false.
2:{ destruct Hguard as [->|Hne]; [done |].
    rewrite bool_decide_eq_false_2 by done. by destruct isReflexive. }
destruct (data <$> m !! inverseId) as [[| |existingData]|];
  rewrite lookup_insert_eq; eexists; (split; [done |]);
  first [apply list_elem_of_here
        | apply elem_of_app; right; apply list_elem_of_here].
Qed.

Lemma _populateInverse_keeps_holdsMany isReflexive d inversePayload m
    inverseIsMany k r :
holdsMany m k r →
holdsMany (_populateInverse isReflexive d inversePayload m inverseIsMany) k r.
Proof.
rewrite _populateInverse_fold.
revert m. induction (references (data d)) as [|x xs IH]; intros m Hm; [done |].
simpl. by apply IH, _addToInverse_keeps_holdsMany.
Qed.

Lemma _populateInverse_holdsMany isReflexive d inversePayload m r :
r ∈ references (data d) →
isReflexive = false ∨ ref_id inversePayload ≠ ref_id r →
holdsMany (_populateInverse isReflexive d inversePayload m true) (ref_id r)
  inversePayload.
Proof.
rewrite _populateInverse_fold. intros Hr Hguard.
revert m. induction (references (data d)) as [|r' rs IH]; intros m.
- by apply elem_of_nil in Hr.
- simpl. apply elem_of_cons in Hr as [->|Hr]; [|by apply IH].
  pose proof (_populateInverse_keeps_holdsMany isReflexive
                {| data := DataMany rs |} inversePayload
                (_addToInverse isReflexive inversePayload (ref_id r') m true)
                true (ref_id r') inversePayload) as K.
  rewrite _populateInverse_fold in K. by apply K, _addToInverse_holdsMany.
Qed.

Lemma _removeFromInverse_keeps_notArray id inverseId m k :
notArray m k → notArray (_removeFromInverse id inverseId m) k.
Proof.
intros Hm. destruct (decide (k = inverseId)) as [->|Hk].
2:{ eapply notArray_lookup; [by apply _removeFromInverse_other | done]. }
unfold _removeFromInverse.
destruct (m !! inverseId) as [[d]|] eqn:E; simpl; [|done].
destruct d as [|r|rs]; simpl; [done | |].
- intros e rs. rewrite lookup_insert_eq. by intros [= <-].
- by destruct (Hm _ rs E).
Qed.

Lemma _removeInverse_keeps_notArray id payload m k :
notArray m k → notArray (_removeInverse id payload m) k.
Proof.
destruct payload as [p|]; [|done]. rewrite _removeInverse_fold.
revert m. induction (references (data p)) as [|x xs IH]; intros m Hm; [done |].
simpl. by apply IH, _removeFromInverse_keeps_notArray.
Qed.

(** With a to-one inverse, an add leaves a slot that held no array either
    as it was or holding exactly the back-reference. *)
Lemma _addToInverse_one isReflexive inversePayload inverseId m k :
notArray m k →
let m' := _addToInverse isReflexive inversePayload inverseId m false in
notArray m' k
∧ (k = inverseId →
   isReflexive = false ∨ ref_id inversePayload ≠ inverseId →
   m' !! k = Some {| data := DataOne inversePayload |})
∧ (m !! k = Some {| data := DataOne inversePayload |} →
   m' !! k = Some {| data := DataOne inversePayload |}).
Proof.
intros Hm m'. subst m'. destruct (decide (k = inverseId)) as [->|Hk].
2:{ rewrite _addToInverse_other by done. split; [|done].
    eapply notArray_lookup; [by apply _addToInverse_other | done]. }
unfold _addToInverse.
destruct (isReflexive && bool_decide (ref_id inversePayload = inverseId))
  eqn:G.
{ split; [done |]. split; [|done]. intros _ [->|Hne]; [done |].
  rewrite bool_decide_eq_false_2 in G by done. by destruct isReflexive. }
destruct (m !! inverseId) as [[d]|] eqn:E; simpl.
- destruct d as [|r|rs]; [| |by destruct (Hm _ rs E)];
    rewrite lookup_insert_eq;
    (split; [intros e rs; rewrite lookup_insert_eq; by intros [= <-] | done]).
- rewrite lookup_insert_eq.
  split; [intros e rs; rewrite lookup_insert_eq; by intros [= <-] | done].
Qed.

Lemma _populateInverse_one isReflexive d inversePayload m r :
r ∈ references (data d) →
isReflexive = false ∨ ref_id inversePayload ≠ ref_id r →
notArray m (ref_id r) →
_populateInverse isReflexive d inversePayload m false !! ref_id r
= Some {| data := DataOne inversePayload |}.
Proof.
rewrite _populateInverse_fold. intros Hr Hguard.
assert (K : ∀ rs m,
  notArray m (ref_id r) →
  m !! ref_id r = Some {| data := DataOne inversePayload |} →
  fold_left
    (λ m x, _addToInverse isReflexive inversePayload (ref_id x) m false) rs m
    !! ref_id r
  = Some {| data := DataOne inversePayload |}).
{ induction rs as [|x rs IH]; intros m0 Hn H0; [done |]. simpl.
  destruct (_addToInverse_one isReflexive inversePayload (ref_id x) m0
              (ref_id r) Hn) as (Hn' & _ & Hkeep).
  apply IH; [done | by apply Hkeep]. }
revert m. induction (references (data d)) as [|r' rs IH]; intros m Hn.
- by apply elem_of_nil in Hr.
- simpl.
  destruct (_addToInverse_one isReflexive inversePayload (ref_id r') m
              (ref_id r) Hn) as (Hn' & Hset & _).
  destruct (decide (r = r')) as [<-|Hne].
  + apply K; [done | by apply Hset].
  + apply elem_of_cons in Hr as [|Hr]; [done |]. by apply IH.
Qed.
End PayloadsMapsMore.

Section PayloadsFlushOneMore.
Import Payloads.RelationshipPayloads.
Variable this : t.
Variable w : Work.
Let own := ownSide this (work_modelName w) (work_relationshipName w).
Let inv := otherSide this (work_modelName w) (work_relationshipName w).

(** The flush of a push leaves alone, on both sides, every slot other than
    the pushed id's that neither the entry replaced nor the pushed data
    names. *)
Lemma flushOne_frame side k :
k ≠ work_id w →
(∀ p r, payloads own this !! work_id w = Some p → r ∈ references (data p) →
        ref_id r ≠ k) →
(∀ r, r ∈ references (data (work_relationshipData w)) → ref_id r ≠ k) →
payloads side (flushOne this w) !! k = payloads side this !! k.
Proof.
intros Hk Hold Hnew. unfold own in *.
assert (Hstrike : ∀ m,
  _removeInverse (work_id w)
    (payloads (ownSide this (work_modelName w) (work_relationshipName w)) this
       !! work_id w) m !! k = m !! k).
{ intros m. apply _removeInverse_other. intros p r E Hr. by apply (Hold p r). }
destruct (_isReflexive this) eqn:Hre.
- rewrite flushOne_shared by done.
  rewrite _populateInverse_other, lookup_insert_ne by done.
  rewrite (payloads_reflexive _ this) in Hstrike by done.
  by rewrite Hstrike, payloads_reflexive.
- destruct (flushOne_distinct this w Hre) as [Hown Hinv].
  destruct (decide
              (side = ownSide this (work_modelName w) (work_relationshipName w)))
    as [->|Hside].
  + by rewrite Hown, lookup_insert_ne.
  + assert (side = otherSide this (work_modelName w) (work_relationshipName w))
      as ->.
    { revert Hside. unfold ownSide, otherSide.
      destruct side, (isLhs this _ _); done. }
    by rewrite Hinv, _populateInverse_other, Hstrike.
Qed.

(** With a to-many other side, the slot of a reference pushed is an array
    holding the back-reference. *)
Lemma flushOne_holdsMany r :
inverseIsManyFor this w = true →
r ∈ references (data (work_relationshipData w)) →
_isReflexive this = false ∨ ref_id r ≠ work_id w →
holdsMany (payloads inv (flushOne this w)) (ref_id r) (backReference w).
Proof.
intros Hmany Hr Hguard. unfold inv. destruct (_isReflexive this) eqn:Hre.
- rewrite flushOne_shared, Hmany by done.
  apply _populateInverse_holdsMany; [done |]. right.
  destruct Hguard as [|Hne]; [done |]. simpl. congruence.
- destruct (flushOne_distinct this w Hre) as [_ ->]. rewrite Hmany.
  apply _populateInverse_holdsMany; [done | by left].
Qed.

(** An array of the other side keeps the references of other owners. *)
Lemma flushOne_keeps_holdsMany k r :
ref_id r ≠ work_id w →
_isReflexive this = false ∨ k ≠ work_id w →
holdsMany (payloads inv this) k r →
holdsMany (payloads inv (flushOne this w)) k r.
Proof.
intros Hr Hk Hm. unfold inv in *. destruct (_isReflexive this) eqn:Hre.
- rewrite flushOne_shared by done.
  apply _populateInverse_keeps_holdsMany.
  destruct Hk as [|Hk]; [done |].
  eapply holdsMany_lookup; [by apply lookup_insert_ne |].
  apply _removeInverse_keeps_holdsMany; [done |].
  by rewrite payloads_reflexive in Hm.
- destruct (flushOne_distinct this w Hre) as [_ ->].
  by apply _populateInverse_keeps_holdsMany, _removeInverse_keeps_holdsMany.
Qed.

(** With a to-one other side, the slot of a reference pushed, if it held no
    array, holds exactly the back-reference. *)
Lemma flushOne_one r :
inverseIsManyFor this w = false →
r ∈ references (data (work_relationshipData w)) →
_isReflexive this = false ∨ ref_id r ≠ work_id w →
notArray (payloads inv this) (ref_id r) →
payloads inv (flushOne this w) !! ref_id r
= Some {| data := DataOne (backReference w) |}.
Proof.
intros Hmany Hr Hguard Hn. unfold inv in *. destruct (_isReflexive this) eqn:Hre.
- rewrite flushOne_shared, Hmany by done.
  destruct Hguard as [|Hne]; [done |].
  apply _populateInverse_one; [done | right; simpl; congruence |].
  eapply notArray_lookup; [by apply lookup_insert_ne |].
  apply _removeInverse_keeps_notArray. by rewrite payloads_reflexive in Hn.
- destruct (flushOne_distinct this w Hre) as [_ ->]. rewrite Hmany.
  apply _populateInverse_one; [done | by left |].
  by apply _removeInverse_keeps_notArray.
Qed.
End PayloadsFlushOneMore.

Section PayloadsReadsMore.
Import Payloads.RelationshipPayloads.

(** What a read of the other side returns after a push, in terms of the
    flush of that push. *)
Lemma get_other_side_after_push this modelName id relationshipName
    relationshipData otherModelName k otherRelationshipName :
_isReflexive this = true
∨ ownSide this otherModelName otherRelationshipName
  = otherSide this modelName relationshipName →
(get (push this modelName id relationshipName relationshipData) otherModelName
   k otherRelationshipName).1
= payloads (otherSide (_flushPending this) modelName relationshipName)
    (flushOne (_flushPending this)
       (workOf modelName id relationshipName relationshipData)) !! k.
Proof.
intros Hside. rewrite get_flushed, flush_after_push. simpl.
fold (workOf modelName id relationshipName relationshipData).
replace (ownSide (push this modelName id relationshipName relationshipData)
           otherModelName otherRelationshipName)
  with (ownSide this otherModelName otherRelationshipName) by done.
rewrite otherSide_flushPending.
destruct Hside as [Hre| ->]; [|done].
by rewrite !(payloads_reflexive _ (flushOne _ _))
  by (by rewrite _isReflexive_flushOne, _isReflexive_flushPending).
Qed.

Lemma get_other_side this modelName relationshipName otherModelName k
    otherRelationshipName :
_isReflexive this = true
∨ ownSide this otherModelName otherRelationshipName
  = otherSide this modelName relationshipName →
(get this otherModelName k otherRelationshipName).1
= payloads (otherSide (_flushPending this) modelName relationshipName)
    (_flushPending this) !! k.
Proof.
intros Hside. rewrite get_flushed. simpl. rewrite otherSide_flushPending.
destruct Hside as [Hre| ->]; [|done].
by rewrite !(payloads_reflexive _ (_flushPending this))
  by (by rewrite _isReflexive_flushPending).
Qed.
End PayloadsReadsMore.

(** X5.  relationships-payloads.js, replacing an entry: if a read returns
    the entry [p] for [(modelName, id, relationshipName)], then after a push
    of new data for it, every reference of [p] whose id the new data does
    not name no longer has [id] listed in its entry on the other side. *)
Theorem push_strikes_the_references_it_drops :
  ∀ this modelName id relationshipName relationshipData p r otherModelName
    otherRelationshipName,
    (Payloads.RelationshipPayloads.get this modelName id relationshipName).1
    = Some p →
    r ∈ references (data p) →
    (∀ r', r' ∈ references (data relationshipData) → ref_id r' ≠ ref_id r) →
    Payloads.RelationshipPayloads._isReflexive this = true
    ∨ Payloads.RelationshipPayloads.ownSide this otherModelName
        otherRelationshipName
      = Payloads.RelationshipPayloads.otherSide this modelName relationshipName →
    ∀ e,
      (Payloads.RelationshipPayloads.get
         (Payloads.RelationshipPayloads.push this modelName id relationshipName
            relationshipData)
         otherModelName (ref_id r) otherRelationshipName).1 = Some e →
      ¬ lists (data e) id.
Proof.
  intros this modelName id relationshipName relationshipData p r otherModelName
    otherRelationshipName Hp Hr Hnew Hside e.
  rewrite (get_other_side_after_push this modelName id relationshipName
             relationshipData _ _ _ Hside).
  rewrite get_flushed in Hp. simpl in Hp.
  rewrite <- ownSide_flushPending in Hp.
  apply (flushOne_strikes (Payloads.RelationshipPayloads._flushPending this)
           (workOf modelName id relationshipName relationshipData) p r Hp Hr
           Hnew).
Qed.

Lemma push_strikes_the_references_it_drops_witness :
  (Payloads.RelationshipPayloads.get
     (Payloads.RelationshipPayloads.push
        (Payloads.RelationshipPayloads.push hobbiesLedger "user" "1"
           "hobbies" {| data := DataMany [hobby "2"; hobby "3"] |})
        "user" "1" "hobbies" {| data := DataMany [hobby "3"] |})
     "hobby" "2" "user").1 = Some {| data := DataNull |}
  ∧ ¬ lists (data {| data := DataNull |}) "1".
Proof.
  split; [by vm_compute |].
  apply (push_strikes_the_references_it_drops
           (Payloads.RelationshipPayloads.push hobbiesLedger "user" "1"
              "hobbies" {| data := DataMany [hobby "2"; hobby "3"] |})
           "user" "1" "hobbies" {| data := DataMany [hobby "3"] |}
           {| data := DataMany [hobby "2"; hobby "3"] |} (hobby "2") "hobby"
           "user").
  - by vm_compute.
  - apply list_elem_of_here.
  - intros r' Hr'. apply list_elem_of_singleton in Hr' as ->. done.
  - by right.
  - by vm_compute.
Defined.

(** X6.  relationships-payloads.js, what a push leaves alone: on either
    side, the entry at any id [k] other than the pushed id, that neither the
    entry replaced nor the pushed data refers to, is the same after the
    flush of the push as before. *)
Theorem push_leaves_unrelated_entries :
  ∀ this modelName id relationshipName relationshipData side k,
    k ≠ id →
    (∀ p r,
       (Payloads.RelationshipPayloads.get this modelName id relationshipName).1
       = Some p →
       r ∈ references (data p) → ref_id r ≠ k) →
    (∀ r, r ∈ references (data relationshipData) → ref_id r ≠ k) →
    Payloads.RelationshipPayloads.payloads side
      (Payloads.RelationshipPayloads.get
         (Payloads.RelationshipPayloads.push this modelName id relationshipName
            relationshipData) modelName id relationshipName).2 !! k
    = Payloads.RelationshipPayloads.payloads side
        (Payloads.RelationshipPayloads.get this modelName id relationshipName).2
        !! k.
Proof.
  intros this modelName id relationshipName relationshipData side k Hk Hold
    Hnew.
  rewrite !get_flushed in *. simpl in *. rewrite flush_after_push.
  apply (flushOne_frame (Payloads.RelationshipPayloads._flushPending this)
           (workOf modelName id relationshipName relationshipData) side k);
    [done | | done].
  simpl. rewrite ownSide_flushPending. exact Hold.
Qed.

Lemma push_leaves_unrelated_entries_witness :
  Payloads.RelationshipPayloads.payloads Rhs
    (Payloads.RelationshipPayloads.get
       (Payloads.RelationshipPayloads.push
          (Payloads.RelationshipPayloads.push hobbiesLedger "user" "1"
             "hobbies" {| data := DataMany [hobby "2"] |})
          "user" "3" "hobbies" {| data := DataMany [hobby "4"] |})
       "user" "3" "hobbies").2 !! "2"
  = Payloads.RelationshipPayloads.payloads Rhs
      (Payloads.RelationshipPayloads.get
         (Payloads.RelationshipPayloads.push hobbiesLedger "user" "1"
            "hobbies" {| data := DataMany [hobby "2"] |})
         "user" "3" "hobbies").2 !! "2".
Proof.
  apply (push_leaves_unrelated_entries
           (Payloads.RelationshipPayloads.push hobbiesLedger "user" "1"
              "hobbies" {| data := DataMany [hobby "2"] |})
           "user" "3" "hobbies" {| data := DataMany [hobby "4"] |} Rhs "2").
  - done.
  - intros p r Hp. by vm_compute in Hp.
  - intros r Hr. apply list_elem_of_singleton in Hr as ->. done.
Defined.

(** X7.  relationships-payloads.js, a to-many inverse: when two different
    ids are pushed, one after the other, with data referring to the same
    entity, and the other side is to-many, the entity's entry on the other
    side lists both owners (on a reflexive ledger, provided the entity is
    neither of the two). *)
Theorem to_many_inverse_accumulates_owners :
  ∀ this modelName relationshipName id1 data1 id2 data2 r1 r2 otherModelName
    otherRelationshipName,
    id1 ≠ id2 →
    r1 ∈ references (data data1) →
    r2 ∈ references (data data2) →
    ref_id r1 = ref_id r2 →
    inverseIsManyFor this (workOf modelName id1 relationshipName data1) = true →
    Payloads.RelationshipPayloads._isReflexive this = false
    ∨ (ref_id r1 ≠ id1 ∧ ref_id r1 ≠ id2) →
    Payloads.RelationshipPayloads._isReflexive this = true
    ∨ Payloads.RelationshipPayloads.ownSide this otherModelName
        otherRelationshipName
      = Payloads.RelationshipPayloads.otherSide this modelName relationshipName →
    ∃ e,
      (Payloads.RelationshipPayloads.get
         (Payloads.RelationshipPayloads.push
            (Payloads.RelationshipPayloads.push this modelName id1
               relationshipName data1)
            modelName id2 relationshipName data2)
         otherModelName (ref_id r1) otherRelationshipName).1 = Some e
      ∧ {| ref_id := id1; ref_type := modelName |} ∈ references (data e)
      ∧ {| ref_id := id2; ref_type := modelName |} ∈ references (data e).
Proof.
  intros this modelName relationshipName id1 data1 id2 data2 r1 r2
    otherModelName otherRelationshipName Hids Hr1 Hr2 Hsame Hmany Hguard Hside.
  set (w1 := workOf modelName id1 relationshipName data1).
  set (w2 := workOf modelName id2 relationshipName data2).
  rewrite (get_other_side_after_push
             (Payloads.RelationshipPayloads.push this modelName id1
                relationshipName data1)
             modelName id2 relationshipName data2 _ _ _ Hside).
  rewrite flush_after_push. fold w1 w2.
  set (s0 := Payloads.RelationshipPayloads._flushPending this).
  set (s1 := Payloads.RelationshipPayloads.flushOne s0 w1).
  assert (Hre0 : Payloads.RelationshipPayloads._isReflexive s0
                 = Payloads.RelationshipPayloads._isReflexive this)
    by apply _isReflexive_flushPending.
  assert (Hre1 : Payloads.RelationshipPayloads._isReflexive s1
                 = Payloads.RelationshipPayloads._isReflexive this)
    by (unfold s1; by rewrite _isReflexive_flushOne).
  assert (Hinv1 :
    Payloads.RelationshipPayloads.otherSide s1 modelName relationshipName
    = Payloads.RelationshipPayloads.otherSide s0 modelName relationshipName)
    by apply otherSide_flushOne.
  assert (H1 : holdsMany
                 (Payloads.RelationshipPayloads.payloads
                    (Payloads.RelationshipPayloads.otherSide s1 modelName
                       relationshipName) s1)
                 (ref_id r1) (backReference w1)).
  { rewrite Hinv1.
    apply (flushOne_holdsMany s0 w1 r1); [|done |].
    - unfold s0. by rewrite inverseIsManyFor_flushPending.
    - rewrite Hre0. destruct Hguard as [|[? _]]; [by left | by right]. }
  assert (H1' : holdsMany
                  (Payloads.RelationshipPayloads.payloads
                     (Payloads.RelationshipPayloads.otherSide s1 modelName
                        relationshipName)
                     (Payloads.RelationshipPayloads.flushOne s1 w2))
                  (ref_id r1) (backReference w1)).
  { apply (flushOne_keeps_holdsMany s1 w2 (ref_id r1) (backReference w1));
      [done | | done].
    rewrite Hre1. destruct Hguard as [|[_ ?]]; [by left | by right]. }
  assert (H2 : holds
                 (Payloads.RelationshipPayloads.payloads
                    (Payloads.RelationshipPayloads.otherSide s1 modelName
                       relationshipName)
                    (Payloads.RelationshipPayloads.flushOne s1 w2))
                 (ref_id r1) (backReference w2)).
  { rewrite Hsame.
    apply (flushOne_back_reference s1 w2 r2); [done |].
    rewrite Hre1, <- Hsame. destruct Hguard as [|[_ ?]]; [by left | by right]. }
  destruct H1' as (rs & E & Hin1). destruct H2 as (e & E' & Hin2).
  exists e. split; [done |].
  rewrite E in E'. injection E' as <-. done.
Qed.

Lemma to_many_inverse_accumulates_owners_witness :
  ∃ e,
    (Payloads.RelationshipPayloads.get
       (Payloads.RelationshipPayloads.push
          (Payloads.RelationshipPayloads.push hobbiesLedger "hobby" "2" "user"
             {| data := DataOne (user "1") |})
          "hobby" "3" "user" {| data := DataOne (user "1") |})
       "user" "1" "hobbies").1 = Some e
    ∧ hobby "2" ∈ references (data e)
    ∧ hobby "3" ∈ references (data e).
Proof.
  apply (to_many_inverse_accumulates_owners hobbiesLedger "hobby" "user" "2"
           {| data := DataOne (user "1") |} "3"
           {| data := DataOne (user "1") |} (user "1") (user "1") "user"
           "hobbies").
  - done.
  - apply list_elem_of_here.
  - apply list_elem_of_here.
  - done.
  - done.
  - by left.
  - by right.
Defined.

(** X8.  relationships-payloads.js, a to-one inverse: when the other side is
    to-one and the entry of a referenced entity there is absent or holds no
    array, then after the push the entity's entry is exactly the
    back-reference to the pushed id: an earlier owner is replaced, no list
    builds up. *)
Theorem to_one_inverse_holds_the_last_owner :
  ∀ this modelName id relationshipName relationshipData r otherModelName
    otherRelationshipName,
    r ∈ references (data relationshipData) →
    inverseIsManyFor this (workOf modelName id relationshipName relationshipData)
    = false →
    Payloads.RelationshipPayloads._isReflexive this = false ∨ ref_id r ≠ id →
    Payloads.RelationshipPayloads._isReflexive this = true
    ∨ Payloads.RelationshipPayloads.ownSide this otherModelName
        otherRelationshipName
      = Payloads.RelationshipPayloads.otherSide this modelName relationshipName →
    (∀ e rs,
       (Payloads.RelationshipPayloads.get this otherModelName (ref_id r)
          otherRelationshipName).1 = Some e →
       data e ≠ DataMany rs) →
    (Payloads.RelationshipPayloads.get
       (Payloads.RelationshipPayloads.push this modelName id relationshipName
          relationshipData)
       otherModelName (ref_id r) otherRelationshipName).1
    = Some {| data := DataOne {| ref_id := id; ref_type := modelName |} |}.
Proof.
  intros this modelName id relationshipName relationshipData r otherModelName
    otherRelationshipName Hr Hmany Hguard Hside Hflat.
  rewrite (get_other_side_after_push this modelName id relationshipName
             relationshipData _ _ _ Hside).
  apply (flushOne_one (Payloads.RelationshipPayloads._flushPending this)
           (workOf modelName id relationshipName relationshipData) r).
  - by rewrite inverseIsManyFor_flushPending.
  - done.
  - by rewrite _isReflexive_flushPending.
  - intros e rs He. apply (Hflat e rs).
    by rewrite (get_other_side this modelName relationshipName _ _ _ Hside).
Qed.

Lemma to_one_inverse_holds_the_last_owner_witness :
  (Payloads.RelationshipPayloads.get
     (Payloads.RelationshipPayloads.push
        (Payloads.RelationshipPayloads.push hobbiesLedger "user" "1" "hobbies"
           {| data := DataMany [hobby "2"] |})
        "user" "3" "hobbies" {| data := DataMany [hobby "2"] |})
     "hobby" "2" "user").1
  = Some {| data := DataOne (user "3") |}.
Proof.
  apply (to_one_inverse_holds_the_last_owner
           (Payloads.RelationshipPayloads.push hobbiesLedger "user" "1"
              "hobbies" {| data := DataMany [hobby "2"] |})
           "user" "3" "hobbies" {| data := DataMany [hobby "2"] |} (hobby "2")
           "hobby" "user").
  - apply list_elem_of_here.
  - done.
  - by left.
  - by right.
  - intros e rs He. vm_compute in He. by injection He as <-.
Defined.

Section PayloadsUnloadTwice.
Import Payloads.RelationshipPayloads.
Variable store : Store.

Lemma _pendingPayloads_unload id own inv this :
_pendingPayloads (_unload store id own inv this) = _pendingPayloads this.
Proof.
unfold _unload. destruct (negb _); [|done].
by rewrite !_pendingPayloads_update.
Qed.

Lemma isLhs_unload id own inv this modelName relationshipName :
isLhs (_unload store id own inv this) modelName relationshipName
= isLhs this modelName relationshipName.
Proof.
unfold _unload. destruct (negb _); [|done]. by rewrite !isLhs_update.
Qed.

Lemma _unload_twice id own inv this :
_unload store id own inv (_unload store id own inv this)
= _unload store id own inv this.
Proof.
unfold _unload at 2 3.
destruct (_inverseLoaded store (payloads own this !! id)) eqn:E; cbn [negb].
- unfold _unload. by rewrite E.
- apply _unload_absent. rewrite payloads_update_same. apply lookup_delete_eq.
Qed.
End PayloadsUnloadTwice.

(** X9.  relationships-payloads.js, [unload]: unloading the same
    [(modelName, id, relationshipName)] a second time changes nothing. *)
Theorem unload_is_idempotent :
  ∀ store this modelName id relationshipName,
    Payloads.RelationshipPayloads.unload store
      (Payloads.RelationshipPayloads.unload store this modelName id
         relationshipName)
      modelName id relationshipName
    = Payloads.RelationshipPayloads.unload store this modelName id
        relationshipName.
Proof.
  intros store this modelName id relationshipName.
  rewrite (unload_sides store this).
  set (own := Payloads.RelationshipPayloads.ownSide this modelName
                relationshipName).
  set (inv := Payloads.RelationshipPayloads.otherSide this modelName
                relationshipName).
  set (once := Payloads.RelationshipPayloads._unload store id own inv
                 (Payloads.RelationshipPayloads._flushPending this)).
  rewrite (unload_sides store once).
  assert (Hq : Payloads.RelationshipPayloads._pendingPayloads once = []).
  { unfold once. rewrite _pendingPayloads_unload. apply _flushPending_done. }
  rewrite (_flushPending_nil once Hq).
  assert (Hlhs : Payloads.RelationshipPayloads.isLhs once modelName
                   relationshipName
                 = Payloads.RelationshipPayloads.isLhs this modelName
                     relationshipName).
  { unfold once. by rewrite isLhs_unload, isLhs_flushPending. }
  unfold Payloads.RelationshipPayloads.ownSide,
    Payloads.RelationshipPayloads.otherSide. rewrite Hlhs.
  apply _unload_twice.
Qed.

(** ** The two sides in step *)

Section PayloadsInStepMaps.
Import Payloads.RelationshipPayloads.
Implicit Types m S T M : gmap string Payload.

Lemma names_or_not entry k : names entry k ∨ ¬ names entry k.
Proof.
destruct entry as [p|]; [|right; by intros (e & r & [=] & _)].
destruct (decide (k ∈ ref_id <$> references (data p))) as [H|H].
- left. apply list_elem_of_fmap in H as (r & -> & Hr). by exists p, r.
- right. intros (e & r & [= <-] & Hr & <-). apply H.
  by apply list_elem_of_fmap_2.
Qed.

Lemma lists_strike id e z :
lists (data (strike id e)) z → lists (data e) z ∧ z ≠ id.
Proof.
destruct e as [[|r|xs]]; unfold strike, lists; simpl.
- intros (r & Hr & _). by apply elem_of_nil in Hr.
- intros (r' & Hr & _). by apply elem_of_nil in Hr.
- intros (r & Hr & <-). apply list_elem_of_filter in Hr as [Hne Hr].
  split; [by exists r | done].
Qed.

Lemma lists_strike_list id e z xs :
data e = DataMany xs → lists (data e) z → z ≠ id →
lists (data (strike id e)) z.
Proof.
destruct e as [d]. simpl. intros -> (r & Hr & <-) Hne. exists r.
split; [|done]. unfold strike. simpl. by apply list_elem_of_filter.
Qed.

Lemma holds_listsAt m k r : holds m k r → listsAt m k (ref_id r).
Proof. intros (e & He & Hr). exists e. split; [done |]. by exists r. Qed.

(** A strike only takes away, and takes [id] away from the slots named. *)
Lemma _removeInverse_listsAt id entry m k z :
listsAt (_removeInverse id entry m) k z →
listsAt m k z ∧ (names entry k → z ≠ id).
Proof.
intros (e' & He' & Hz). destruct (names_or_not entry k) as [N|N].
- rewrite _removeInverse_named in He' by done.
  destruct (m !! k) as [e|] eqn:E; [|done]. injection He' as <-.
  apply lists_strike in Hz as [Hz Hne]. split; [by exists e | done].
- rewrite _removeInverse_unnamed in He' by done.
  split; [by exists e' | done].
Qed.

(** From a table of lists a strike takes nothing but [id]. *)
Lemma _removeInverse_keeps_lists id entry m k z :
onlyLists m → listsAt m k z → z ≠ id →
listsAt (_removeInverse id entry m) k z.
Proof.
intros Hm (e & He & Hz) Hne. destruct (names_or_not entry k) as [N|N].
- exists (strike id e). rewrite _removeInverse_named, He by done.
  split; [done |]. destruct (Hm k e He) as [xs Hxs].
  by apply (lists_strike_list id e z xs).
- exists e. by rewrite _removeInverse_unnamed.
Qed.

Lemma _removeInverse_onlyLists id entry m :
onlyLists m → onlyLists (_removeInverse id entry m).
Proof.
intros Hm k e'. destruct (names_or_not entry k) as [N|N].
- rewrite _removeInverse_named by done.
  destruct (m !! k) as [e|] eqn:E; [|done]. intros [= <-].
  destruct (Hm k e E) as [xs Hxs]. destruct e as [d]. simpl in Hxs. subst d.
  unfold strike. simpl. by eexists.
- rewrite _removeInverse_unnamed by done. apply Hm.
Qed.

(** What an add can make a slot list: what it listed, or the
    back-reference. *)
Lemma _addToInverse_listsAt isReflexive b i m flag k z :
listsAt (_addToInverse isReflexive b i m flag) k z →
listsAt m k z
∨ (z = ref_id b ∧ k = i ∧ (isReflexive = false ∨ ref_id b ≠ i)).
Proof.
destruct (decide (k = i)) as [->|Hk].
2:{ unfold listsAt. rewrite _addToInverse_other by done. by left. }
unfold _addToInverse.
destruct (isReflexive && bool_decide (ref_id b = i)) eqn:G; [by left |].
assert (Hg : isReflexive = false ∨ ref_id b ≠ i).
{ destruct isReflexive; [right | by left]. simpl in G.
  by apply bool_decide_eq_false_1 in G. }
intros (e & He & r & Hr & <-).
assert (Hnew : r = b → ref_id r = ref_id b ∧ i = i
                       ∧ (isReflexive = false ∨ ref_id b ≠ i)).
{ by intros ->. }
destruct (m !! i) as [[d]|] eqn:E; simpl in He.
- destruct d as [|x|xs]; try destruct flag; rewrite lookup_insert_eq in He;
    injection He as <-; simpl in Hr.
  + apply list_elem_of_singleton in Hr. right. by apply Hnew.
  + apply list_elem_of_singleton in Hr. right. by apply Hnew.
  + apply list_elem_of_singleton in Hr. right. by apply Hnew.
  + apply list_elem_of_singleton in Hr. right. by apply Hnew.
  + apply elem_of_app in Hr as [Hr|Hr].
    * left. exists {| data := DataMany xs |}. split; [done |]. by exists r.
    * apply list_elem_of_singleton in Hr. right. by apply Hnew.
  + apply elem_of_app in Hr as [Hr|Hr].
    * left. exists {| data := DataMany xs |}. split; [done |]. by exists r.
    * apply list_elem_of_singleton in Hr. right. by apply Hnew.
- destruct flag; rewrite lookup_insert_eq in He; injection He as <-;
    simpl in Hr; apply list_elem_of_singleton in Hr; right; by apply Hnew.
Qed.

Lemma _populateInverse_listsAt isReflexive d b m flag k z :
listsAt (_populateInverse isReflexive d b m flag) k z →
listsAt m k z
∨ (z = ref_id b ∧ (∃ r, r ∈ references (data d) ∧ ref_id r = k)
   ∧ (isReflexive = false ∨ ref_id b ≠ k)).
Proof.
rewrite _populateInverse_fold. revert m.
induction (references (data d)) as [|r rs IH]; intros m; [by left |].
simpl. intros H. apply IH in H as [H|(-> & (r' & Hr' & <-) & Hg)].
- apply _addToInverse_listsAt in H as [H|(-> & -> & Hg)]; [by left |].
  right. split_and!; [done | | done].
  exists r. split; [apply list_elem_of_here | done].
- right. split_and!; [done | | done].
  exists r'. split; [by apply list_elem_of_further | done].
Qed.

(** An add to a to-many side loses nothing of a table of lists. *)
Lemma _addToInverse_grows isReflexive b i m :
onlyLists m →
onlyLists (_addToInverse isReflexive b i m true)
∧ ∀ k z, listsAt m k z → listsAt (_addToInverse isReflexive b i m true) k z.
Proof.
intros Hm. split.
- intros k e'. destruct (decide (k = i)) as [->|Hk].
  2:{ rewrite _addToInverse_other by done. apply Hm. }
  unfold _addToInverse. destruct (_ && _); [apply Hm |].
  destruct (data <$> m !! i) as [[| |xs]|]; rewrite lookup_insert_eq;
    intros [= <-]; by eexists.
- intros k z (e & He & Hz). destruct (decide (k = i)) as [->|Hk].
  2:{ exists e. by rewrite _addToInverse_other. }
  unfold _addToInverse. destruct (_ && _); [by exists e |].
  rewrite He. simpl. destruct (Hm i e He) as [xs Hxs]. rewrite Hxs.
  eexists. rewrite lookup_insert_eq. split; [done |]. simpl.
  destruct Hz as (r & Hr & <-). exists r. split; [|done].
  rewrite Hxs in Hr. simpl in Hr. apply elem_of_app. by left.
Qed.

Lemma _populateInverse_grows isReflexive d b m :
onlyLists m →
onlyLists (_populateInverse isReflexive d b m true)
∧ ∀ k z, listsAt m k z →
         listsAt (_populateInverse isReflexive d b m true) k z.
Proof.
rewrite _populateInverse_fold. revert m.
induction (references (data d)) as [|r rs IH]; intros m Hm; [done |].
simpl. destruct (_addToInverse_grows isReflexive b (ref_id r) m Hm)
  as [Hm' Hgrow].
destruct (IH _ Hm') as [Hall Hgrow']. split; [done |].
intros k z H. by apply Hgrow', Hgrow.
Qed.

(** A push through the side [S] of two tables. *)
Lemma push_own_inStep S T X0 D b flag xs :
ref_id b = X0 → data D = DataMany xs → onlyLists S → inStep T S →
onlyLists (<[X0 := D]> S)
∧ inStep (_populateInverse false D b (_removeInverse X0 (S !! X0) T) flag)
    (<[X0 := D]> S).
Proof.
intros Hb HD HS Hstep. split.
- intros k e. destruct (decide (k = X0)) as [->|Hk].
  + rewrite lookup_insert_eq. intros [= <-]. by exists xs.
  + rewrite lookup_insert_ne by done. apply HS.
- intros X Y H.
  apply _populateInverse_listsAt in H as [H|(-> & (r & Hr & <-) & _)].
  + apply _removeInverse_listsAt in H as [H Hn]. apply Hstep in H.
    destruct H as (e & He & HY).
    destruct (decide (X = X0)) as [->|HX].
    * exfalso. apply Hn; [|done]. destruct HY as (r & Hr & <-).
      by exists e, r.
    * exists e. by rewrite lookup_insert_ne.
  + rewrite Hb. exists D. rewrite lookup_insert_eq. split; [done |].
    by exists r.
Qed.

(** A push through the other side. *)
Lemma push_other_inStep S T Y0 D b :
ref_id b = Y0 → onlyLists S → inStep T S →
onlyLists (_populateInverse false D b (_removeInverse Y0 (T !! Y0) S) true)
∧ inStep (<[Y0 := D]> T)
    (_populateInverse false D b (_removeInverse Y0 (T !! Y0) S) true).
Proof.
intros Hb HS Hstep.
pose proof (_removeInverse_onlyLists Y0 (T !! Y0) S HS) as HS1.
destruct (_populateInverse_grows false D b _ HS1) as [HS2 Hgrow].
split; [done |].
intros X Y (e & He & HX). destruct (decide (Y = Y0)) as [->|HY].
- rewrite lookup_insert_eq in He. injection He as <-.
  destruct HX as (r & Hr & <-). rewrite <- Hb. apply holds_listsAt.
  apply _populateInverse_holds; [done | by left].
- rewrite lookup_insert_ne in He by done. apply Hgrow.
  apply _removeInverse_keeps_lists; [done | | done].
  apply Hstep. by exists e.
Qed.

(** An unload through the side [S], and through the other side. *)
Lemma unload_own_inStep S T X0 :
onlyLists S → inStep T S →
onlyLists (delete X0 S) ∧ inStep (_removeInverse X0 (S !! X0) T) (delete X0 S).
Proof.
intros HS Hstep. split.
- intros k e He. apply lookup_delete_Some in He as [_ He]. by apply (HS k).
- intros X Y H. apply _removeInverse_listsAt in H as [H Hn].
  apply Hstep in H. destruct H as (e & He & HY).
  destruct (decide (X = X0)) as [->|HX].
  + exfalso. apply Hn; [|done]. destruct HY as (r & Hr & <-). by exists e, r.
  + exists e. by rewrite lookup_delete_ne.
Qed.

Lemma unload_other_inStep S T Y0 :
onlyLists S → inStep T S →
onlyLists (_removeInverse Y0 (T !! Y0) S)
∧ inStep (delete Y0 T) (_removeInverse Y0 (T !! Y0) S).
Proof.
intros HS Hstep. split; [by apply _removeInverse_onlyLists |].
intros X Y (e & He & HX). apply lookup_delete_Some in He as [HY He].
apply _removeInverse_keeps_lists; [done | | done].
apply Hstep. by exists e.
Qed.

(** A push and an unload when both sides are one table. *)
Lemma push_shared_inStep M X0 D b xs :
ref_id b = X0 → data D = DataMany xs → onlyLists M → inStep M M →
onlyLists
  (_populateInverse true D b (<[X0 := D]> (_removeInverse X0 (M !! X0) M)) true)
∧ inStep
    (_populateInverse true D b (<[X0 := D]> (_removeInverse X0 (M !! X0) M))
       true)
    (_populateInverse true D b (<[X0 := D]> (_removeInverse X0 (M !! X0) M))
       true).
Proof.
intros Hb HD HM Hstep.
pose proof (_removeInverse_onlyLists X0 (M !! X0) M HM) as HM1.
assert (HM2 : onlyLists (<[X0 := D]> (_removeInverse X0 (M !! X0) M))).
{ intros k e. destruct (decide (k = X0)) as [->|Hk].
  - rewrite lookup_insert_eq. intros [= <-]. by exists xs.
  - rewrite lookup_insert_ne by done. apply HM1. }
destruct (_populateInverse_grows true D b _ HM2) as [HM3 Hgrow].
split; [done |].
assert (Hown : ∀ Y, lists (data D) Y →
  listsAt (<[X0 := D]> (_removeInverse X0 (M !! X0) M)) X0 Y).
{ intros Y HY. exists D. by rewrite lookup_insert_eq. }
intros X Y H.
apply _populateInverse_listsAt in H as [H|(-> & (r & Hr & <-) & Hg)].
- destruct H as (e & He & HX). destruct (decide (Y = X0)) as [->|HY].
  + rewrite lookup_insert_eq in He. injection He as <-.
    destruct (decide (X = X0)) as [->|HX0]; [by apply Hgrow, Hown |].
    destruct HX as (r & Hr & <-). rewrite <- Hb. apply holds_listsAt.
    apply _populateInverse_holds; [done |]. right. by rewrite Hb.
  + rewrite lookup_insert_ne in He by done.
    assert (H1 : listsAt (_removeInverse X0 (M !! X0) M) Y X)
      by (by exists e).
    apply _removeInverse_listsAt in H1 as [H1 Hn]. apply Hstep in H1.
    destruct (decide (X = X0)) as [->|HX0].
    * exfalso. apply Hn; [|done]. destruct H1 as (e1 & He1 & r & Hr & <-).
      by exists e1, r.
    * apply Hgrow.
      apply (_removeInverse_keeps_lists X0 (M !! X0)) in H1; [|done..].
      destruct H1 as (e1 & He1 & H1). exists e1.
      by rewrite lookup_insert_ne.
- rewrite Hb. apply Hgrow, Hown. by exists r.
Qed.

Lemma unload_shared_inStep M X0 :
onlyLists M → inStep M M →
onlyLists (delete X0 (_removeInverse X0 (M !! X0) M))
∧ inStep (delete X0 (_removeInverse X0 (M !! X0) M))
    (delete X0 (_removeInverse X0 (M !! X0) M)).
Proof.
intros HM Hstep.
pose proof (_removeInverse_onlyLists X0 (M !! X0) M HM) as HM1. split.
- intros k e He. apply lookup_delete_Some in He as [_ He]. by apply (HM1 k).
- intros X Y (e & He & HX). apply lookup_delete_Some in He as [HY He].
  assert (H1 : listsAt (_removeInverse X0 (M !! X0) M) Y X) by (by exists e).
  apply _removeInverse_listsAt in H1 as [H1 Hn]. apply Hstep in H1.
  destruct (decide (X = X0)) as [->|HX0].
  + exfalso. apply Hn; [|done]. destruct H1 as (e1 & He1 & r & Hr & <-).
    by exists e1, r.
  + apply (_removeInverse_keeps_lists X0 (M !! X0)) in H1; [|done..].
    destruct H1 as (e1 & He1 & H1). exists e1.
    by rewrite lookup_delete_ne.
Qed.
End PayloadsInStepMaps.

Section PayloadsInStep.
Import Payloads.RelationshipPayloads.
Variable store : Store.

Lemma otherSide_opposite this modelName relationshipName :
otherSide this modelName relationshipName
= opposite (ownSide this modelName relationshipName).
Proof. unfold otherSide, ownSide. by destruct (isLhs this _ _). Qed.

Lemma inverseIsManyFor_toMany this w :
inverseIsManyFor this w
= toMany (opposite (ownSide this (work_modelName w) (work_relationshipName w)))
    this.
Proof. unfold inverseIsManyFor, ownSide. by destruct (isLhs this _ _). Qed.

Lemma toMany_update s s' f this : toMany s (update s' f this) = toMany s this.
Proof.
destruct s; simpl;
  [apply Payloads_lhsRelationshipIsMany_update
  | apply Payloads_rhsRelationshipIsMany_update].
Qed.

Lemma toMany_flushOne s this w : toMany s (flushOne this w) = toMany s this.
Proof.
unfold flushOne. destruct (isLhs this _ _); cbv zeta;
  by rewrite !toMany_update.
Qed.

Lemma toMany_flushPending s this : toMany s (_flushPending this) = toMany s this.
Proof.
rewrite _flushPending_fold.
replace (toMany s this) with (toMany s (set_pendingPayloads [] this))
  by (by destruct s).
generalize (set_pendingPayloads [] this).
induction (_pendingPayloads this) as [|w ws IH]; intros t; [done |].
simpl. by rewrite IH, toMany_flushOne.
Qed.

Lemma toMany_unload s id own inv this :
toMany s (_unload store id own inv this) = toMany s this.
Proof.
unfold _unload. destruct (negb _); [|done]. by rewrite !toMany_update.
Qed.

Lemma _isReflexive_unload id own inv this :
_isReflexive (_unload store id own inv this) = _isReflexive this.
Proof.
unfold _unload. destruct (negb _); [|done]. by rewrite !_isReflexive_update.
Qed.

(** The flush of a push keeps a to-many side in step. *)
Lemma flushOne_keptInStep s this w :
toMany s this = true →
(_isReflexive this = true → toMany (opposite s) this = true) →
(toMany (ownSide this (work_modelName w) (work_relationshipName w)) this = true →
 ∃ xs, data (work_relationshipData w) = DataMany xs) →
keptInStep s this → keptInStep s (flushOne this w).
Proof.
intros Hmany Hboth Hshape [HS Hstep]. unfold keptInStep.
destruct (_isReflexive this) eqn:Hre.
- assert (Hall : ∀ s', toMany s' this = true).
  { intros s'. specialize (Hboth eq_refl). by destruct s, s'. }
  destruct (Hshape (Hall _)) as [xs Hxs].
  rewrite !flushOne_shared by done. rewrite inverseIsManyFor_toMany, Hall.
  rewrite (payloads_reflexive s this Hre) in HS, Hstep.
  rewrite (payloads_reflexive (opposite s) this Hre) in Hstep.
  by apply (push_shared_inStep _ _ _ _ xs).
- pose proof (flushOne_distinct this w Hre) as [Hown Hother].
  rewrite otherSide_opposite in Hother.
  rewrite inverseIsManyFor_toMany in Hother.
  set (own := ownSide this (work_modelName w) (work_relationshipName w)) in *.
  clearbody own. destruct (decide (own = s)) as [->|Hne].
  + rewrite Hown, Hother. destruct (Hshape Hmany) as [xs Hxs].
    by apply (push_own_inStep _ _ _ _ _ _ xs).
  + assert (E1 : opposite own = s) by (by destruct own, s).
    assert (E2 : opposite s = own) by (by destruct own, s).
    rewrite E1 in Hother. rewrite E2 in *. rewrite Hown, Hother, Hmany.
    by apply push_other_inStep.
Qed.

(** So does an unload. *)
Lemma _unload_keptInStep s id own this :
keptInStep s this → keptInStep s (_unload store id own (opposite own) this).
Proof.
intros [HS Hstep]. unfold _unload. destruct (negb _); [|done]. cbv zeta.
unfold keptInStep. destruct (_isReflexive this) eqn:Hre.
- rewrite !payloads_update_reflexive by (by rewrite ?_isReflexive_update).
  rewrite (payloads_reflexive s this Hre) in *.
  rewrite (payloads_reflexive (opposite s) this Hre) in *.
  rewrite (payloads_reflexive own this Hre).
  by apply unload_shared_inStep.
- assert (Hne : own ≠ opposite own) by (by destruct own).
  assert (Hownt :
    payloads own
      (update own (delete id)
         (update (opposite own) (_removeInverse id (payloads own this !! id))
            this))
    = delete id (payloads own this)).
  { rewrite payloads_update_same.
    by rewrite payloads_update_other, Hre by done. }
  assert (Hinvt :
    payloads (opposite own)
      (update own (delete id)
         (update (opposite own) (_removeInverse id (payloads own this !! id))
            this))
    = _removeInverse id (payloads own this !! id)
        (payloads (opposite own) this)).
  { rewrite payloads_update_other, _isReflexive_update, Hre by done.
    by rewrite payloads_update_same. }
  destruct (decide (own = s)) as [->|Hs].
  + rewrite Hownt, Hinvt. by apply unload_own_inStep.
  + assert (E1 : opposite own = s) by (by destruct own, s).
    assert (E2 : opposite s = own) by (by destruct own, s).
    rewrite E2. rewrite E1 in Hownt, Hinvt |- *. rewrite Hownt, Hinvt.
    rewrite E2 in Hstep. by apply unload_other_inStep.
Qed.

(** Every reachable ledger, once flushed, has its to-many sides in step. *)
Lemma reachable_keptInStep this :
reachable store this →
∀ s, toMany s this = true →
     (_isReflexive this = true → toMany (opposite s) this = true) →
     keptInStep s (_flushPending this).
Proof.
induction 1 as [m r meta m' r' meta'
               | this m id r d Hreach IH Hplain Hshape
               | this m id r Hreach IH
               | this m id r Hreach IH]; intros s Hmany Hboth.
- rewrite _flushPending_nil by done.
  assert (E : ∀ s', payloads s' (new m r meta m' r' meta') = ∅).
  { intros []; unfold payloads; simpl; [done |]. by destruct (negb _). }
  unfold keptInStep. rewrite !E. split.
  + intros k e He. by rewrite lookup_empty in He.
  + intros X Y (e & He & _). by rewrite lookup_empty in He.
- rewrite flush_after_push. apply flushOne_keptInStep.
  + by rewrite toMany_flushPending.
  + rewrite _isReflexive_flushPending, toMany_flushPending. exact Hboth.
  + cbn [work_modelName work_relationshipName work_relationshipData].
    rewrite ownSide_flushPending, toMany_flushPending. exact Hshape.
  + by apply IH.
- rewrite get_flushed in *. cbn [snd] in *. rewrite flush_flushed.
  rewrite toMany_flushPending in Hmany.
  rewrite _isReflexive_flushPending, toMany_flushPending in Hboth.
  by apply IH.
- rewrite unload_sides in *. rewrite otherSide_opposite in *.
  rewrite toMany_unload, toMany_flushPending in Hmany.
  rewrite _isReflexive_unload, _isReflexive_flushPending, toMany_unload,
    toMany_flushPending in Hboth.
  rewrite _flushPending_nil
    by (rewrite _pendingPayloads_unload; apply _flushPending_done).
  apply _unload_keptInStep. by apply IH.
Qed.
End PayloadsInStep.

(** C2, amended, for relationships-payloads.js.  Take a ledger reached from
    a new one by [push], [get] and [unload], where the ids pushed name no
    member of [Object.prototype] and the fragment pushed for a to-many
    relationship is a list, and flush it.
    - If the entry at [Y] on one side lists [X], and the relationship of the
      other side is to-many (on a reflexive ledger: under both of its
      names), then the entry at [X] on that other side lists [Y].
    - Hence, when both relationships are to-many, the entry at [X] on one
      side lists [Y] if and only if the entry at [Y] on the other side lists
      [X].
    Only the direction into a to-one side is not kept: a to-one entry holds
    the owner added last, while an earlier owner still lists it.
    In particular, on any ledger: push [(modelName, id, relationshipName)]
    with data that holds the reference [r], and read before any other push;
    [get] for the other side at [r]'s id returns an entry whose data holds
    the back-reference [{ id, type: modelName }], whatever was queued or
    stored before and whichever side was pushed first.  (On a reflexive
    ledger both sides are one table, and a reference to the pushed id itself
    gets no back-reference.) *)
Theorem a_to_many_side_lists_back_what_the_other_side_lists :
  ∀ store this,
    (reachable store this →
     let flushed := Payloads.RelationshipPayloads._flushPending this in
     (∀ s,
        toMany s this = true →
        (Payloads.RelationshipPayloads._isReflexive this = true →
         toMany (opposite s) this = true) →
        ∀ X Y,
          listsAt (Payloads.RelationshipPayloads.payloads (opposite s) flushed)
            Y X →
          listsAt (Payloads.RelationshipPayloads.payloads s flushed) X Y)
     ∧ (toMany Lhs this = true → toMany Rhs this = true → symmetric flushed))
    ∧ (∀ modelName id relationshipName relationshipData r otherModelName
         otherRelationshipName,
         r ∈ references (data relationshipData) →
         Payloads.RelationshipPayloads._isReflexive this = false
         ∨ ref_id r ≠ id →
         Payloads.RelationshipPayloads._isReflexive this = true
         ∨ Payloads.RelationshipPayloads.ownSide this otherModelName
             otherRelationshipName
           = Payloads.RelationshipPayloads.otherSide this modelName
               relationshipName →
         ∃ e,
           (Payloads.RelationshipPayloads.get
              (Payloads.RelationshipPayloads.push this modelName id
                 relationshipName relationshipData)
              otherModelName (ref_id r) otherRelationshipName).1 = Some e
           ∧ {| ref_id := id; ref_type := modelName |} ∈ references (data e)).
Proof.
  intros store this. split.
  - intros Hreach flushed.
    assert (Hdir : ∀ s,
      toMany s this = true →
      (Payloads.RelationshipPayloads._isReflexive this = true →
       toMany (opposite s) this = true) →
      ∀ X Y,
        listsAt (Payloads.RelationshipPayloads.payloads (opposite s) flushed)
          Y X →
        listsAt (Payloads.RelationshipPayloads.payloads s flushed) X Y).
    { intros s Hmany Hboth.
      by destruct (reachable_keptInStep store this Hreach s Hmany Hboth). }
    split; [exact Hdir |].
    intros Hl Hr X Y. split.
    + apply (Hdir Lhs Hl (λ _, Hr) Y X).
    + apply (Hdir Rhs Hr (λ _, Hl) X Y).
  - intros modelName id relationshipName relationshipData r otherModelName
      otherRelationshipName.
    apply get_back_reference_after_push.
Qed.

(** Two users pushed with the same hobby, and read: the ledger is
    reachable, [hobby/2] points to [user/3] and [user/3] lists it; the
    to-many [friends] of a user pushed with a friend are symmetric; and a
    read of the other side right after a push holds the back-reference. *)
Lemma a_to_many_side_lists_back_what_the_other_side_lists_witness :
  reachable exampleStore twoOwners
  ∧ listsAt
      (Payloads.RelationshipPayloads.payloads Lhs
         (Payloads.RelationshipPayloads._flushPending twoOwners)) "3" "2"
  ∧ symmetric
      (Payloads.RelationshipPayloads._flushPending
         (Payloads.RelationshipPayloads.push friendsLedger "user" "1" "friends"
            {| data := DataMany [user "2"] |}))
  ∧ ∃ e,
      (Payloads.RelationshipPayloads.get
         (Payloads.RelationshipPayloads.push hobbiesLedger "user" "1" "hobbies"
            {| data := DataMany [hobby "2"] |})
         "hobby" "2" "user").1 = Some e
      ∧ user "1" ∈ references (data e).
Proof.
  assert (Hreach : reachable exampleStore twoOwners).
  { apply reachable_get. apply reachable_push; [|done | by eexists].
    apply reachable_push; [|done | by eexists]. apply reachable_new. }
  split_and!.
  - exact Hreach.
  - destruct (a_to_many_side_lists_back_what_the_other_side_lists exampleStore
                twoOwners) as [Hinv _].
    destruct (Hinv Hreach) as [Hdir _].
    apply (Hdir Lhs); [done | done |].
    exists {| data := DataOne (user "3") |}. split; [by vm_compute |].
    exists (user "3"). split; [apply list_elem_of_here | done].
  - destruct (a_to_many_side_lists_back_what_the_other_side_lists exampleStore
                (Payloads.RelationshipPayloads.push friendsLedger "user" "1"
                   "friends" {| data := DataMany [user "2"] |}))
      as [Hinv _].
    destruct Hinv as [_ Hsym]; [|by apply Hsym].
    apply reachable_push; [apply reachable_new | done | by eexists].
  - destruct (a_to_many_side_lists_back_what_the_other_side_lists exampleStore
                hobbiesLedger) as [_ Hpush].
    apply (Hpush "user" "1" "hobbies" {| data := DataMany [hobby "2"] |}
             (hobby "2") "hobby" "user").
    + apply list_elem_of_here.
    + by left.
    + by right.
Defined.

(** * Further properties of the registry of relationships-payloads.js *)

Section PayloadsRegistry.
Import Payloads.RelationshipsPayloads.
Variable store : Store.

Lemma linked_new : linked new.
Proof. intros key p. unfold new. simpl. by rewrite lookup_empty. Qed.

Lemma linked_onObject p f this : linked this → linked (onObject p f this).
Proof. intros H key q. simpl. rewrite length_alter. apply H. Qed.

(** Resolving with [init] a declared relationship yields a ledger object
    filed under the relationship's key. *)
Lemma resolve_with_init this modelName relationshipName :
linked this →
Map_has (relationshipsByName store modelName) relationshipName = true →
∃ p o this',
  _getRelationshipPayloads store this modelName relationshipName true
  = (Some p, this')
  ∧ _cache this' !! keyOf modelName relationshipName = Some p
  ∧ objects this' !! p = Some o
  ∧ linked this'.
Proof.
intros Hl Hhas. unfold _getRelationshipPayloads. rewrite Hhas. simpl.
destruct (_cache this !! keyOf modelName relationshipName) as [p|] eqn:E.
- destruct (lookup_lt_is_Some_2 (objects this) p (Hl _ _ E)) as [o Ho].
  by exists p, o, this.
- destruct (_initializeRelationshipPayloads store this modelName
              relationshipName) as [p this'] eqn:Hinit.
  unfold _initializeRelationshipPayloads in Hinit.
  destruct (match inverseFor store modelName relationshipName with
            | Some im => _
            | None => _
            end) as [[inverseModelName inverseRelationshipName]
                       inverseRelationshipMeta].
  injection Hinit as <- <-.
  eexists _, _, _. split; [reflexivity |]. simpl.
  split; [apply lookup_insert_eq |].
  split; [rewrite lookup_app_r, Nat.sub_diag by done; reflexivity |].
  intros key q. simpl. rewrite length_app. simpl. intros Hq.
  apply lookup_insert_Some in Hq as [[_ <-]|[_ Hq]]; [lia |].
  apply lookup_insert_Some in Hq as [[_ <-]|[_ Hq]]; [lia |].
  apply Hl in Hq. lia.
Qed.

Lemma resolve_filed this modelName relationshipName p init :
Map_has (relationshipsByName store modelName) relationshipName = true →
_cache this !! keyOf modelName relationshipName = Some p →
_getRelationshipPayloads store this modelName relationshipName init
= (Some p, this).
Proof.
intros Hhas E. unfold _getRelationshipPayloads. by rewrite Hhas, E.
Qed.

Lemma get_on_object this modelName id relationshipName p o :
Map_has (relationshipsByName store modelName) relationshipName = true →
_cache this !! keyOf modelName relationshipName = Some p →
objects this !! p = Some o →
(get store this modelName id relationshipName).1
= (Payloads.RelationshipPayloads.get o modelName id relationshipName).1.
Proof.
intros Hhas E Ho. unfold get.
rewrite (resolve_filed _ _ _ p false Hhas E), Ho.
by destruct (Payloads.RelationshipPayloads.get o modelName id relationshipName).
Qed.

Lemma unload_step_creates_nothing this modelName id relationshipName :
let this' :=
  match _getRelationshipPayloads store this modelName relationshipName false
  with
  | (Some p, this) =>
      onObject p
        (λ o, Payloads.RelationshipPayloads.unload store o modelName id
                relationshipName) this
  | (None, this) => this
  end in
_cache this' = _cache this ∧ length (objects this') = length (objects this).
Proof.
pose proof (Payloads_resolve_without_init store this modelName
              relationshipName) as E.
destruct (_getRelationshipPayloads store this modelName relationshipName false)
  as [[p|] this0]; simpl in *; subst this0; [|done].
split; [done | apply length_alter].
Qed.
End PayloadsRegistry.

(** X10.  relationships-payloads.js, the registry: after [push] of one
    declared relationship of a model, [get] for that model, id and
    relationship returns the fragment pushed, whatever the registry held
    before. *)
Theorem registry_get_returns_the_last_push :
  ∀ store this modelName id relationshipName relationshipData,
    linked this →
    Map_has (relationshipsByName store modelName) relationshipName = true →
    (Payloads.RelationshipsPayloads.get store
       (Payloads.RelationshipsPayloads.push store this modelName id
          (Some [(relationshipName, relationshipData)]))
       modelName id relationshipName).1
    = Some relationshipData.
Proof.
  intros store this modelName id relationshipName relationshipData Hl Hhas.
  destruct (resolve_with_init store this modelName relationshipName Hl Hhas)
    as (p & o & this' & Hres & Hkey & Ho & _).
  simpl. rewrite Hres.
  rewrite (get_on_object store _ modelName id relationshipName p
             (Payloads.RelationshipPayloads.push o modelName id
                relationshipName relationshipData) Hhas).
  - apply get_after_push.
  - exact Hkey.
  - simpl. by rewrite list_lookup_alter_eq, Ho.
Qed.

Lemma registry_get_returns_the_last_push_witness :
  (Payloads.RelationshipsPayloads.get exampleStore
     (Payloads.RelationshipsPayloads.push exampleStore
        Payloads.RelationshipsPayloads.new "user" "1"
        (Some [("friends", {| data := DataMany [user "1"; user "2"] |})]))
     "user" "1" "friends").1
  = Some {| data := DataMany [user "1"; user "2"] |}.
Proof.
  apply (registry_get_returns_the_last_push exampleStore
           Payloads.RelationshipsPayloads.new "user" "1" "friends").
  - apply linked_new.
  - done.
Defined.

(** X11.  relationships-payloads.js, the registry: [unload] never creates a
    ledger; it leaves [_cache] and the number of ledger objects as they
    were. *)
Theorem registry_unload_creates_nothing :
  ∀ store this modelName id,
    let this' := Payloads.RelationshipsPayloads.unload store this modelName id in
    Payloads.RelationshipsPayloads._cache this'
    = Payloads.RelationshipsPayloads._cache this
    ∧ length (Payloads.RelationshipsPayloads.objects this')
      = length (Payloads.RelationshipsPayloads.objects this).
Proof.
  intros store this modelName id. unfold Payloads.RelationshipsPayloads.unload.
  generalize (relationshipsByName store modelName) as rels.
  intros rels. revert this.
  induction rels as [|[relationshipName meta] rels IH]; intros this; [done |].
  simpl.
  destruct (unload_step_creates_nothing store this modelName id
              relationshipName) as [Hc Hn].
  simpl in *. specialize (IH
    (match
       Payloads.RelationshipsPayloads._getRelationshipPayloads store this
         modelName relationshipName false
     with
     | (Some p, this0) =>
         Payloads.RelationshipsPayloads.onObject p
           (λ o, Payloads.RelationshipPayloads.unload store o modelName id
                   relationshipName) this0
     | (None, this0) => this0
     end)).
  simpl in IH. destruct IH as [IHc IHn].
  split; [by rewrite IHc | by rewrite IHn].
Qed.

Section PayloadsRegistryInverse.
Import Payloads.RelationshipsPayloads.
Variable store : Store.
Variable this : t.
Variables modelName relationshipName : string.
Variable meta : RelationshipMeta.
Variable im : InverseMeta.
Hypothesis unfiled : _cache this !! keyOf modelName relationshipName = None.
Hypothesis declared :
  Map_get (relationshipsByName store modelName) relationshipName = Some meta.
Hypothesis inverse : inverseFor store modelName relationshipName = Some im.

Let object :=
  Payloads.RelationshipPayloads.new modelName relationshipName (Some meta)
    (meta_type meta) (inverse_name im)
    (Map_get (relationshipsByName store (inverse_type im)) (inverse_name im)).
Let created :=
  {| _cache :=
       <[keyOf modelName relationshipName := length (objects this)]>
         (<[keyOf (meta_type meta) (inverse_name im) := length (objects this)]>
            (_cache this));
     objects := objects this ++ [object] |}.

Lemma declared_has :
Map_has (relationshipsByName store modelName) relationshipName = true.
Proof. unfold Map_has. by rewrite declared. Qed.

Lemma resolve_creates :
_getRelationshipPayloads store this modelName relationshipName true
= (Some (length (objects this)), created).
Proof.
unfold _getRelationshipPayloads. rewrite declared_has, unfiled. simpl.
unfold _initializeRelationshipPayloads. by rewrite declared, inverse.
Qed.

Lemma created_inverse_key :
_cache created !! keyOf (meta_type meta) (inverse_name im)
= Some (length (objects this)).
Proof.
simpl.
destruct (decide (keyOf modelName relationshipName
                  = keyOf (meta_type meta) (inverse_name im))) as [->|Hne].
- apply lookup_insert_eq.
- rewrite lookup_insert_ne by done. apply lookup_insert_eq.
Qed.

Lemma created_object : objects created !! length (objects this) = Some object.
Proof. simpl. by rewrite lookup_app_r, Nat.sub_diag. Qed.
End PayloadsRegistryInverse.

(** X12.  relationships-payloads.js, [_initializeRelationshipPayloads]: the
    first lookup with [init] of a relationship that has an inverse makes one
    ledger and files it for both sides: a later lookup from the relationship
    or from its inverse (declared on the target model) finds that same
    object, and creates nothing. *)
Theorem registry_files_one_ledger_for_both_sides :
  ∀ store this modelName relationshipName meta im,
    Payloads.RelationshipsPayloads._cache this
      !! Payloads.RelationshipsPayloads.keyOf modelName relationshipName
    = None →
    Map_get (relationshipsByName store modelName) relationshipName = Some meta →
    inverseFor store modelName relationshipName = Some im →
    Map_has (relationshipsByName store (meta_type meta)) (inverse_name im)
    = true →
    ∃ p this',
      Payloads.RelationshipsPayloads._getRelationshipPayloads store this
        modelName relationshipName true = (Some p, this')
      ∧ Payloads.RelationshipsPayloads._getRelationshipPayloads store this'
          modelName relationshipName false = (Some p, this')
      ∧ Payloads.RelationshipsPayloads._getRelationshipPayloads store this'
          (meta_type meta) (inverse_name im) false = (Some p, this')
      ∧ Payloads.RelationshipsPayloads.objects this' !! p
        = Some
            (Payloads.RelationshipPayloads.new modelName relationshipName
               (Some meta) (meta_type meta) (inverse_name im)
               (Map_get (relationshipsByName store (inverse_type im))
                  (inverse_name im))).
Proof.
  intros store this modelName relationshipName meta im Hun Hdecl Hinv Hhas.
  eexists _, _. split; [by apply resolve_creates |].
  split; [|split].
  - apply resolve_filed; [by eapply declared_has |]. apply lookup_insert_eq.
  - apply resolve_filed; [done |]. apply created_inverse_key.
  - apply created_object.
Qed.

Lemma registry_files_one_ledger_for_both_sides_witness :
  ∃ p this',
    Payloads.RelationshipsPayloads._getRelationshipPayloads exampleStore
      Payloads.RelationshipsPayloads.new "user" "hobbies" true = (Some p, this')
    ∧ Payloads.RelationshipsPayloads._getRelationshipPayloads exampleStore this'
        "hobby" "user" false = (Some p, this')
    ∧ Payloads.RelationshipsPayloads.objects this' !! p = Some hobbiesLedger.
Proof.
  destruct (registry_files_one_ledger_for_both_sides exampleStore
              Payloads.RelationshipsPayloads.new "user" "hobbies"
              {| meta_kind := hasMany; meta_type := "hobby" |}
              {| inverse_name := "user"; inverse_type := "hobby" |})
    as (p & this' & H1 & _ & H3 & H4); [done.. |].
  by exists p, this'.
Defined.

(** X13.  relationships-payloads.js, the registry: after the first [push] of
    a relationship that has an inverse, [get] from the inverse side, at the
    id of a reference pushed, returns an entry that holds the back-reference
    to the pushed id (a reference to the pushed id itself apart, when the
    relationship is its own inverse). *)
Theorem registry_push_is_readable_from_the_inverse :
  ∀ store this modelName id relationshipName relationshipData meta im r,
    Payloads.RelationshipsPayloads._cache this
      !! Payloads.RelationshipsPayloads.keyOf modelName relationshipName
    = None →
    Map_get (relationshipsByName store modelName) relationshipName = Some meta →
    inverseFor store modelName relationshipName = Some im →
    Map_has (relationshipsByName store (meta_type meta)) (inverse_name im)
    = true →
    r ∈ references (data relationshipData) →
    (modelName ≠ meta_type meta ∨ relationshipName ≠ inverse_name im)
    ∨ ref_id r ≠ id →
    ∃ e,
      (Payloads.RelationshipsPayloads.get store
         (Payloads.RelationshipsPayloads.push store this modelName id
            (Some [(relationshipName, relationshipData)]))
         (meta_type meta) (ref_id r) (inverse_name im)).1 = Some e
      ∧ {| ref_id := id; ref_type := modelName |} ∈ references (data e).
Proof.
  intros store this modelName id relationshipName relationshipData meta im r
    Hun Hdecl Hinv Hhas Hr Hguard.
  simpl. rewrite (resolve_creates store this _ _ meta im Hun Hdecl Hinv).
  set (object :=
         Payloads.RelationshipPayloads.new modelName relationshipName
           (Some meta) (meta_type meta) (inverse_name im)
           (Map_get (relationshipsByName store (inverse_type im))
              (inverse_name im))).
  rewrite (get_on_object store _ (meta_type meta) (ref_id r) (inverse_name im)
             (length (Payloads.RelationshipsPayloads.objects this))
             (Payloads.RelationshipPayloads.push object modelName id
                relationshipName relationshipData) Hhas).
  2:{ apply created_inverse_key. }
  2:{ simpl. rewrite list_lookup_alter_eq.
      by rewrite lookup_app_r, Nat.sub_diag. }
  assert (Hlhs : Payloads.RelationshipPayloads.isLhs object modelName
                   relationshipName = true).
  { unfold Payloads.RelationshipPayloads.isLhs. simpl.
    by rewrite !bool_decide_eq_true_2. }
  assert (Hside :
    Payloads.RelationshipPayloads._isReflexive object = true
    ∨ Payloads.RelationshipPayloads.ownSide object (meta_type meta)
        (inverse_name im)
      = Payloads.RelationshipPayloads.otherSide object modelName
          relationshipName).
  { unfold Payloads.RelationshipPayloads.ownSide,
      Payloads.RelationshipPayloads.otherSide. rewrite Hlhs.
    unfold Payloads.RelationshipPayloads.isLhs. simpl.
    destruct (decide (meta_type meta = modelName)) as [E1|N1];
      [destruct (decide (inverse_name im = relationshipName)) as [E2|N2] |].
    - left. rewrite E1, E2.
      by rewrite !bool_decide_eq_false_2 by (by intros H; apply H).
    - right. rewrite (bool_decide_eq_false_2 (inverse_name im = _)) by done.
      by rewrite andb_false_r.
    - right. by rewrite (bool_decide_eq_false_2 (meta_type meta = _)). }
  rewrite (get_other_side_after_push object modelName id relationshipName
             relationshipData _ _ _ Hside).
  apply (flushOne_back_reference
           (Payloads.RelationshipPayloads._flushPending object)
           (workOf modelName id relationshipName relationshipData) r Hr).
  destruct Hguard as [Hnames|Hid]; [left | by right].
  simpl. destruct Hnames as [N|N].
  - by rewrite (bool_decide_eq_true_2 _ N).
  - rewrite (bool_decide_eq_true_2 _ N). by rewrite orb_true_r.
Qed.

Lemma registry_push_is_readable_from_the_inverse_witness :
  ∃ e,
    (Payloads.RelationshipsPayloads.get exampleStore
       (Payloads.RelationshipsPayloads.push exampleStore
          Payloads.RelationshipsPayloads.new "user" "1"
          (Some [("hobbies", {| data := DataMany [hobby "2"] |})]))
       "hobby" "2" "user").1 = Some e
    ∧ user "1" ∈ references (data e).
Proof.
  apply (registry_push_is_readable_from_the_inverse exampleStore
           Payloads.RelationshipsPayloads.new "user" "1" "hobbies"
           {| data := DataMany [hobby "2"] |}
           {| meta_kind := hasMany; meta_type := "hobby" |}
           {| inverse_name := "user"; inverse_type := "hobby" |} (hobby "2"));
    try done.
  - apply list_elem_of_here.
  - left. by left.
Defined.

(** * Further properties of part_000 *)

Section Part000Registry.
Import Part000.RelationshipsPayloads.

Lemma keyOf_symmetric modelName relationshipName inverseModelName
    inverseRelationshipName :
keyOf modelName relationshipName inverseModelName inverseRelationshipName
= keyOf inverseModelName inverseRelationshipName modelName relationshipName.
Proof.
unfold keyOf, String.ltb.
set (k1 := modelName +:+ ":" +:+ relationshipName).
set (k2 := inverseModelName +:+ ":" +:+ inverseRelationshipName).
rewrite (String.compare_antisym k2 k1).
destruct (String.compare k1 k2) eqn:E; simpl; [|done..].
apply String.compare_eq_iff in E. by rewrite E.
Qed.
End Part000Registry.

(** X14.  part_000, [_getRelationshipPayloads]: the key a pair of
    relationships is filed under does not depend on the side it is built
    from; so when each of two declared relationships resolves to the other
    as its inverse, lookups from either side find the same ledger, the
    second creating nothing, and a lookup never changes a ledger already
    filed. *)
Theorem part000_files_one_ledger_for_both_sides :
  ∀ store this modelName relationshipName inverseModelName
    inverseRelationshipName,
    Map_has (relationshipsByName store modelName) relationshipName = true →
    Map_has (relationshipsByName store inverseModelName) inverseRelationshipName
    = true →
    Part000.RelationshipsPayloads._inverseFor store modelName relationshipName
    = Some (inverseModelName, inverseRelationshipName) →
    Part000.RelationshipsPayloads._inverseFor store inverseModelName
      inverseRelationshipName
    = Some (modelName, relationshipName) →
    Part000.RelationshipsPayloads.keyOf modelName relationshipName
      inverseModelName inverseRelationshipName
    = Part000.RelationshipsPayloads.keyOf inverseModelName
        inverseRelationshipName modelName relationshipName
    ∧ ∃ key this',
        Part000.RelationshipsPayloads._getRelationshipPayloads store this
          modelName relationshipName = Ret (Some key, this')
        ∧ Part000.RelationshipsPayloads._getRelationshipPayloads store this'
            inverseModelName inverseRelationshipName = Ret (Some key, this')
        ∧ is_Some (Part000.RelationshipsPayloads._map this' !! key)
        ∧ ∀ k o,
            Part000.RelationshipsPayloads._map this !! k = Some o →
            Part000.RelationshipsPayloads._map this' !! k = Some o.
Proof.
  intros store this modelName relationshipName inverseModelName
    inverseRelationshipName Hhas Hhas' Hinv Hinv'.
  split; [apply keyOf_symmetric |].
  set (key := Part000.RelationshipsPayloads.keyOf modelName relationshipName
                inverseModelName inverseRelationshipName).
  assert (Hsecond : ∀ this',
    is_Some (Part000.RelationshipsPayloads._map this' !! key) →
    Part000.RelationshipsPayloads._getRelationshipPayloads store this'
      inverseModelName inverseRelationshipName = Ret (Some key, this')).
  { intros this' [o Ho].
    unfold Part000.RelationshipsPayloads._getRelationshipPayloads.
    rewrite Hhas', Hinv'. simpl. rewrite <- keyOf_symmetric. fold key.
    by rewrite Ho. }
  unfold Part000.RelationshipsPayloads._getRelationshipPayloads at 1.
  rewrite Hhas, Hinv. simpl. fold key.
  destruct (Part000.RelationshipsPayloads._map this !! key) as [o|] eqn:E.
  - exists key, this. split; [done |]. split; [by apply Hsecond |]. by rewrite E.
  - eexists key, _. split; [reflexivity |].
    assert (Hin : is_Some
      (<[key := Part000.RelationshipPayloads.new modelName relationshipName
                  inverseModelName inverseRelationshipName]>
         (Part000.RelationshipsPayloads._map this) !! key))
      by (by rewrite lookup_insert_eq).
    split; [by apply Hsecond |]. split; [done |].
    intros k o Ho. simpl. rewrite lookup_insert_ne; [done |]. congruence.
Qed.

Lemma part000_files_one_ledger_for_both_sides_witness :
  ∃ key this',
    Part000.RelationshipsPayloads._getRelationshipPayloads exampleStore
      Part000.RelationshipsPayloads.new "user" "hobbies" = Ret (Some key, this')
    ∧ Part000.RelationshipsPayloads._getRelationshipPayloads exampleStore this'
        "hobby" "user" = Ret (Some key, this').
Proof.
  destruct (part000_files_one_ledger_for_both_sides exampleStore
              Part000.RelationshipsPayloads.new "user" "hobbies" "hobby" "user")
    as (_ & key & this' & H1 & H2 & _); [done.. |].
  by exists key, this'.
Defined.

(** X15.  part_000, [push] then [get] on a ledger: if the ledger's earlier
    queue flushes, the cardinality getter of the other side answers, and the
    pushed data does not refer to the pushed id on a reflexive ledger, then
    within a number of loop iterations above the number of references
    pushed the read returns, with the fragment exactly as pushed, flagged
    [inverse: false], and the queue is empty afterwards. *)
Theorem part000_get_returns_the_last_push :
  ∀ store fuel this modelName id relationshipName relationshipData
    inverseIsMany queued,
    Part000.RelationshipPayloads._flushPending store fuel this = Ret queued →
    inverseIsManyFor000 store this
      (workOf modelName id relationshipName relationshipData)
    = Ret inverseIsMany →
    Part000.RelationshipPayloads.rhsIsLhs this = false
    ∨ ¬ lists (data relationshipData) id →
    length (references (data relationshipData)) < fuel →
    ∃ this',
      Part000.RelationshipPayloads.get store fuel
        (Part000.RelationshipPayloads.push this modelName id relationshipName
           relationshipData)
        modelName id relationshipName
      = Ret (Some {| Part000.payload := relationshipData;
                     Part000.inverse := false |}, this')
      ∧ Part000.RelationshipPayloads._pendingPayloads this' = [].
Proof.
  intros store fuel this modelName id relationshipName relationshipData
    inverseIsMany queued Hqueued Hmany Hsafe Hfuel.
  set (w := workOf modelName id relationshipName relationshipData).
  set (base := Part000.RelationshipPayloads.set_pendingPayloads [] this).
  assert (N0 : sameNames queued base)
    by (by apply flushLoop_sameNames in Hqueued).
  assert (Hsafe0 :
    Part000.RelationshipPayloads.rhsIsLhs queued = false
    ∨ ¬ lists (data (work_relationshipData w)) (work_id w)).
  { destruct N0 as (_&_&_&_&E&_). by rewrite E. }
  assert (Hstep :
    Part000.RelationshipPayloads.flushOne store fuel queued w
    = Ret (flushedOne000 queued w inverseIsMany)).
  { apply flushOne000_returns; [|done..].
    by rewrite (sameNames_inverseIsManyFor000 store queued base w N0). }
  set (s1 := flushedOne000 queued w inverseIsMany).
  assert (N1 : sameNames s1 base)
    by (eapply sameNames_trans; [apply sameNames_flushedOne000 | done]).
  exists s1. split.
  - unfold Part000.RelationshipPayloads.get,
      Part000.RelationshipPayloads._flushPending.
    replace (Part000.RelationshipPayloads._pendingPayloads
               (Part000.RelationshipPayloads.push this modelName id
                  relationshipName relationshipData))
      with (Part000.RelationshipPayloads._pendingPayloads this ++ [w]) by done.
    replace (Part000.RelationshipPayloads.set_pendingPayloads []
               (Part000.RelationshipPayloads.push this modelName id
                  relationshipName relationshipData)) with base by done.
    unfold Part000.RelationshipPayloads._flushPending in Hqueued.
    rewrite flushLoop_app. unfold base at 1. rewrite Hqueued. simpl.
    rewrite Hstep. simpl. fold s1.
    pose proof (flushedOne000_own queued w inverseIsMany Hsafe0) as Hown.
    fold s1 in Hown.
    rewrite (sameNames_isLhs s1 base _ _ N1).
    rewrite (sameNames_ownSide queued base _ _ N0) in Hown.
    unfold Part000.RelationshipPayloads.ownSide in Hown. simpl in Hown.
    change (Part000.RelationshipPayloads.isLhs base modelName relationshipName)
      with (Part000.RelationshipPayloads.isLhs this modelName relationshipName)
      in *.
    destruct (Part000.RelationshipPayloads.isLhs this modelName
                relationshipName); by rewrite <- Hown.
  - by destruct N1 as (_&_&_&_&_&->).
Qed.

Lemma part000_get_returns_the_last_push_witness :
  ∃ this',
    Part000.RelationshipPayloads.get exampleStore 2
      (Part000.RelationshipPayloads.push hobbiesLedger000 "user" "1" "hobbies"
         {| data := DataMany [hobby "2"] |})
      "user" "1" "hobbies"
    = Ret (Some {| Part000.payload := {| data := DataMany [hobby "2"] |};
                   Part000.inverse := false |}, this')
    ∧ Part000.RelationshipPayloads._pendingPayloads this' = [].
Proof.
  apply (part000_get_returns_the_last_push exampleStore 2 hobbiesLedger000
           "user" "1" "hobbies" {| data := DataMany [hobby "2"] |} false
           hobbiesLedger000).
  - done.
  - done.
  - by left.
  - simpl. lia.
Defined.

Section Part000Reads.
Import Part000 Part000.RelationshipPayloads.
Variable store : Store.

(** What any read returns after a push, when the flush returns. *)
Lemma get000_after_push fuel this modelName id relationshipName relationshipData
    inverseIsMany queued otherModelName k otherRelationshipName :
_flushPending store fuel this = Ret queued →
inverseIsManyFor000 store this
  (workOf modelName id relationshipName relationshipData)
= Ret inverseIsMany →
rhsIsLhs this = false ∨ ¬ lists (data relationshipData) id →
length (references (data relationshipData)) < fuel →
let after :=
  flushedOne000 queued (workOf modelName id relationshipName relationshipData)
    inverseIsMany in
get store fuel (push this modelName id relationshipName relationshipData)
  otherModelName k otherRelationshipName
= Ret (payloads (ownSide this otherModelName otherRelationshipName) after !! k,
       after)
∧ sameNames queued (set_pendingPayloads [] this).
Proof.
intros Hqueued Hmany Hsafe Hfuel after.
set (w := workOf modelName id relationshipName relationshipData) in *.
set (base := set_pendingPayloads [] this).
assert (N0 : sameNames queued base)
  by (by apply flushLoop_sameNames in Hqueued).
split; [|done].
assert (Hstep : flushOne store fuel queued w = Ret after).
{ apply flushOne000_returns; [| |done].
  - by rewrite (sameNames_inverseIsManyFor000 store queued base w N0).
  - destruct N0 as (_&_&_&_&E&_). by rewrite E. }
assert (N1 : sameNames after base)
  by (eapply sameNames_trans; [apply sameNames_flushedOne000 | done]).
unfold get, _flushPending.
replace (_pendingPayloads
           (push this modelName id relationshipName relationshipData))
  with (_pendingPayloads this ++ [w]) by done.
replace (set_pendingPayloads []
           (push this modelName id relationshipName relationshipData))
  with (set_pendingPayloads [] this) by done.
unfold _flushPending in Hqueued.
rewrite flushLoop_app, Hqueued. simpl. rewrite Hstep. simpl.
rewrite (sameNames_isLhs after base _ _ N1).
change (isLhs base otherModelName otherRelationshipName)
  with (isLhs this otherModelName otherRelationshipName).
unfold ownSide.
by destruct (isLhs this otherModelName otherRelationshipName).
Qed.

Lemma _removeInverse000_absent id entry (m : gmap string Entry) k :
m !! k = None → _removeInverse id entry m !! k = None.
Proof.
destruct entry as [e|]; [|done]. rewrite _removeInverse000_fold.
revert m. induction (references (data (payload e))) as [|r rs IH];
  intros m Hm; [done |].
simpl. apply IH. destruct (decide (k = ref_id r)) as [->|Hk].
- unfold _removeFromInverse. by rewrite Hm.
- by rewrite _removeFromInverse000_other.
Qed.

(** An add leaves a slot that held nothing, or an entry flagged [inverse:
    true] holding the back-reference, in one of these two states, and in
    the second if it is the slot added to. *)
Lemma _addToInverse000_derived inverseEntry inverseId (m : gmap string Entry)
    inverseIsMany k :
let derived (m : gmap string Entry) :=
  ∃ e, m !! k = Some e ∧ inverse e = true
       ∧ inverseEntry ∈ references (data (payload e)) in
m !! k = None ∨ derived m →
let m' := _addToInverse inverseEntry inverseId m inverseIsMany in
(m' !! k = None ∨ derived m') ∧ (k = inverseId → derived m').
Proof.
intros derived Hm m'. subst m'.
destruct (decide (k = inverseId)) as [->|Hk].
2:{ unfold derived. rewrite _addToInverse000_other by done. by split. }
assert (Hd : derived (_addToInverse inverseEntry inverseId m inverseIsMany)).
{ unfold derived, _addToInverse.
  destruct Hm as [Hm|(e & He & Hflag & Hin)].
  - rewrite Hm. destruct inverseIsMany; rewrite lookup_insert_eq; eexists;
      (split; [done |]); (split; [done |]); apply list_elem_of_here.
  - rewrite He. destruct e as [[d] b]. simpl in *. subst b.
    destruct d as [|r|rs]; [destruct inverseIsMany..|];
      rewrite lookup_insert_eq; eexists; (split; [done |]);
      (split; [done |]); simpl;
      first [apply list_elem_of_here | apply elem_of_app; by left]. }
by split; [right |].
Qed.

Lemma adds000_derived inverseEntry inverseIsMany rs r : ∀ m : gmap string Entry,
r ∈ rs →
m !! ref_id r = None →
∃ e,
  fold_left (λ m x, _addToInverse inverseEntry (ref_id x) m inverseIsMany) rs m
    !! ref_id r = Some e
  ∧ inverse e = true ∧ inverseEntry ∈ references (data (payload e)).
Proof.
assert (K : ∀ rs (m : gmap string Entry),
  (∃ e, m !! ref_id r = Some e ∧ inverse e = true
        ∧ inverseEntry ∈ references (data (payload e))) →
  ∃ e,
    fold_left (λ m x, _addToInverse inverseEntry (ref_id x) m inverseIsMany)
      rs m !! ref_id r = Some e
    ∧ inverse e = true ∧ inverseEntry ∈ references (data (payload e))).
{ induction rs0 as [|x rs0 IH]; intros m Hm; [done |]. simpl. apply IH.
  destruct (_addToInverse000_derived inverseEntry (ref_id x) m inverseIsMany
              (ref_id r) (or_intror Hm)) as [[Hnone|Hd] _]; [|done].
  destruct (decide (ref_id r = ref_id x)) as [E|NE].
  - by destruct (_addToInverse000_derived inverseEntry (ref_id x) m
                   inverseIsMany (ref_id r) (or_intror Hm)) as [_ Hd'];
      apply Hd'.
  - rewrite _addToInverse000_other in Hnone by done.
    destruct Hm as (e & He & _). congruence. }
induction rs as [|x rs IH]; intros m Hr Hm.
- by apply elem_of_nil in Hr.
- simpl.
  destruct (_addToInverse000_derived inverseEntry (ref_id x) m inverseIsMany
              (ref_id r) (or_introl Hm)) as [Hstate Hat].
  destruct (decide (ref_id r = ref_id x)) as [E|NE].
  + apply K, Hat, E.
  + apply elem_of_cons in Hr as [->|Hr]; [done |].
    apply IH; [done |]. by rewrite _addToInverse000_other.
Qed.
End Part000Reads.

(** X16.  part_000, provenance of a derived entry: under the conditions in
    which the flush of a push returns (X15), if the other side had no entry
    at the id of a reference pushed, the read of the other side at that id
    returns an entry flagged [inverse: true] whose data holds the
    back-reference to the pushed id. *)
Theorem part000_derived_entry_is_flagged :
  ∀ store fuel this modelName id relationshipName relationshipData
    inverseIsMany queued r otherModelName otherRelationshipName,
    Part000.RelationshipPayloads._flushPending store fuel this = Ret queued →
    inverseIsManyFor000 store this
      (workOf modelName id relationshipName relationshipData)
    = Ret inverseIsMany →
    Part000.RelationshipPayloads.rhsIsLhs this = false
    ∨ ¬ lists (data relationshipData) id →
    length (references (data relationshipData)) < fuel →
    r ∈ references (data relationshipData) →
    Part000.RelationshipPayloads.rhsIsLhs this = true
    ∨ Part000.RelationshipPayloads.ownSide this otherModelName
        otherRelationshipName
      = Part000.RelationshipPayloads.otherSide this modelName relationshipName →
    Part000.RelationshipPayloads.payloads
      (Part000.RelationshipPayloads.otherSide this modelName relationshipName)
      queued !! ref_id r = None →
    (Part000.RelationshipPayloads.rhsIsLhs this = true → ref_id r ≠ id) →
    ∃ e this',
      Part000.RelationshipPayloads.get store fuel
        (Part000.RelationshipPayloads.push this modelName id relationshipName
           relationshipData)
        otherModelName (ref_id r) otherRelationshipName
      = Ret (Some e, this')
      ∧ Part000.inverse e = true
      ∧ {| ref_id := id; ref_type := modelName |}
        ∈ references (data (Part000.payload e)).
Proof.
  intros store fuel this modelName id relationshipName relationshipData
    inverseIsMany queued r otherModelName otherRelationshipName Hqueued Hmany
    Hsafe Hfuel Hr Hside Hnone Hself.
  destruct (get000_after_push store fuel this modelName id relationshipName
              relationshipData inverseIsMany queued otherModelName (ref_id r)
              otherRelationshipName Hqueued Hmany Hsafe Hfuel) as [Hget N0].
  set (w := workOf modelName id relationshipName relationshipData) in *.
  set (after := flushedOne000 queued w inverseIsMany) in *.
  assert (Hre : Part000.RelationshipPayloads.rhsIsLhs queued
                = Part000.RelationshipPayloads.rhsIsLhs this)
    by (by destruct N0 as (_&_&_&_&E&_)).
  assert (Hinv :
    Part000.RelationshipPayloads.otherSide queued modelName relationshipName
    = Part000.RelationshipPayloads.otherSide this modelName relationshipName)
    by exact (sameNames_otherSide queued _ _ _ N0).
  assert (Hown :
    Part000.RelationshipPayloads.ownSide queued modelName relationshipName
    = Part000.RelationshipPayloads.ownSide this modelName relationshipName)
    by exact (sameNames_ownSide queued _ _ _ N0).
  assert (Hslot : ∃ e,
    Part000.RelationshipPayloads.payloads
      (Part000.RelationshipPayloads.otherSide this modelName relationshipName)
      after !! ref_id r = Some e
    ∧ Part000.inverse e = true
    ∧ backReference w ∈ references (data (Part000.payload e))).
  { rewrite <- Hinv. unfold after.
    destruct (Part000.RelationshipPayloads.rhsIsLhs this) eqn:Hshared.
    - rewrite (flushedOne000_shared queued w inverseIsMany) by congruence.
      apply adds000_derived; [done |].
      rewrite lookup_insert_ne by (intros E; by apply Hself).
      apply _removeInverse000_absent.
      rewrite <- (payloads000_reflexive
                    (Part000.RelationshipPayloads.otherSide this modelName
                       relationshipName) queued) by congruence.
      exact Hnone.
    - assert (Hns : Part000.RelationshipPayloads.rhsIsLhs queued = false)
        by congruence.
      destruct (flushedOne000_distinct queued w inverseIsMany Hns) as [_ Hd].
      change (work_modelName w) with modelName in Hd.
      change (work_relationshipName w) with relationshipName in Hd.
      rewrite Hd.
      apply adds000_derived; [done |].
      apply _removeInverse000_absent. by rewrite Hinv. }
  destruct Hslot as (e & He & Hflag & Hin).
  exists e, after. split; [|done].
  rewrite Hget. destruct Hside as [Hshared|Hside].
  - rewrite payloads000_reflexive.
    + rewrite payloads000_reflexive in He; [by rewrite He |].
      destruct (sameNames_flushedOne000 queued w inverseIsMany)
        as (_&_&_&_&E&_). unfold after. congruence.
    + destruct (sameNames_flushedOne000 queued w inverseIsMany)
        as (_&_&_&_&E&_). unfold after. congruence.
  - by rewrite Hside, He.
Qed.

Lemma part000_derived_entry_is_flagged_witness :
  ∃ e this',
    Part000.RelationshipPayloads.get exampleStore 2
      (Part000.RelationshipPayloads.push hobbiesLedger000 "user" "1" "hobbies"
         {| data := DataMany [hobby "2"] |})
      "hobby" "2" "user"
    = Ret (Some e, this')
    ∧ Part000.inverse e = true
    ∧ user "1" ∈ references (data (Part000.payload e)).
Proof.
  apply (part000_derived_entry_is_flagged exampleStore 2 hobbiesLedger000
           "user" "1" "hobbies" {| data := DataMany [hobby "2"] |} false
           hobbiesLedger000 (hobby "2") "hobby" "user").
  - done.
  - done.
  - by left.
  - simpl. lia.
  - apply list_elem_of_here.
  - by right.
  - done.
  - done.
Defined.

Section Part000RegistryPush.
Import Part000.RelationshipsPayloads.
Variable store : Store.
Variable this : t.
Variables modelName id relationshipName : string.
Variable relationshipData : Payload.
Variables inverseModelName inverseRelationshipName : string.
Hypothesis declared :
  Map_has (relationshipsByName store modelName) relationshipName = true.
Hypothesis inverse :
  _inverseFor store modelName relationshipName
  = Some (inverseModelName, inverseRelationshipName).
Let key :=
  keyOf modelName relationshipName inverseModelName inverseRelationshipName.
Hypothesis unfiled : _map this !! key = None.

Let ledger :=
  Part000.RelationshipPayloads.new modelName relationshipName inverseModelName
    inverseRelationshipName.
Let pushed :=
  {| _map :=
       <[key := Part000.RelationshipPayloads.push ledger modelName id
                  relationshipName relationshipData]> (_map this) |}.

Lemma push000_creates :
push store this modelName id (Some [(relationshipName, relationshipData)])
= Ret pushed.
Proof.
simpl. unfold _getRelationshipPayloads. rewrite declared, inverse. simpl.
fold key. rewrite unfiled. simpl. unfold pushed. f_equal. f_equal.
rewrite alter_insert_eq. done.
Qed.

Lemma get000_on_pushed fuel otherModelName k otherRelationshipName
    inverseModelName' inverseRelationshipName' :
Map_has (relationshipsByName store otherModelName) otherRelationshipName
= true →
_inverseFor store otherModelName otherRelationshipName
= Some (inverseModelName', inverseRelationshipName') →
keyOf otherModelName otherRelationshipName inverseModelName'
  inverseRelationshipName' = key →
get store fuel pushed otherModelName k otherRelationshipName
= (r ←! Part000.RelationshipPayloads.get store fuel
          (Part000.RelationshipPayloads.push ledger modelName id
             relationshipName relationshipData)
          otherModelName k otherRelationshipName;
   Ret (r.1, {| _map := <[key := r.2]> (_map pushed) |})).
Proof.
intros Hhas Hinv Hkey. unfold get, _getRelationshipPayloads.
rewrite Hhas, Hinv. simpl. rewrite Hkey.
rewrite lookup_insert_eq. simpl. by rewrite lookup_insert_eq.
Qed.
End Part000RegistryPush.

Section Part000Fresh.
Import Part000 Part000.RelationshipPayloads.
Variable store : Store.
Variables modelName id relationshipName : string.
Variable relationshipData : Payload.
Variables inverseModelName inverseRelationshipName : string.
Variable inverseIsMany : bool.
Variable fuel : nat.
Hypothesis getter :
  relationshipIsMany store inverseModelName inverseRelationshipName
  = Ret inverseIsMany.
Hypothesis safe :
  (modelName ≠ inverseModelName ∨ relationshipName ≠ inverseRelationshipName)
  ∨ ¬ lists (data relationshipData) id.
Hypothesis enough : length (references (data relationshipData)) < fuel.

Let ledger :=
  new modelName relationshipName inverseModelName inverseRelationshipName.
Let w := workOf modelName id relationshipName relationshipData.
Let after := flushedOne000 ledger w inverseIsMany.

Lemma fresh_isLhs : isLhs ledger modelName relationshipName = true.
Proof. unfold isLhs. simpl. by rewrite !bool_decide_eq_true_2. Qed.

Lemma fresh_safe : rhsIsLhs ledger = false ∨ ¬ lists (data relationshipData) id.
Proof.
destruct safe as [[N|N]|H]; [left; simpl..|by right].
- by rewrite (bool_decide_eq_true_2 _ N).
- rewrite (bool_decide_eq_true_2 _ N). by rewrite orb_true_r.
Qed.

(** A read after the first push on a new ledger. *)
Lemma fresh_get otherModelName k otherRelationshipName :
get store fuel
  (push ledger modelName id relationshipName relationshipData) otherModelName k
  otherRelationshipName
= Ret (payloads (ownSide ledger otherModelName otherRelationshipName) after
         !! k, after).
Proof.
apply (get000_after_push store fuel ledger modelName id relationshipName
         relationshipData inverseIsMany ledger otherModelName k
         otherRelationshipName).
- done.
- unfold inverseIsManyFor000.
  change (work_modelName (workOf modelName id relationshipName relationshipData))
    with modelName.
  change (work_relationshipName
            (workOf modelName id relationshipName relationshipData))
    with relationshipName.
  rewrite fresh_isLhs. exact getter.
- apply fresh_safe.
- exact enough.
Qed.

Lemma fresh_own :
payloads (ownSide ledger modelName relationshipName) after !! id
= Some {| payload := relationshipData; inverse := false |}.
Proof. apply (flushedOne000_own ledger w inverseIsMany fresh_safe). Qed.

Lemma fresh_derived r :
r ∈ references (data relationshipData) →
(modelName = inverseModelName → relationshipName = inverseRelationshipName →
 ref_id r ≠ id) →
∃ e,
  payloads (otherSide ledger modelName relationshipName) after !! ref_id r
  = Some e
  ∧ inverse e = true
  ∧ {| ref_id := id; ref_type := modelName |} ∈ references (data (payload e)).
Proof.
intros Hr Hself. unfold after.
destruct (rhsIsLhs ledger) eqn:Hshared.
- rewrite (flushedOne000_shared ledger w inverseIsMany) by done.
  apply (adds000_derived (backReference w)); [done |].
  rewrite lookup_insert_ne; [done |].
  intros E. simpl in Hshared.
  destruct (decide (modelName = inverseModelName)) as [E1|N1];
    [destruct (decide (relationshipName = inverseRelationshipName))
       as [E2|N2] |].
  + by apply (Hself E1 E2).
  + rewrite (bool_decide_eq_true_2 _ N2) in Hshared.
    by rewrite orb_true_r in Hshared.
  + by rewrite (bool_decide_eq_true_2 _ N1) in Hshared.
- destruct (flushedOne000_distinct ledger w inverseIsMany Hshared) as [_ Hd].
  change (work_modelName w) with modelName in Hd.
  change (work_relationshipName w) with relationshipName in Hd.
  rewrite Hd. apply (adds000_derived (backReference w)); [done |].
  unfold otherSide, ownSide. rewrite fresh_isLhs.
  unfold payloads. simpl in Hshared. simpl. by rewrite Hshared.
Qed.
End Part000Fresh.

(** X17.  part_000, the registry: the first [push] of a declared
    relationship files a new ledger, and a [get] for the same model, id and
    relationship then returns the fragment pushed, flagged [inverse: false],
    provided the inverse's cardinality can be read from the schema, the
    pushed data does not refer to the pushed id when the relationship is its
    own inverse, and the loop bound exceeds the number of references. *)
Theorem part000_registry_get_returns_the_last_push :
  ∀ store fuel this modelName id relationshipName relationshipData
    inverseModelName inverseRelationshipName inverseIsMany,
    Map_has (relationshipsByName store modelName) relationshipName = true →
    Part000.RelationshipsPayloads._inverseFor store modelName relationshipName
    = Some (inverseModelName, inverseRelationshipName) →
    Part000.RelationshipsPayloads._map this
      !! Part000.RelationshipsPayloads.keyOf modelName relationshipName
           inverseModelName inverseRelationshipName
    = None →
    Part000.RelationshipPayloads.relationshipIsMany store inverseModelName
      inverseRelationshipName = Ret inverseIsMany →
    (modelName ≠ inverseModelName ∨ relationshipName ≠ inverseRelationshipName)
    ∨ ¬ lists (data relationshipData) id →
    length (references (data relationshipData)) < fuel →
    ∃ registry',
      (registry ←! Part000.RelationshipsPayloads.push store this modelName id
                     (Some [(relationshipName, relationshipData)]);
       Part000.RelationshipsPayloads.get store fuel registry modelName id
         relationshipName)
      = Ret (Some {| Part000.payload := relationshipData;
                     Part000.inverse := false |}, registry').
Proof.
  intros store fuel this modelName id relationshipName relationshipData
    inverseModelName inverseRelationshipName inverseIsMany Hhas Hinv Hun Hget
    Hsafe Hfuel.
  rewrite (push000_creates store this modelName id relationshipName
             relationshipData _ _ Hhas Hinv Hun).
  cbn [Res_bind].
  rewrite (get000_on_pushed store this modelName id relationshipName
             relationshipData _ _ fuel modelName id relationshipName _ _ Hhas
             Hinv eq_refl).
  rewrite (fresh_get store modelName id relationshipName relationshipData _ _
             inverseIsMany fuel Hget Hsafe Hfuel).
  cbn [Res_bind fst snd].
  rewrite (fresh_own modelName id relationshipName relationshipData _ _
             inverseIsMany Hsafe).
  by eexists.
Qed.

Lemma part000_registry_get_returns_the_last_push_witness :
  ∃ registry',
    (registry ←! Part000.RelationshipsPayloads.push exampleStore
                   Part000.RelationshipsPayloads.new "user" "1"
                   (Some [("hobbies", {| data := DataMany [hobby "2"] |})]);
     Part000.RelationshipsPayloads.get exampleStore 2 registry "user" "1"
       "hobbies")
    = Ret (Some {| Part000.payload := {| data := DataMany [hobby "2"] |};
                   Part000.inverse := false |}, registry').
Proof.
  apply (part000_registry_get_returns_the_last_push exampleStore 2
           Part000.RelationshipsPayloads.new "user" "1" "hobbies"
           {| data := DataMany [hobby "2"] |} "hobby" "user" false).
  - done.
  - done.
  - done.
  - done.
  - left. by left.
  - simpl. lia.
Defined.

(** * Properties of state/create.js *)

(** X18.  create.js, [Relationships.get]: a relationship is made at most
    once.  Once [get] has returned a relationship for a key, [has] answers
    true for it, and every later [get] for the key returns that same object
    without reading the payload cache (the cache is handed back as it is, for
    any loop bound), so a cached payload is ingested once. *)
Theorem relationship_is_made_once :
  ∀ store inverseOptionIsNull fuel payloads this key relationship this'
    payloads',
    Relationships.get store inverseOptionIsNull fuel payloads this key
    = Ret (Some relationship, this', payloads') →
    Relationships.has this' key = true
    ∧ ∀ fuel' payloads'',
        Relationships.get store inverseOptionIsNull fuel' payloads'' this' key
        = Ret (Some relationship, this', payloads'').
Proof.
  intros store inverseOptionIsNull fuel payloads this key relationship this'
    payloads' Hget.
  assert (Hin : Relationships.initializedRelationships this' !! key
                = Some relationship).
  { unfold Relationships.get in Hget.
    destruct (Relationships.initializedRelationships this !! key) as [rel0|]
      eqn:E.
    - by injection Hget as <- <- <-.
    - destruct (Part000.RelationshipsPayloads.get store fuel payloads _ _ key)
        as [[entry payloads1]| |]; simpl in Hget; [|done..].
      destruct (Map_get _ key) as [meta|].
      + injection Hget as <- <- <-. simpl. apply lookup_insert_eq.
      + by destruct entry. }
  split.
  - unfold Relationships.has. by rewrite Hin.
  - intros fuel' payloads''. unfold Relationships.get. by rewrite Hin.
Qed.

Lemma relationship_is_made_once_witness :
  ∃ relationship this',
    Relationships.has this' "hobbies" = true
    ∧ ∀ fuel' payloads'',
        Relationships.get exampleStore (λ _, false) fuel' payloads'' this'
          "hobbies"
        = Ret (Some relationship, this', payloads'').
Proof.
  eexists _, _.
  eapply (relationship_is_made_once exampleStore (λ _, false) 0
            Part000.RelationshipsPayloads.new (Relationships.new "user" "1")
            "hobbies").
  vm_compute. reflexivity.
Defined.

(** X19.  create.js, [Relationships.get] for a key that is not a declared
    relationship of the model: nothing is returned, no relationship is
    recorded, and the payload cache is not changed. *)
Theorem undeclared_key_makes_no_relationship :
  ∀ store inverseOptionIsNull fuel payloads this key,
    Relationships.initializedRelationships this !! key = None →
    Map_has
      (relationshipsByName store (Relationships.internalModel_modelName this))
      key = false →
    Relationships.get store inverseOptionIsNull fuel payloads this key
    = Ret (None, this, payloads)
    ∧ Relationships.has this key = false.
Proof.
  intros store inverseOptionIsNull fuel payloads this key Hnone Hhas.
  unfold Relationships.get, Relationships.has. rewrite Hnone.
  unfold Part000.RelationshipsPayloads.get.
  rewrite (Part000_resolve_undeclared store _ key Hhas). simpl.
  unfold Map_has in Hhas. by destruct (Map_get _ key).
Qed.

Lemma undeclared_key_makes_no_relationship_witness :
  Relationships.get exampleStore (λ _, false) 0
    Part000.RelationshipsPayloads.new (Relationships.new "user" "1") "pets"
  = Ret (None, Relationships.new "user" "1", Part000.RelationshipsPayloads.new)
  ∧ Relationships.has (Relationships.new "user" "1") "pets" = false.
Proof.
  by apply (undeclared_key_makes_no_relationship exampleStore (λ _, false) 0
              Part000.RelationshipsPayloads.new (Relationships.new "user" "1")
              "pets").
Defined.

Section Part000FreshInverse.
Import Part000 Part000.RelationshipPayloads.
Variables modelName id relationshipName : string.
Variable relationshipData : Payload.
Variables inverseModelName inverseRelationshipName : string.
Variable inverseIsMany : bool.

Let ledger :=
  new modelName relationshipName inverseModelName inverseRelationshipName.
Let after :=
  flushedOne000 ledger (workOf modelName id relationshipName relationshipData)
    inverseIsMany.

(** The inverse pair addresses the table the pushed pair derives into. *)
Lemma fresh_inverse_side :
payloads (ownSide ledger inverseModelName inverseRelationshipName) after
= payloads (otherSide ledger modelName relationshipName) after.
Proof.
destruct (rhsIsLhs ledger) eqn:Hshared.
- assert (Hafter : rhsIsLhs after = true).
  { unfold after, flushedOne000. by rewrite !rhsIsLhs_update. }
  by rewrite !payloads000_reflexive.
- assert (Hlhs : isLhs ledger modelName relationshipName = true)
    by apply fresh_isLhs.
  unfold otherSide. rewrite Hlhs.
  assert (Hrhs : isLhs ledger inverseModelName inverseRelationshipName = false).
  { unfold isLhs. simpl. simpl in Hshared.
    destruct (decide (inverseModelName = modelName)) as [E1|N1];
      [destruct (decide (inverseRelationshipName = relationshipName))
         as [E2|N2] |].
    - subst. rewrite !bool_decide_eq_false_2 in Hshared by (by intros N).
      done.
    - rewrite (bool_decide_eq_false_2 _ N2). by rewrite andb_false_r.
    - by rewrite (bool_decide_eq_false_2 _ N1). }
  unfold ownSide. by rewrite Hrhs.
Qed.
End Part000FreshInverse.

(** X20.  create.js over the cache of part_000, at the first push of a
    relationship pair.  Let [relationshipName] be declared on [modelName]
    with descriptor [relationshipMeta], let its inverse resolve to
    [(inverseModelName, inverseRelationshipName)], and let the registry hold
    no ledger for the pair yet.  Provided the cardinality of the inverse can
    be read from the schema, the pushed data does not refer to the pushed id
    when the relationship is its own inverse, and the loop bound exceeds the
    number of references pushed: after the [push] of the fragment, the first
    [Relationships.get] of that model for the relationship returns; it makes
    the relationship object (a [ManyRelationship] for a [hasMany]
    descriptor, else a [BelongsToRelationship]), hands it the fragment by
    [push] and by nothing else, and records it, so that [has] answers
    true. *)
Theorem pushed_fragment_is_ingested_by_push :
  ∀ store inverseOptionIsNull fuel this modelName id relationshipName
    relationshipData inverseModelName inverseRelationshipName inverseIsMany
    relationshipMeta,
    Map_get (relationshipsByName store modelName) relationshipName
    = Some relationshipMeta →
    Part000.RelationshipsPayloads._inverseFor store modelName relationshipName
    = Some (inverseModelName, inverseRelationshipName) →
    Part000.RelationshipsPayloads._map this
      !! Part000.RelationshipsPayloads.keyOf modelName relationshipName
           inverseModelName inverseRelationshipName
    = None →
    Part000.RelationshipPayloads.relationshipIsMany store inverseModelName
      inverseRelationshipName = Ret inverseIsMany →
    (modelName ≠ inverseModelName ∨ relationshipName ≠ inverseRelationshipName)
    ∨ ¬ lists (data relationshipData) id →
    length (references (data relationshipData)) < fuel →
    ∃ relationship this' registry',
      (registry ←! Part000.RelationshipsPayloads.push store this modelName id
                     (Some [(relationshipName, relationshipData)]);
       Relationships.get store inverseOptionIsNull fuel registry
         (Relationships.new modelName id) relationshipName)
      = Ret (Some relationship, this', registry')
      ∧ Relationships.relationship_calls relationship
        = [Create.relationship_push (Some relationshipData)]
      ∧ Relationships.relationship_class relationship
        = (if isHasMany relationshipMeta then Relationships.ManyRelationship
           else Relationships.BelongsToRelationship)
      ∧ Relationships.has this' relationshipName = true.
Proof.
  intros store inverseOptionIsNull fuel this modelName id relationshipName
    relationshipData inverseModelName inverseRelationshipName inverseIsMany
    relationshipMeta Hmeta Hinv Hun Hget Hsafe Hfuel.
  assert (Hhas : Map_has (relationshipsByName store modelName) relationshipName
                 = true).
  { unfold Map_has. by rewrite Hmeta. }
  rewrite (push000_creates store this modelName id relationshipName
             relationshipData _ _ Hhas Hinv Hun).
  cbn [Res_bind].
  unfold Relationships.get.
  cbn [Relationships.new Relationships.initializedRelationships
       Relationships.internalModel_modelName Relationships.internalModel_id].
  rewrite lookup_empty.
  rewrite (get000_on_pushed store this modelName id relationshipName
             relationshipData _ _ fuel modelName id relationshipName _ _ Hhas
             Hinv eq_refl).
  rewrite (fresh_get store modelName id relationshipName relationshipData _ _
             inverseIsMany fuel Hget Hsafe Hfuel).
  cbn [Res_bind fst snd].
  rewrite (fresh_own modelName id relationshipName relationshipData _ _
             inverseIsMany Hsafe).
  rewrite Hmeta. eexists _, _, _. split; [reflexivity |].
  split_and!.
  - done.
  - done.
  - unfold Relationships.has. simpl. by rewrite lookup_insert_eq.
Qed.

Lemma pushed_fragment_is_ingested_by_push_witness :
  ∃ relationship this' registry',
    (registry ←! Part000.RelationshipsPayloads.push exampleStore
                   Part000.RelationshipsPayloads.new "user" "1"
                   (Some [("hobbies", {| data := DataMany [hobby "2"] |})]);
     Relationships.get exampleStore (λ _, false) 2 registry
       (Relationships.new "user" "1") "hobbies")
    = Ret (Some relationship, this', registry')
    ∧ Relationships.relationship_calls relationship
      = [Create.relationship_push (Some {| data := DataMany [hobby "2"] |})]
    ∧ Relationships.relationship_class relationship
      = Relationships.ManyRelationship
    ∧ Relationships.has this' "hobbies" = true.
Proof.
  apply (pushed_fragment_is_ingested_by_push exampleStore (λ _, false) 2
           Part000.RelationshipsPayloads.new "user" "1" "hobbies"
           {| data := DataMany [hobby "2"] |} "hobby" "user" false
           {| meta_kind := hasMany; meta_type := "hobby" |}).
  - done.
  - done.
  - done.
  - done.
  - left. by left.
  - simpl. lia.
Defined.

(** X21.  create.js over the cache of part_000, at the first push of a
    relationship pair.  Let [relationshipName] be declared on [modelName],
    let its inverse resolve to [(inverseModelName, inverseRelationshipName)],
    declared there with a descriptor and resolving back to
    [(modelName, relationshipName)], and let the registry hold no ledger for
    the pair yet, so that the inverse side has no entry of its own.
    Provided the cardinality of the inverse can be read from the schema, the
    pushed data does not refer to the pushed id when the relationship is its
    own inverse, and the loop bound exceeds the number of references pushed:
    after the [push] of a fragment that refers to [r], the first
    [Relationships.get] of the model [r] names, for the inverse
    relationship, returns; it hands the new relationship object a derived
    fragment by [pushFromInverse] and by nothing else, and that fragment
    refers back to the model that was pushed. *)
Theorem derived_fragment_is_ingested_by_pushFromInverse :
  ∀ store inverseOptionIsNull fuel this modelName id relationshipName
    relationshipData inverseModelName inverseRelationshipName inverseIsMany
    inverseRelationshipMeta r,
    Map_has (relationshipsByName store modelName) relationshipName = true →
    Part000.RelationshipsPayloads._inverseFor store modelName relationshipName
    = Some (inverseModelName, inverseRelationshipName) →
    Map_get (relationshipsByName store inverseModelName) inverseRelationshipName
    = Some inverseRelationshipMeta →
    Part000.RelationshipsPayloads._inverseFor store inverseModelName
      inverseRelationshipName
    = Some (modelName, relationshipName) →
    Part000.RelationshipsPayloads._map this
      !! Part000.RelationshipsPayloads.keyOf modelName relationshipName
           inverseModelName inverseRelationshipName
    = None →
    Part000.RelationshipPayloads.relationshipIsMany store inverseModelName
      inverseRelationshipName = Ret inverseIsMany →
    (modelName ≠ inverseModelName ∨ relationshipName ≠ inverseRelationshipName)
    ∨ ¬ lists (data relationshipData) id →
    length (references (data relationshipData)) < fuel →
    r ∈ references (data relationshipData) →
    ∃ relationship this' registry' payload,
      (registry ←! Part000.RelationshipsPayloads.push store this modelName id
                     (Some [(relationshipName, relationshipData)]);
       Relationships.get store inverseOptionIsNull fuel registry
         (Relationships.new inverseModelName (ref_id r))
         inverseRelationshipName)
      = Ret (Some relationship, this', registry')
      ∧ Relationships.relationship_calls relationship
        = [Create.relationship_pushFromInverse (Some payload)]
      ∧ {| ref_id := id; ref_type := modelName |} ∈ references (data payload).
Proof.
  intros store inverseOptionIsNull fuel this modelName id relationshipName
    relationshipData inverseModelName inverseRelationshipName inverseIsMany
    inverseRelationshipMeta r Hhas Hinv Hmeta' Hinv' Hun Hget Hsafe Hfuel Hr.
  assert (Hhas' : Map_has (relationshipsByName store inverseModelName)
                    inverseRelationshipName = true).
  { unfold Map_has. by rewrite Hmeta'. }
  assert (Hself : modelName = inverseModelName →
                  relationshipName = inverseRelationshipName → ref_id r ≠ id).
  { intros E1 E2 E. destruct Hsafe as [[N|N]|N]; [done | done |].
    apply N. by exists r. }
  rewrite (push000_creates store this modelName id relationshipName
             relationshipData _ _ Hhas Hinv Hun).
  cbn [Res_bind].
  unfold Relationships.get.
  cbn [Relationships.new Relationships.initializedRelationships
       Relationships.internalModel_modelName Relationships.internalModel_id].
  rewrite lookup_empty.
  rewrite (get000_on_pushed store this modelName id relationshipName
             relationshipData _ _ fuel inverseModelName (ref_id r)
             inverseRelationshipName _ _ Hhas' Hinv'
             (keyOf_symmetric _ _ _ _)).
  rewrite (fresh_get store modelName id relationshipName relationshipData _ _
             inverseIsMany fuel Hget Hsafe Hfuel).
  cbn [Res_bind fst snd].
  rewrite (fresh_inverse_side modelName id relationshipName relationshipData
             inverseModelName inverseRelationshipName inverseIsMany).
  destruct (fresh_derived modelName id relationshipName relationshipData
              inverseModelName inverseRelationshipName inverseIsMany r Hr Hself)
    as (e & -> & Hflag & Hback).
  rewrite Hmeta'. eexists _, _, _, (Part000.payload e).
  split; [reflexivity |]. split; [|done].
  cbn [Relationships.relationship_calls Relationships.createRelationshipFor
       app].
  unfold Relationships.ingestion. by rewrite Hflag.
Qed.

Lemma derived_fragment_is_ingested_by_pushFromInverse_witness :
  ∃ relationship this' registry' payload,
    (registry ←! Part000.RelationshipsPayloads.push exampleStore
                   Part000.RelationshipsPayloads.new "user" "1"
                   (Some [("hobbies", {| data := DataMany [hobby "2"] |})]);
     Relationships.get exampleStore (λ _, false) 2 registry
       (Relationships.new "hobby" (ref_id (hobby "2"))) "user")
    = Ret (Some relationship, this', registry')
    ∧ Relationships.relationship_calls relationship
      = [Create.relationship_pushFromInverse (Some payload)]
    ∧ {| ref_id := "1"; ref_type := "user" |} ∈ references (data payload).
Proof.
  apply (derived_fragment_is_ingested_by_pushFromInverse exampleStore
           (λ _, false) 2 Part000.RelationshipsPayloads.new "user" "1"
           "hobbies" {| data := DataMany [hobby "2"] |} "hobby" "user" false
           {| meta_kind := belongsTo; meta_type := "user" |} (hobby "2")).
  - done.
  - done.
  - done.
  - done.
  - done.
  - done.
  - left. by left.
  - simpl. lia.
  - apply list_elem_of_here.
Defined.


